(** * The query gate of the routing engine (src/engine/engine.cpp)

    A shallow embedding of [Engine::EngineLock], of the template function
    [RunQuery] and of the [Engine] constructor, together with the
    properties of the admission / hand-over protocol.

    The code is written in a small monad of programs over the primitive
    operations the source performs on shared objects (locking a mutex,
    reading and writing the query counter, asking the watchdog, calling a
    plugin).  One interpreter of the primitives, [do_op], gives both the
    run of one request in isolation ([exec]) and the interleaved runs of
    several request threads ([run]). *)

From Stdlib Require Import ZArith List Lia Bool String.
From stdpp Require Import base list.
Import ListNotations.

Set Implicit Arguments.
Local Open Scope Z_scope.

(** ** Identifiers *)

(** A thread of the server (or another process holding a named mutex). *)
Definition tid := nat.

(** The identity of one facade object, i.e. of the control block that the
    [std::shared_ptr<BaseDataFacade>] copies of it share. *)
Definition handle := nat.

(** The three mutexes of [Engine::EngineLock]: the two named mutexes of its
    [barrier] and the process-local [facade_update_mutex]. *)
Inductive mutex : Type :=
| pending_update_mutex
| query_mutex
| facade_update_mutex.

#[global] Instance mutex_eq_dec : EqDecision mutex.
Proof. solve_decision. Defined.

(** The conversion of a smart pointer to [bool]: whether it is not null. *)
Definition non_null {A : Type} (p : option A) : bool :=
  match p with
  | Some _ => true
  | None => false
  end.

(** The pointee of [std::unique_ptr<EngineLock> lock].  The object's fields
    live in the machine state below; the pointer is either null or refers to
    that one object. *)
Inductive EngineLock : Type := engine_lock.

(** The two statements of the source that write [barrier.number_of_queries]. *)
Inductive site : Type :=
| pre_increment   (* ++(barrier.number_of_queries), line 80 *)
| pre_decrement.  (* --(barrier.number_of_queries), line 55 *)

(** ** Machine integers *)

Section Int.

(** [barrier.number_of_queries] is declared in storage/shared_barriers.hpp;
    its width is a parameter of the development. *)
Variable int_bits : Z.

Definition int_min : Z := - 2 ^ (int_bits - 1).
Definition int_max : Z := 2 ^ (int_bits - 1) - 1.

(** Two's-complement wrap-around of a signed [int_bits]-bit integer. *)
Definition wrap (z : Z) : Z :=
  (z + 2 ^ (int_bits - 1)) mod 2 ^ int_bits - 2 ^ (int_bits - 1).

End Int.

Arguments wrap : simpl never.
#[local] Arguments Z.eqb : simpl never.
#[local] Arguments Z.leb : simpl never.

Lemma pow2_double (b : Z) : 0 < b -> 2 ^ b = 2 * 2 ^ (b - 1).
Proof.
  intros Hb. replace b with (Z.succ (b - 1)) at 1 by lia.
  apply Z.pow_succ_r. lia.
Qed.

(** Arithmetic modulo [2 ^ b]: wrapping an operand first changes nothing. *)
Lemma wrap_wrap_add (b x y : Z) : wrap b (wrap b x + y) = wrap b (x + y).
Proof.
  unfold wrap. f_equal.
  replace ((x + 2 ^ (b - 1)) mod 2 ^ b - 2 ^ (b - 1) + y + 2 ^ (b - 1))
    with ((x + 2 ^ (b - 1)) mod 2 ^ b + y) by lia.
  rewrite Zplus_mod_idemp_l. f_equal. lia.
Qed.

(** A value in the range of the type is left alone. *)
Lemma wrap_small (b z : Z) :
  0 < b -> - 2 ^ (b - 1) <= z < 2 ^ (b - 1) -> wrap b z = z.
Proof.
  intros Hb Hz. unfold wrap. rewrite (pow2_double Hb).
  rewrite Z.mod_small by lia. lia.
Qed.

Section Engine.

(** [engine::Status] (engine/status.hpp) is opaque to the dispatcher. *)
Context {Status : Type}.

(** Build parameters: the width of [int] and whether [NDEBUG] is defined,
    in which case [BOOST_ASSERT] expands to nothing. *)
Variable int_bits : Z.
Variable NDEBUG : bool.

(** The watchdog (engine/data_watchdog.hpp) is an external collaborator.
    Modelled from the spec: [HasNewRegion] is the cheap check for a newer
    generation, and [MaybeLoadNewRegion] maps it on demand, answering
    whether it produced a facade and leaving the watchdog in a new state. *)
Context {DataWatchdog : Type}.
Variable HasNewRegion : DataWatchdog -> bool.
Variable MaybeLoadNewRegion : DataWatchdog -> bool * DataWatchdog.

(** A plugin (engine/plugins/*.hpp): its parameter and result types and
    its [HandleRequest], which reads the facade it is given and fills the
    result.  [RunQuery] is a template over the three. *)
Record Plugin : Type := {
  ParameterT : Type;
  ResultT : Type;
  HandleRequest : option handle -> ParameterT -> ResultT -> Status * ResultT
}.

(** ** Events and state *)

Inductive event : Type :=
| EvLock (m : mutex)
| EvUnlock (m : mutex)
| EvLoad (n : Z)
| EvStore (s : site) (n : Z)
| EvUseCount (n : nat)
| EvAssert (b : bool)
| EvNotifyAll
| EvHasNewRegion (b : bool)
| EvMaybeLoadNewRegion (new_facade : option handle)
| EvMoveFacade (old : option handle) (new : handle)
| EvHandleRequest (facade : option handle) (status : Status).

(** The objects [RunQuery] works on.  A mutex is held by at most one
    thread; [log] is the history of primitive operations, newest first. *)
Record state : Type := {
  st_pending_update_mutex : option tid;  (* barrier.pending_update_mutex *)
  st_query_mutex : option tid;           (* barrier.query_mutex *)
  number_of_queries : Z;                 (* barrier.number_of_queries *)
  st_facade_update_mutex : option tid;   (* lock->facade_update_mutex *)
  watchdog : option DataWatchdog;        (* std::unique_ptr<DataWatchdog> *)
  query_data_facade : option handle;     (* std::shared_ptr<BaseDataFacade> *)
  use_count : handle -> nat;             (* owners of each facade object *)
  next_handle : handle;                  (* next object to be allocated *)
  aborted : bool;                        (* a BOOST_ASSERT has failed *)
  log : list (tid * event)
}.

Definition owner (σ : state) (m : mutex) : option tid :=
  match m with
  | pending_update_mutex => st_pending_update_mutex σ
  | query_mutex => st_query_mutex σ
  | facade_update_mutex => st_facade_update_mutex σ
  end.

Definition set_owner (m : mutex) (o : option tid) (σ : state) : state :=
  {| st_pending_update_mutex :=
       match m with pending_update_mutex => o | _ => st_pending_update_mutex σ end;
     st_query_mutex :=
       match m with query_mutex => o | _ => st_query_mutex σ end;
     number_of_queries := number_of_queries σ;
     st_facade_update_mutex :=
       match m with facade_update_mutex => o | _ => st_facade_update_mutex σ end;
     watchdog := watchdog σ;
     query_data_facade := query_data_facade σ;
     use_count := use_count σ;
     next_handle := next_handle σ;
     aborted := aborted σ;
     log := log σ |}.

Definition set_number_of_queries (n : Z) (σ : state) : state :=
  {| st_pending_update_mutex := st_pending_update_mutex σ;
     st_query_mutex := st_query_mutex σ;
     number_of_queries := n;
     st_facade_update_mutex := st_facade_update_mutex σ;
     watchdog := watchdog σ;
     query_data_facade := query_data_facade σ;
     use_count := use_count σ;
     next_handle := next_handle σ;
     aborted := aborted σ;
     log := log σ |}.

Definition set_aborted (σ : state) : state :=
  {| st_pending_update_mutex := st_pending_update_mutex σ;
     st_query_mutex := st_query_mutex σ;
     number_of_queries := number_of_queries σ;
     st_facade_update_mutex := st_facade_update_mutex σ;
     watchdog := watchdog σ;
     query_data_facade := query_data_facade σ;
     use_count := use_count σ;
     next_handle := next_handle σ;
     aborted := true;
     log := log σ |}.

Definition record (t : tid) (e : event) (σ : state) : state :=
  {| st_pending_update_mutex := st_pending_update_mutex σ;
     st_query_mutex := st_query_mutex σ;
     number_of_queries := number_of_queries σ;
     st_facade_update_mutex := st_facade_update_mutex σ;
     watchdog := watchdog σ;
     query_data_facade := query_data_facade σ;
     use_count := use_count σ;
     next_handle := next_handle σ;
     aborted := aborted σ;
     log := (t, e) :: log σ |}.

Definition set_count (h : handle) (n : nat) (f : handle -> nat) : handle -> nat :=
  fun h' => if Nat.eqb h' h then n else f h'.

(** The watchdog has mapped a new region and [std::make_shared] has put a
    facade for it in a fresh object, owned by the caller alone. *)
Definition allocate_facade (w' : DataWatchdog) (σ : state) : state :=
  {| st_pending_update_mutex := st_pending_update_mutex σ;
     st_query_mutex := st_query_mutex σ;
     number_of_queries := number_of_queries σ;
     st_facade_update_mutex := st_facade_update_mutex σ;
     watchdog := Some w';
     query_data_facade := query_data_facade σ;
     use_count := set_count (next_handle σ) 1%nat (use_count σ);
     next_handle := S (next_handle σ);
     aborted := aborted σ;
     log := log σ |}.

Definition set_watchdog (w' : DataWatchdog) (σ : state) : state :=
  {| st_pending_update_mutex := st_pending_update_mutex σ;
     st_query_mutex := st_query_mutex σ;
     number_of_queries := number_of_queries σ;
     st_facade_update_mutex := st_facade_update_mutex σ;
     watchdog := Some w';
     query_data_facade := query_data_facade σ;
     use_count := use_count σ;
     next_handle := next_handle σ;
     aborted := aborted σ;
     log := log σ |}.

(** [facade = std::move(new_facade)]: the dispatcher's pointer gives up its
    share of the old object and takes over the one [new_facade] held. *)
Definition release_share (p : option handle) (f : handle -> nat) : handle -> nat :=
  match p with
  | Some h => set_count h (Nat.pred (f h)) f
  | None => f
  end.

Definition move_facade (new : handle) (σ : state) : state :=
  {| st_pending_update_mutex := st_pending_update_mutex σ;
     st_query_mutex := st_query_mutex σ;
     number_of_queries := number_of_queries σ;
     st_facade_update_mutex := st_facade_update_mutex σ;
     watchdog := watchdog σ;
     query_data_facade := Some new;
     use_count := release_share (query_data_facade σ) (use_count σ);
     next_handle := next_handle σ;
     aborted := aborted σ;
     log := log σ |}.

(** [shared_ptr::use_count()]; zero for a null pointer. *)
Definition facade_use_count (σ : state) : nat :=
  match query_data_facade σ with
  | Some h => use_count σ h
  | None => 0%nat
  end.

(** ** Primitive operations and programs *)

Inductive op : Type :=
| Lock (m : mutex)
| Unlock (m : mutex)
| Load                          (* read barrier.number_of_queries *)
| Store (s : site) (n : Z)      (* write barrier.number_of_queries *)
| UseCount                      (* facade.use_count() *)
| Assert (b : bool)             (* an enabled BOOST_ASSERT on a value *)
| NotifyAll                     (* no_running_queries_condition.notify_all() *)
| CallHasNewRegion              (* watchdog.HasNewRegion() *)
| CallMaybeLoadNewRegion        (* watchdog.MaybeLoadNewRegion() *)
| MoveFacade (new : handle)     (* facade = std::move(new_facade) *)
| CallHandleRequest (plugin : Plugin)
    (parameters : ParameterT plugin) (result : ResultT plugin).

Definition answer (o : op) : Type :=
  match o with
  | Lock _ | Unlock _ | Store _ _ | Assert _ | NotifyAll | MoveFacade _ => unit
  | Load => Z
  | UseCount => nat
  | CallHasNewRegion => bool
  | CallMaybeLoadNewRegion => option handle
  | CallHandleRequest plugin _ _ => (Status * ResultT plugin)%type
  end.

Inductive prog (R : Type) : Type :=
| Ret (r : R)
| Vis (o : op) (k : answer o -> prog R).

Arguments Ret {R} r.
Arguments Vis {R} o k.

Fixpoint bind {A B : Type} (p : prog A) (f : A -> prog B) : prog B :=
  match p with
  | Ret a => f a
  | Vis o k => Vis o (fun x => bind (k x) f)
  end.

Definition call (o : op) : prog (answer o) := Vis o Ret.

(** What one primitive does when thread [t] performs it; [None] when the
    thread cannot proceed: the mutex is held, the pointer is null, or the
    process has been aborted by a failed assertion. *)
Definition do_op (t : tid) (o : op) (σ : state) : option (answer o * state) :=
  if aborted σ then None else
  match o as o0 return option (answer o0 * state) with
  | Lock m =>
      match owner σ m with
      | None => Some (tt, record t (EvLock m) (set_owner m (Some t) σ))
      | Some _ => None
      end
  | Unlock m =>
      match owner σ m with
      | Some t' =>
          if Nat.eqb t' t
          then Some (tt, record t (EvUnlock m) (set_owner m None σ))
          else None
      | None => None
      end
  | Load =>
      Some (number_of_queries σ, record t (EvLoad (number_of_queries σ)) σ)
  | Store s n =>
      Some (tt, record t (EvStore s n) (set_number_of_queries n σ))
  | UseCount =>
      Some (facade_use_count σ, record t (EvUseCount (facade_use_count σ)) σ)
  | Assert b =>
      Some (tt, record t (EvAssert b) (if b then σ else set_aborted σ))
  | NotifyAll =>
      Some (tt, record t EvNotifyAll σ)
  | CallHasNewRegion =>
      match watchdog σ with
      | Some w => Some (HasNewRegion w, record t (EvHasNewRegion (HasNewRegion w)) σ)
      | None => None
      end
  | CallMaybeLoadNewRegion =>
      match watchdog σ with
      | Some w =>
          let (produced, w') := MaybeLoadNewRegion w in
          if produced
          then Some (Some (next_handle σ),
                     record t (EvMaybeLoadNewRegion (Some (next_handle σ)))
                       (allocate_facade w' σ))
          else Some (None, record t (EvMaybeLoadNewRegion None) (set_watchdog w' σ))
      | None => None
      end
  | MoveFacade new =>
      Some (tt, record t (EvMoveFacade (query_data_facade σ) new) (move_facade new σ))
  | CallHandleRequest plugin parameters result =>
      let r := HandleRequest plugin (query_data_facade σ) parameters result in
      Some (r, record t (EvHandleRequest (query_data_facade σ) (fst r)) σ)
  end.

(** The run of one thread on its own: the state it reaches and, when the
    program ran to its end, what it returned. *)
Fixpoint exec {R : Type} (t : tid) (p : prog R) (σ : state) : state * option R :=
  match p with
  | Ret r => (σ, Some r)
  | Vis o k =>
      match do_op t o σ with
      | Some (a, σ') => exec t (k a) σ'
      | None => (σ, None)
      end
  end.

(** ** Notation for programs *)

Notation "x <- p ;; q" := (bind p (fun x => q))
  (at level 100, p at next level, right associativity).
Notation "p ;; q" := (bind p (fun _ => q))
  (at level 100, right associativity).

Definition lock (m : mutex) : prog unit := call (Lock m).
Definition unlock (m : mutex) : prog unit := call (Unlock m).
Definition load : prog Z := call Load.
Definition store (s : site) (n : Z) : prog unit := call (Store s n).
Definition notify_all : prog unit := call NotifyAll.

(** [BOOST_ASSERT(expr)]: nothing at all under [NDEBUG]; otherwise [expr]
    is evaluated and the process is aborted when it is false. *)
Definition BOOST_ASSERT (expr : prog bool) : prog unit :=
  if NDEBUG then Ret tt else (b <- expr ;; call (Assert b)).

(** ** Engine::EngineLock *)

(** [void Engine::EngineLock::DecreaseQueryCount()], lines 48-63. *)
Definition DecreaseQueryCount : prog unit :=
  (* scoped_lock query_lock(barrier.query_mutex) *)
  lock query_mutex ;;
  (* --(barrier.number_of_queries) *)
  n <- load ;;
  store pre_decrement (wrap int_bits (n - 1)) ;;
  (* BOOST_ASSERT_MSG(0 <= barrier.number_of_queries, ...) *)
  BOOST_ASSERT (n <- load ;; Ret (0 <=? n)) ;;
  (* if (0 == barrier.number_of_queries) notify_all() *)
  n <- load ;;
  (if 0 =? n then notify_all else Ret tt) ;;
  (* ~query_lock *)
  unlock query_mutex.

(** [void Engine::EngineLock::IncreaseQueryCount()], lines 66-81. *)
Definition IncreaseQueryCount : prog unit :=
  (* scoped_lock pending_lock(barrier.pending_update_mutex) *)
  lock pending_update_mutex ;;
  (* scoped_lock query_lock(barrier.query_mutex) *)
  lock query_mutex ;;
  (* pending_lock.unlock() *)
  unlock pending_update_mutex ;;
  (* ++(barrier.number_of_queries) *)
  n <- load ;;
  store pre_increment (wrap int_bits (n + 1)) ;;
  (* ~query_lock; ~pending_lock owns nothing any more *)
  unlock query_mutex.

(** ** RunQuery *)

(** The block of [RunQuery] under [facade_update_mutex], lines 106-131. *)
Definition update_facade : prog unit :=
  (* std::lock_guard<std::mutex> update_lock(lock->facade_update_mutex) *)
  lock facade_update_mutex ;;
  has_new <- call CallHasNewRegion ;;
  (if has_new : bool then
     new_facade <- call CallMaybeLoadNewRegion ;;
     match new_facade with
     | Some new =>
         BOOST_ASSERT (n <- call UseCount ;; Ret (Nat.eqb n 1)) ;;
         call (MoveFacade new)
     | None => Ret tt
     end
   else Ret tt) ;;
  (* ~update_lock *)
  unlock facade_update_mutex.

(** [RunQuery(lock, watchdog, facade, parameters, plugin, result)], lines
    89-137.  [watchdog] and [facade] are the references to the engine's
    members held in the state; the status is returned together with the
    result the plugin has filled in. *)
Definition RunQuery (lock : option EngineLock) (plugin : Plugin)
    (parameters : ParameterT plugin) (result : ResultT plugin)
  : prog (Status * ResultT plugin) :=
  match lock with
  | None => call (CallHandleRequest plugin parameters result)
  | Some _ =>
      BOOST_ASSERT (Ret (non_null lock)) ;;
      IncreaseQueryCount ;;
      update_facade ;;
      status <- call (CallHandleRequest plugin parameters result) ;;
      DecreaseQueryCount ;;
      Ret status
  end.

(** ** Engine *)

(** engine/engine_config.hpp and storage/storage_config.hpp, as far as the
    constructor reads them. *)
Context {StorageConfig : Type}.
Variable IsValid : StorageConfig -> bool.

Record EngineConfig : Type := {
  storage_config : StorageConfig;
  max_locations_trip : Z;
  max_locations_viaroute : Z;
  max_locations_distance_table : Z;
  max_locations_map_matching : Z;
  max_results_nearest : Z;
  use_shared_memory : bool
}.

(** What the constructor finds outside the process: the shared memory that
    osrm-datastore may have published, which [DataWatchdog::TryConnect]
    probes and a new [DataWatchdog] attaches to. *)
Context {SharedMemory : Type}.
Variable TryConnect : SharedMemory -> bool.
Variable DataWatchdog_new : SharedMemory -> DataWatchdog.

(** The plugins' constructors. *)
Variable ViaRoutePlugin TablePlugin NearestPlugin TripPlugin MatchPlugin : Z -> Plugin.
Variable TilePlugin : Plugin.

Record Engine : Type := {
  lock_ : option EngineLock;      (* std::unique_ptr<EngineLock> lock *)
  route_plugin : Plugin;
  table_plugin : Plugin;
  nearest_plugin : Plugin;
  trip_plugin : Plugin;
  match_plugin : Plugin;
  tile_plugin : Plugin
}.

Definition register_plugins (config : EngineConfig) (l : option EngineLock) : Engine :=
  {| lock_ := l;
     route_plugin := ViaRoutePlugin (max_locations_viaroute config);
     table_plugin := TablePlugin (max_locations_distance_table config);
     nearest_plugin := NearestPlugin (max_results_nearest config);
     trip_plugin := TripPlugin (max_locations_trip config);
     match_plugin := MatchPlugin (max_locations_map_matching config);
     tile_plugin := TilePlugin |}.

(** What a new engine finds of the barrier.  [storage::SharedBarriers]
    (storage/shared_barriers.hpp, not under src) holds the two named
    mutexes, which exist system-wide and outlive a process, and the
    counter; the constructor of the engine establishes none of them, so
    they are given: who holds the mutexes, and what the counter is. *)
Record Barrier : Type := {
  found_pending_update_mutex : option tid;
  found_query_mutex : option tid;
  found_number_of_queries : Z
}.

(** The members of a new engine before the constructor body runs: the
    barrier as it is found, a free [facade_update_mutex] (a [std::mutex]
    member), null [watchdog] and [query_data_facade]. *)
Definition fresh_state (b : Barrier) : state :=
  {| st_pending_update_mutex := found_pending_update_mutex b;
     st_query_mutex := found_query_mutex b;
     number_of_queries := found_number_of_queries b;
     st_facade_update_mutex := None;
     watchdog := None;
     query_data_facade := None;
     use_count := fun _ => 0%nat;
     next_handle := 0%nat;
     aborted := false;
     log := [] |}.

Definition set_facade (p : option handle) (σ : state) : state :=
  {| st_pending_update_mutex := st_pending_update_mutex σ;
     st_query_mutex := st_query_mutex σ;
     number_of_queries := number_of_queries σ;
     st_facade_update_mutex := st_facade_update_mutex σ;
     watchdog := watchdog σ;
     query_data_facade := p;
     use_count := use_count σ;
     next_handle := next_handle σ;
     aborted := aborted σ;
     log := log σ |}.

Inductive construction : Type :=
| Throws (what : string)                 (* throw util::exception(what) *)
| Aborts                                 (* a BOOST_ASSERT failed *)
| Constructed (e : Engine) (σ : state).

(** [Engine::Engine(const EngineConfig &config)], lines 146-180, run by
    thread [t]. *)
Definition Engine_new (t : tid) (config : EngineConfig) (shm : SharedMemory)
    (b : Barrier) : construction :=
  if use_shared_memory config then
    (* lock = std::make_unique<EngineLock>() *)
    if negb (TryConnect shm) then
      Throws "No shared memory blocks found, have you forgotten to run osrm-datastore?"
    else
      (* watchdog = std::make_unique<DataWatchdog>() *)
      let σ := set_watchdog (DataWatchdog_new shm) (fresh_state b) in
      (* query_data_facade = watchdog->MaybeLoadNewRegion() *)
      match exec t (call CallMaybeLoadNewRegion) σ with
      | (σ1, Some new_facade) =>
          let σ2 := set_facade new_facade σ1 in
          (* BOOST_ASSERT(query_data_facade) *)
          match exec t (BOOST_ASSERT (Ret (non_null new_facade))) σ2 with
          | (σ3, Some _) =>
              if aborted σ3 then Aborts
              else Constructed (register_plugins config (Some engine_lock)) σ3
          | (_, None) => Aborts
          end
      | (_, None) => Aborts
      end
  else
    if negb (IsValid (storage_config config)) then
      Throws "Invalid file paths given!"
    else
      (* query_data_facade =
           std::make_shared<datafacade::InternalDataFacade>(config.storage_config) *)
      let σ := fresh_state b in
      Constructed (register_plugins config None)
        {| st_pending_update_mutex := st_pending_update_mutex σ;
           st_query_mutex := st_query_mutex σ;
           number_of_queries := number_of_queries σ;
           st_facade_update_mutex := st_facade_update_mutex σ;
           watchdog := watchdog σ;
           query_data_facade := Some (next_handle σ);
           use_count := set_count (next_handle σ) 1%nat (use_count σ);
           next_handle := S (next_handle σ);
           aborted := aborted σ;
           log := log σ |}.

(** The six entry points, lines 187-215. *)
Definition Route (e : Engine) := RunQuery (lock_ e) (route_plugin e).
Definition Table (e : Engine) := RunQuery (lock_ e) (table_plugin e).
Definition Nearest (e : Engine) := RunQuery (lock_ e) (nearest_plugin e).
Definition Trip (e : Engine) := RunQuery (lock_ e) (trip_plugin e).
Definition Match (e : Engine) := RunQuery (lock_ e) (match_plugin e).
Definition Tile (e : Engine) := RunQuery (lock_ e) (tile_plugin e).

(** ** Several threads *)

(** A configuration is the shared state and the program each thread has
    still to run.  [step t] lets thread [t] perform its next primitive,
    and leaves the configuration alone when [t] has finished or waits. *)
Definition step {R : Type} (t : tid) (c : state * list (prog R))
  : state * list (prog R) :=
  match c.2 !! t with
  | Some (Vis o k) =>
      match do_op t o c.1 with
      | Some (a, σ') => (σ', <[t := k a]> c.2)
      | None => c
      end
  | _ => c
  end.

(** An interleaving is the list of the threads scheduled, in order. *)
Definition run {R : Type} (sched : list tid) (c : state * list (prog R))
  : state * list (prog R) :=
  fold_left (fun c t => step t c) sched c.

(** ** Histories *)

(** [emit t es σ]: thread [t] has performed the operations [es], oldest
    first, as far as the log is concerned. *)
Definition emit (t : tid) (es : list event) (σ : state) : state :=
  fold_left (fun σ e => record t e σ) es σ.

(** The history in chronological order. *)
Definition history (σ : state) : list (tid * event) := rev (log σ).

(** How many entries of a log satisfy [p]. *)
Fixpoint count_events (p : event -> bool) (l : list (tid * event)) : nat :=
  match l with
  | [] => 0
  | e :: l' => (if p e.2 then 1 else 0) + count_events p l'
  end%nat.

Definition is_notify (e : event) : bool :=
  match e with EvNotifyAll => true | _ => false end.

Definition is_load_region (e : event) : bool :=
  match e with EvMaybeLoadNewRegion _ => true | _ => false end.

Definition is_check_region (e : event) : bool :=
  match e with EvHasNewRegion _ => true | _ => false end.

Definition is_store (s : site) (e : event) : bool :=
  match e, s with
  | EvStore pre_increment _, pre_increment => true
  | EvStore pre_decrement _, pre_decrement => true
  | _, _ => false
  end.

(** An operation of the gate, as opposed to the call of the plugin. *)
Definition is_gate (e : event) : bool :=
  match e with EvHandleRequest _ _ => false | _ => true end.

(** What an enabled [BOOST_ASSERT] leaves in the history: the evaluation
    of its expression, then the check. *)
Definition assert_events (evaluation : list event) (b : bool) : list event :=
  if NDEBUG then [] else evaluation ++ [EvAssert b].

(** The operations of one [IncreaseQueryCount] that finds [n] queries. *)
Definition admit_events (n : Z) : list event :=
  [ EvLock pending_update_mutex; EvLock query_mutex;
    EvUnlock pending_update_mutex;
    EvLoad n; EvStore pre_increment (wrap int_bits (n + 1));
    EvUnlock query_mutex ].

(** The operations of one [DecreaseQueryCount] that finds [n] queries and
    whose assertion holds or is compiled out. *)
Definition release_events (n : Z) : list event :=
  let n' := wrap int_bits (n - 1) in
  [ EvLock query_mutex; EvLoad n; EvStore pre_decrement n' ]
  ++ assert_events [EvLoad n'] (0 <=? n')
  ++ [ EvLoad n' ]
  ++ (if 0 =? n' then [EvNotifyAll] else [])
  ++ [ EvUnlock query_mutex ].

(** ** One thread on its own *)

Lemma exec_bind {A B : Type} (t : tid) (p : prog A) (f : A -> prog B) (σ : state) :
  exec t (bind p f) σ =
  match exec t p σ with
  | (σ', Some a) => exec t (f a) σ'
  | (σ', None) => (σ', None)
  end.
Proof.
  revert σ. induction p as [a | o k IH]; intros σ; simpl.
  - reflexivity.
  - destruct (do_op t o σ) as [[a σ'] |]; [apply IH | reflexivity].
Qed.

Lemma log_emit (t : tid) (es : list event) (σ : state) :
  log (emit t es σ) = rev (map (pair t) es) ++ log σ.
Proof.
  unfold emit. revert σ. induction es as [| e es IH]; intros σ; simpl.
  - reflexivity.
  - rewrite IH. simpl. rewrite <- app_assoc. reflexivity.
Qed.

Lemma history_emit (t : tid) (es : list event) (σ : state) :
  history (emit t es σ) = history σ ++ map (pair t) es.
Proof.
  unfold history. rewrite log_emit, rev_app_distr, rev_involutive. reflexivity.
Qed.

Lemma emit_app (t : tid) (es es' : list event) (σ : state) :
  emit t (es ++ es') σ = emit t es' (emit t es σ).
Proof. unfold emit. apply fold_left_app. Qed.

(** *** The primitives, one step at a time *)

Section Steps.

Context {R : Type}.
Variables (t : tid) (σ : state).
Hypothesis Hrunning : aborted σ = false.

Lemma exec_Lock (m : mutex) (k : unit -> prog R) :
  owner σ m = None ->
  exec t (Vis (Lock m) k) σ =
  exec t (k tt) (record t (EvLock m) (set_owner m (Some t) σ)).
Proof. intros Hm. simpl. unfold do_op. rewrite Hrunning, Hm. reflexivity. Qed.

Lemma exec_Lock_held (m : mutex) (k : unit -> prog R) (u : tid) :
  owner σ m = Some u ->
  exec t (Vis (Lock m) k) σ = (σ, None).
Proof. intros Hm. simpl. unfold do_op. rewrite Hrunning, Hm. reflexivity. Qed.

Lemma exec_Unlock (m : mutex) (k : unit -> prog R) :
  owner σ m = Some t ->
  exec t (Vis (Unlock m) k) σ =
  exec t (k tt) (record t (EvUnlock m) (set_owner m None σ)).
Proof.
  intros Hm. simpl. unfold do_op. rewrite Hrunning, Hm, Nat.eqb_refl. reflexivity.
Qed.

Lemma exec_Load (k : Z -> prog R) :
  exec t (Vis Load k) σ =
  exec t (k (number_of_queries σ)) (record t (EvLoad (number_of_queries σ)) σ).
Proof. simpl. unfold do_op. rewrite Hrunning. reflexivity. Qed.

Lemma exec_Store (s : site) (n : Z) (k : unit -> prog R) :
  exec t (Vis (Store s n) k) σ =
  exec t (k tt) (record t (EvStore s n) (set_number_of_queries n σ)).
Proof. simpl. unfold do_op. rewrite Hrunning. reflexivity. Qed.

Lemma exec_UseCount (k : nat -> prog R) :
  exec t (Vis UseCount k) σ =
  exec t (k (facade_use_count σ)) (record t (EvUseCount (facade_use_count σ)) σ).
Proof. simpl. unfold do_op. rewrite Hrunning. reflexivity. Qed.

Lemma exec_Assert (b : bool) (k : unit -> prog R) :
  exec t (Vis (Assert b) k) σ =
  exec t (k tt) (record t (EvAssert b) (if b then σ else set_aborted σ)).
Proof. simpl. unfold do_op. rewrite Hrunning. reflexivity. Qed.

Lemma exec_NotifyAll (k : unit -> prog R) :
  exec t (Vis NotifyAll k) σ = exec t (k tt) (record t EvNotifyAll σ).
Proof. simpl. unfold do_op. rewrite Hrunning. reflexivity. Qed.

Lemma exec_HasNewRegion (w : DataWatchdog) (k : bool -> prog R) :
  watchdog σ = Some w ->
  exec t (Vis CallHasNewRegion k) σ =
  exec t (k (HasNewRegion w)) (record t (EvHasNewRegion (HasNewRegion w)) σ).
Proof. intros Hw. simpl. unfold do_op. rewrite Hrunning, Hw. reflexivity. Qed.

Lemma exec_MaybeLoadNewRegion_some (w w' : DataWatchdog) (k : option handle -> prog R) :
  watchdog σ = Some w ->
  MaybeLoadNewRegion w = (true, w') ->
  exec t (Vis CallMaybeLoadNewRegion k) σ =
  exec t (k (Some (next_handle σ)))
    (record t (EvMaybeLoadNewRegion (Some (next_handle σ))) (allocate_facade w' σ)).
Proof. intros Hw Hl. simpl. unfold do_op. rewrite Hrunning, Hw, Hl. reflexivity. Qed.

Lemma exec_MaybeLoadNewRegion_none (w w' : DataWatchdog) (k : option handle -> prog R) :
  watchdog σ = Some w ->
  MaybeLoadNewRegion w = (false, w') ->
  exec t (Vis CallMaybeLoadNewRegion k) σ =
  exec t (k None) (record t (EvMaybeLoadNewRegion None) (set_watchdog w' σ)).
Proof. intros Hw Hl. simpl. unfold do_op. rewrite Hrunning, Hw, Hl. reflexivity. Qed.

Lemma exec_MoveFacade (new : handle) (k : unit -> prog R) :
  exec t (Vis (MoveFacade new) k) σ =
  exec t (k tt) (record t (EvMoveFacade (query_data_facade σ) new) (move_facade new σ)).
Proof. simpl. unfold do_op. rewrite Hrunning. reflexivity. Qed.

Lemma exec_HandleRequest (plugin : Plugin) (parameters : ParameterT plugin)
    (result : ResultT plugin) (k : Status * ResultT plugin -> prog R) :
  exec t (Vis (CallHandleRequest plugin parameters result) k) σ =
  exec t (k (HandleRequest plugin (query_data_facade σ) parameters result))
    (record t (EvHandleRequest (query_data_facade σ)
                 (HandleRequest plugin (query_data_facade σ) parameters result).1) σ).
Proof. simpl. unfold do_op. rewrite Hrunning. reflexivity. Qed.

End Steps.

Lemma exec_Ret {R : Type} (t : tid) (r : R) (σ : state) :
  exec t (Ret r) σ = (σ, Some r).
Proof. reflexivity. Qed.

(** Nothing runs once an assertion has failed. *)
Lemma exec_aborted {R : Type} (t : tid) (o : op) (k : answer o -> prog R) (σ : state) :
  aborted σ = true -> exec t (Vis o k) σ = (σ, None).
Proof. intros Hab. simpl. unfold do_op. rewrite Hab. reflexivity. Qed.

(** Two states with the same fields are the same state. *)
Lemma state_eq (σ1 σ2 : state) :
  st_pending_update_mutex σ1 = st_pending_update_mutex σ2 ->
  st_query_mutex σ1 = st_query_mutex σ2 ->
  number_of_queries σ1 = number_of_queries σ2 ->
  st_facade_update_mutex σ1 = st_facade_update_mutex σ2 ->
  watchdog σ1 = watchdog σ2 ->
  query_data_facade σ1 = query_data_facade σ2 ->
  use_count σ1 = use_count σ2 ->
  next_handle σ1 = next_handle σ2 ->
  aborted σ1 = aborted σ2 ->
  log σ1 = log σ2 ->
  σ1 = σ2.
Proof. destruct σ1, σ2; simpl; intros; subst; reflexivity. Qed.

(** Reading a field through the updates of the primitives. *)
Ltac fields :=
  unfold facade_use_count in *;
  cbn [owner st_pending_update_mutex st_query_mutex number_of_queries
       st_facade_update_mutex watchdog query_data_facade use_count next_handle
       aborted log facade_use_count
       record set_owner set_number_of_queries set_aborted set_watchdog
       allocate_facade move_facade set_facade emit fold_left app] in *.

Ltac side := solve [ fields; first [ eassumption | reflexivity | congruence ] ].

(** One primitive of the program under [exec]. *)
Ltac exec_step :=
  first
    [ rewrite exec_Lock by side
    | rewrite exec_Unlock by side
    | rewrite exec_Load by side
    | rewrite exec_Store by side
    | rewrite exec_UseCount by side
    | rewrite exec_Assert by side
    | rewrite exec_NotifyAll by side
    | erewrite exec_HasNewRegion by side
    | erewrite exec_MaybeLoadNewRegion_some by (first [ side | eassumption ])
    | erewrite exec_MaybeLoadNewRegion_none by (first [ side | eassumption ])
    | rewrite exec_MoveFacade by side
    | rewrite exec_HandleRequest by side ];
  cbv beta; fields.

Ltac expose :=
  cbv delta [call lock unlock load store notify_all]; cbv beta; cbn [bind].

Ltac exec_prog := repeat (expose; exec_step); expose; rewrite ?exec_Ret.

Ltac same_state := apply state_eq; fields; first [ reflexivity | congruence ].

(** [IncreaseQueryCount] on free mutexes runs to its end. *)
Lemma exec_IncreaseQueryCount (t : tid) (σ : state) :
  owner σ pending_update_mutex = None ->
  owner σ query_mutex = None ->
  aborted σ = false ->
  exec t IncreaseQueryCount σ =
  (set_number_of_queries (wrap int_bits (number_of_queries σ + 1))
     (emit t (admit_events (number_of_queries σ)) σ), Some tt).
Proof.
  intros Hp Hq Hab. unfold IncreaseQueryCount. exec_prog.
  unfold admit_events. f_equal; try same_state.
Qed.

(** [DecreaseQueryCount] on a free [query_mutex], when its assertion holds
    or is compiled out. *)
Lemma exec_DecreaseQueryCount (t : tid) (σ : state) :
  owner σ query_mutex = None ->
  aborted σ = false ->
  NDEBUG = true \/ 0 <= wrap int_bits (number_of_queries σ - 1) ->
  exec t DecreaseQueryCount σ =
  (set_number_of_queries (wrap int_bits (number_of_queries σ - 1))
     (emit t (release_events (number_of_queries σ)) σ), Some tt).
Proof.
  intros Hq Hab Hassert.
  unfold DecreaseQueryCount, BOOST_ASSERT, release_events, assert_events.
  destruct NDEBUG.
  - exec_prog. destruct (0 =? wrap int_bits (number_of_queries σ - 1));
      exec_prog; f_equal; try same_state.
  - destruct Hassert as [Hn | Hle]; [discriminate |].
    apply Z.leb_le in Hle. exec_prog. rewrite Hle in *. exec_prog.
    destruct (0 =? wrap int_bits (number_of_queries σ - 1));
      exec_prog; f_equal; try same_state.
Qed.

(** [DecreaseQueryCount] when its assertion is enabled and fails: the
    process is aborted right after the decrement, the mutex still held. *)
Lemma exec_DecreaseQueryCount_abort (t : tid) (σ : state) :
  owner σ query_mutex = None ->
  aborted σ = false ->
  NDEBUG = false ->
  wrap int_bits (number_of_queries σ - 1) < 0 ->
  exec t DecreaseQueryCount σ =
  (set_aborted
     (set_owner query_mutex (Some t)
        (set_number_of_queries (wrap int_bits (number_of_queries σ - 1))
           (emit t [ EvLock query_mutex; EvLoad (number_of_queries σ);
                     EvStore pre_decrement (wrap int_bits (number_of_queries σ - 1));
                     EvLoad (wrap int_bits (number_of_queries σ - 1));
                     EvAssert false ] σ))), None).
Proof.
  intros Hq Hab Hdebug Hneg.
  unfold DecreaseQueryCount, BOOST_ASSERT. rewrite Hdebug.
  apply Z.leb_gt in Hneg. exec_prog. rewrite Hneg in *. fields.
  rewrite exec_aborted by reflexivity. f_equal; try same_state.
Qed.

(** *** The block under [facade_update_mutex] *)

(** The current facade is an object that has been allocated. *)
Definition facade_allocated (σ : state) : Prop :=
  match query_data_facade σ with
  | Some h => (h < next_handle σ)%nat
  | None => True
  end.

Lemma facade_use_count_allocate (w' : DataWatchdog) (σ : state) :
  facade_allocated σ ->
  facade_use_count (allocate_facade w' σ) = facade_use_count σ.
Proof.
  unfold facade_allocated, facade_use_count, allocate_facade, set_count; simpl.
  destruct (query_data_facade σ) as [h |]; [| reflexivity].
  intros Hlt. destruct (Nat.eqb_spec h (next_handle σ)); [lia | reflexivity].
Qed.

Lemma release_share_old (old new : handle) (f : handle -> nat) :
  old <> new ->
  release_share (Some old) (set_count new 1%nat f) old = Nat.pred (f old).
Proof.
  intros Hne. unfold release_share, set_count. rewrite Nat.eqb_refl.
  apply Nat.eqb_neq in Hne. rewrite Hne. reflexivity.
Qed.

Lemma release_share_new (old new : handle) (f : handle -> nat) :
  old <> new ->
  release_share (Some old) (set_count new 1%nat f) new = 1%nat.
Proof.
  intros Hne. unfold release_share, set_count. rewrite Nat.eqb_refl.
  assert (Hne' : Nat.eqb new old = false) by (apply Nat.eqb_neq; congruence).
  rewrite Hne'. reflexivity.
Qed.

(** The operations of the block when it exchanges the facade for the new
    object [new], the outgoing pointer having [c] owners. *)
Definition swap_events (old : option handle) (new : handle) (c : nat) : list event :=
  [ EvLock facade_update_mutex; EvHasNewRegion true;
    EvMaybeLoadNewRegion (Some new) ]
  ++ assert_events [EvUseCount c] (Nat.eqb c 1)
  ++ [ EvMoveFacade old new; EvUnlock facade_update_mutex ].

Section UpdateFacade.

Variables (t : tid) (σ : state) (w : DataWatchdog).
Hypothesis Hfree : owner σ facade_update_mutex = None.
Hypothesis Hrunning : aborted σ = false.
Hypothesis Hwatchdog : watchdog σ = Some w.

(** The check says there is nothing new. *)
Lemma exec_update_facade_no_new :
  HasNewRegion w = false ->
  exec t update_facade σ =
  (emit t [ EvLock facade_update_mutex; EvHasNewRegion false;
            EvUnlock facade_update_mutex ] σ, Some tt).
Proof.
  intros Hnew. unfold update_facade. exec_prog. rewrite Hnew in *.
  exec_prog. f_equal; try same_state.
Qed.

(** The check says yes, but the load comes back empty. *)
Lemma exec_update_facade_not_loaded (w' : DataWatchdog) :
  HasNewRegion w = true ->
  MaybeLoadNewRegion w = (false, w') ->
  exec t update_facade σ =
  (set_watchdog w'
     (emit t [ EvLock facade_update_mutex; EvHasNewRegion true;
               EvMaybeLoadNewRegion None;
               EvUnlock facade_update_mutex ] σ), Some tt).
Proof.
  intros Hnew Hload. unfold update_facade. exec_prog. rewrite Hnew in *.
  exec_prog. f_equal; try same_state.
Qed.

(** A new facade has been loaded, and the assertion on the owners of the
    outgoing one holds or is compiled out: the facade is exchanged. *)
Lemma exec_update_facade_swap (w' : DataWatchdog) :
  HasNewRegion w = true ->
  MaybeLoadNewRegion w = (true, w') ->
  NDEBUG = true \/ facade_use_count (allocate_facade w' σ) = 1%nat ->
  exec t update_facade σ =
  (move_facade (next_handle σ)
     (allocate_facade w'
        (emit t (swap_events (query_data_facade σ) (next_handle σ)
                   (facade_use_count (allocate_facade w' σ))) σ)), Some tt).
Proof.
  intros Hnew Hload Hassert.
  unfold update_facade, BOOST_ASSERT, swap_events, assert_events.
  exec_prog. rewrite Hnew in *. exec_prog.
  destruct NDEBUG.
  - exec_prog. f_equal; try same_state.
  - destruct Hassert as [Hn | Hone]; [discriminate |].
    exec_prog. rewrite Hone. cbn [Nat.eqb]. exec_prog. f_equal; try same_state.
Qed.

(** A new facade has been loaded, and the enabled assertion fails: the
    process is aborted before the exchange. *)
Lemma exec_update_facade_abort (w' : DataWatchdog) :
  HasNewRegion w = true ->
  MaybeLoadNewRegion w = (true, w') ->
  NDEBUG = false ->
  facade_use_count (allocate_facade w' σ) <> 1%nat ->
  exec t update_facade σ =
  (set_aborted
     (set_owner facade_update_mutex (Some t)
        (allocate_facade w'
           (emit t [ EvLock facade_update_mutex; EvHasNewRegion true;
                     EvMaybeLoadNewRegion (Some (next_handle σ));
                     EvUseCount (facade_use_count (allocate_facade w' σ));
                     EvAssert false ] σ))), None).
Proof.
  intros Hnew Hload Hdebug Hmany.
  unfold update_facade, BOOST_ASSERT. rewrite Hdebug.
  exec_prog. rewrite Hnew in *. exec_prog.
  apply Nat.eqb_neq in Hmany. fields.
  rewrite Hmany in *. fields.
  rewrite exec_aborted by reflexivity. f_equal; try same_state.
Qed.

End UpdateFacade.

Lemma count_events_app (p : event -> bool) (l l' : list (tid * event)) :
  count_events p (l ++ l') = (count_events p l + count_events p l')%nat.
Proof. induction l as [| e l IH]; simpl; [reflexivity | rewrite IH; lia]. Qed.

Lemma count_events_rev (p : event -> bool) (l : list (tid * event)) :
  count_events p (rev l) = count_events p l.
Proof.
  induction l as [| e l IH]; simpl; [reflexivity |].
  rewrite count_events_app, IH. simpl. lia.
Qed.

Lemma count_events_emit (p : event -> bool) (t : tid) (es : list event) (σ : state) :
  count_events p (log (emit t es σ)) =
  (count_events p (map (pair t) es) + count_events p (log σ))%nat.
Proof. rewrite log_emit, count_events_app, count_events_rev. reflexivity. Qed.

Lemma log_set_number_of_queries (n : Z) (σ : state) :
  log (set_number_of_queries n σ) = log σ.
Proof. reflexivity. Qed.

(** *** RunQuery without a lock *)

(** The plugin is called on the current facade, and nothing else happens. *)
Definition direct_call (t : tid) (plugin : Plugin) (parameters : ParameterT plugin)
    (result : ResultT plugin) (σ : state) : state * option (Status * ResultT plugin) :=
  let r := HandleRequest plugin (query_data_facade σ) parameters result in
  (emit t [EvHandleRequest (query_data_facade σ) r.1] σ, Some r).

Lemma exec_RunQuery_standalone (t : tid) (plugin : Plugin)
    (parameters : ParameterT plugin) (result : ResultT plugin) (σ : state) :
  aborted σ = false ->
  exec t (RunQuery None plugin parameters result) σ =
  direct_call t plugin parameters result σ.
Proof.
  intros Hab. unfold RunQuery, direct_call. exec_prog. reflexivity.
Qed.

(** *** Fields through [emit] *)

Lemma emit_fields (t : tid) (es : list event) (σ : state) :
  (forall m, owner (emit t es σ) m = owner σ m) /\
  number_of_queries (emit t es σ) = number_of_queries σ /\
  watchdog (emit t es σ) = watchdog σ /\
  query_data_facade (emit t es σ) = query_data_facade σ /\
  use_count (emit t es σ) = use_count σ /\
  next_handle (emit t es σ) = next_handle σ /\
  aborted (emit t es σ) = aborted σ.
Proof.
  unfold emit. revert σ. induction es as [| e es IH]; intros σ; simpl.
  - repeat split.
  - destruct (IH (record t e σ)) as (Ho & Hn & Hw & Hf & Hu & Hh & Ha).
    repeat split; assumption.
Qed.

Lemma owner_emit (t : tid) (es : list event) (σ : state) (m : mutex) :
  owner (emit t es σ) m = owner σ m.
Proof. apply emit_fields. Qed.

Lemma st_pending_update_mutex_emit (t : tid) (es : list event) (σ : state) :
  st_pending_update_mutex (emit t es σ) = st_pending_update_mutex σ.
Proof. exact (owner_emit t es σ pending_update_mutex). Qed.

Lemma st_query_mutex_emit (t : tid) (es : list event) (σ : state) :
  st_query_mutex (emit t es σ) = st_query_mutex σ.
Proof. exact (owner_emit t es σ query_mutex). Qed.

Lemma st_facade_update_mutex_emit (t : tid) (es : list event) (σ : state) :
  st_facade_update_mutex (emit t es σ) = st_facade_update_mutex σ.
Proof. exact (owner_emit t es σ facade_update_mutex). Qed.

Lemma number_of_queries_emit (t : tid) (es : list event) (σ : state) :
  number_of_queries (emit t es σ) = number_of_queries σ.
Proof. apply emit_fields. Qed.

Lemma watchdog_emit (t : tid) (es : list event) (σ : state) :
  watchdog (emit t es σ) = watchdog σ.
Proof. apply emit_fields. Qed.

Lemma query_data_facade_emit (t : tid) (es : list event) (σ : state) :
  query_data_facade (emit t es σ) = query_data_facade σ.
Proof. apply emit_fields. Qed.

Lemma use_count_emit (t : tid) (es : list event) (σ : state) :
  use_count (emit t es σ) = use_count σ.
Proof. apply emit_fields. Qed.

Lemma next_handle_emit (t : tid) (es : list event) (σ : state) :
  next_handle (emit t es σ) = next_handle σ.
Proof. apply emit_fields. Qed.

Lemma aborted_emit (t : tid) (es : list event) (σ : state) :
  aborted (emit t es σ) = aborted σ.
Proof. apply emit_fields. Qed.

Lemma facade_use_count_emit (t : tid) (es : list event) (σ : state) :
  facade_use_count (emit t es σ) = facade_use_count σ.
Proof.
  unfold facade_use_count. rewrite query_data_facade_emit, use_count_emit. reflexivity.
Qed.

Lemma history_record (t : tid) (e : event) (σ : state) :
  history (record t e σ) = history σ ++ [(t, e)].
Proof. reflexivity. Qed.

Lemma history_set_number_of_queries (n : Z) (σ : state) :
  history (set_number_of_queries n σ) = history σ.
Proof. reflexivity. Qed.

Lemma history_set_watchdog (w : DataWatchdog) (σ : state) :
  history (set_watchdog w σ) = history σ.
Proof. reflexivity. Qed.

Lemma history_allocate_facade (w : DataWatchdog) (σ : state) :
  history (allocate_facade w σ) = history σ.
Proof. reflexivity. Qed.

Lemma history_move_facade (h : handle) (σ : state) :
  history (move_facade h σ) = history σ.
Proof. reflexivity. Qed.

Lemma history_set_aborted (σ : state) : history (set_aborted σ) = history σ.
Proof. reflexivity. Qed.

Lemma history_set_owner (m : mutex) (o : option tid) (σ : state) :
  history (set_owner m o σ) = history σ.
Proof. reflexivity. Qed.

Lemma owner_record (t : tid) (e : event) (σ : state) (m : mutex) :
  owner (record t e σ) m = owner σ m.
Proof. reflexivity. Qed.

Lemma owner_set_number_of_queries (n : Z) (σ : state) (m : mutex) :
  owner (set_number_of_queries n σ) m = owner σ m.
Proof. reflexivity. Qed.

Lemma owner_set_watchdog (w : DataWatchdog) (σ : state) (m : mutex) :
  owner (set_watchdog w σ) m = owner σ m.
Proof. reflexivity. Qed.

Lemma owner_allocate_facade (w : DataWatchdog) (σ : state) (m : mutex) :
  owner (allocate_facade w σ) m = owner σ m.
Proof. reflexivity. Qed.

Lemma owner_move_facade (h : handle) (σ : state) (m : mutex) :
  owner (move_facade h σ) m = owner σ m.
Proof. reflexivity. Qed.

Lemma owner_set_aborted (σ : state) (m : mutex) :
  owner (set_aborted σ) m = owner σ m.
Proof. reflexivity. Qed.

Lemma count_events_history (p : event -> bool) (σ : state) :
  count_events p (history σ) = count_events p (log σ).
Proof. apply count_events_rev. Qed.

(** Projections of a state built from [σ] by the updates above. *)
Ltac through :=
  repeat first
    [ progress cbn [owner st_pending_update_mutex st_query_mutex number_of_queries
                    st_facade_update_mutex watchdog query_data_facade use_count
                    next_handle aborted record
                    set_owner set_number_of_queries set_aborted set_watchdog
                    allocate_facade move_facade set_facade]
    | rewrite owner_emit
    | rewrite st_pending_update_mutex_emit
    | rewrite st_query_mutex_emit
    | rewrite st_facade_update_mutex_emit
    | rewrite owner_record
    | rewrite owner_set_number_of_queries
    | rewrite owner_set_watchdog
    | rewrite owner_allocate_facade
    | rewrite owner_move_facade
    | rewrite owner_set_aborted
    | rewrite number_of_queries_emit
    | rewrite watchdog_emit
    | rewrite query_data_facade_emit
    | rewrite use_count_emit
    | rewrite next_handle_emit
    | rewrite aborted_emit
    | rewrite facade_use_count_emit
    | rewrite history_record
    | rewrite history_set_number_of_queries
    | rewrite history_set_watchdog
    | rewrite history_allocate_facade
    | rewrite history_move_facade
    | rewrite history_set_aborted
    | rewrite history_set_owner
    | rewrite history_emit ].

(** *** The block under [facade_update_mutex], in one statement *)

(** Whether the block exchanges the facade. *)
Definition swaps (w : DataWatchdog) : bool :=
  HasNewRegion w && (MaybeLoadNewRegion w).1.

(** The facade that is current once the block is over. *)
Definition facade_after (σ : state) (w : DataWatchdog) : option handle :=
  if swaps w then Some (next_handle σ) else query_data_facade σ.

(** What the block does between taking and releasing the mutex. *)
Definition check_events (σ : state) (w : DataWatchdog) : list event :=
  if HasNewRegion w then
    if (MaybeLoadNewRegion w).1 then
      [ EvHasNewRegion true; EvMaybeLoadNewRegion (Some (next_handle σ)) ]
      ++ assert_events [EvUseCount (facade_use_count σ)]
           (Nat.eqb (facade_use_count σ) 1)
      ++ [ EvMoveFacade (query_data_facade σ) (next_handle σ) ]
    else [ EvHasNewRegion true; EvMaybeLoadNewRegion None ]
  else [ EvHasNewRegion false ].

(** The watchdog once the block is over. *)
Definition watchdog_after (w : DataWatchdog) : DataWatchdog :=
  if HasNewRegion w then (MaybeLoadNewRegion w).2 else w.

(** The owners of the facade objects once the block is over. *)
Definition use_count_after (σ : state) (w : DataWatchdog) : handle -> nat :=
  if swaps w
  then release_share (query_data_facade σ)
         (set_count (next_handle σ) 1%nat (use_count σ))
  else use_count σ.

(** The assertion of the block holds, is compiled out, or is not reached. *)
Definition swap_assertion (σ : state) (w : DataWatchdog) : Prop :=
  swaps w = true -> NDEBUG = true \/ facade_use_count σ = 1%nat.

Lemma exec_update_facade (t : tid) (σ : state) (w : DataWatchdog) :
  owner σ facade_update_mutex = None ->
  aborted σ = false ->
  watchdog σ = Some w ->
  facade_allocated σ ->
  swap_assertion σ w ->
  exists σ',
    exec t update_facade σ = (σ', Some tt) /\
    history σ' = history σ ++
      map (pair t) ([EvLock facade_update_mutex] ++ check_events σ w
                    ++ [EvUnlock facade_update_mutex]) /\
    (forall m, owner σ' m = owner σ m) /\
    number_of_queries σ' = number_of_queries σ /\
    aborted σ' = false /\
    watchdog σ' = Some (watchdog_after w) /\
    query_data_facade σ' = facade_after σ w /\
    use_count σ' = use_count_after σ w /\
    next_handle σ' = (if swaps w then S (next_handle σ) else next_handle σ).
Proof.
  intros Hfree Hab Hw Halloc Hassert.
  unfold swap_assertion, facade_after, check_events, watchdog_after,
    use_count_after, swaps in *.
  destruct (HasNewRegion w) eqn:Hnew; cbn [andb] in *.
  - destruct (MaybeLoadNewRegion w) as [[|] w'] eqn:Hload; cbn [fst snd] in *.
    + eexists. split.
      * apply (exec_update_facade_swap t σ Hfree Hab Hw Hnew Hload).
        rewrite facade_use_count_allocate by assumption. auto.
      * rewrite facade_use_count_allocate by assumption.
        unfold swap_events.
        repeat split; intros; through; try reflexivity; try assumption.
        cbn [app]. rewrite <- !app_assoc. reflexivity.
    + eexists. split.
      * apply (exec_update_facade_not_loaded t σ Hfree Hab Hw Hnew Hload).
      * repeat split; intros; through; try reflexivity; assumption.
  - eexists. split.
    + apply (exec_update_facade_no_new t σ Hfree Hab Hw Hnew).
    + repeat split; intros; through; try reflexivity; assumption.
Qed.

(** *** RunQuery with a lock *)

Lemma exec_BOOST_ASSERT_true {R : Type} (t : tid) (k : unit -> prog R) (σ : state) :
  aborted σ = false ->
  exec t (bind (BOOST_ASSERT (Ret true)) k) σ =
  exec t (k tt) (emit t (assert_events [] true) σ).
Proof.
  intros Hab. unfold BOOST_ASSERT, assert_events.
  destruct NDEBUG; exec_prog; reflexivity.
Qed.

(** The operations of one [RunQuery] in shared mode that finds [n] queries
    in flight and the watchdog in state [w]: admission, the block under the
    facade mutex, the plugin on the facade [current], release. *)
Definition shared_events (σ : state) (w : DataWatchdog) (status : Status) : list event :=
  assert_events [] true
  ++ admit_events (number_of_queries σ)
  ++ [EvLock facade_update_mutex]
  ++ check_events σ w
  ++ [EvUnlock facade_update_mutex]
  ++ [EvHandleRequest (facade_after σ w) status]
  ++ release_events (wrap int_bits (number_of_queries σ + 1)).

(** A state in which a request can run to its end on its own: nobody holds
    a mutex, the process is alive, the watchdog exists and is in state [w],
    and the assertions met on the way hold or are compiled out. *)
Record runnable (σ : state) (w : DataWatchdog) : Prop := {
  run_free : forall m, owner σ m = None;
  run_alive : aborted σ = false;
  run_watchdog : watchdog σ = Some w;
  run_allocated : facade_allocated σ;
  run_swap_assertion : swap_assertion σ w;
  run_count_assertion :
    NDEBUG = true \/
    0 <= wrap int_bits (wrap int_bits (number_of_queries σ + 1) - 1)
}.

Lemma exec_RunQuery_shared (t : tid) (l : EngineLock) (plugin : Plugin)
    (parameters : ParameterT plugin) (result : ResultT plugin)
    (σ : state) (w : DataWatchdog) :
  runnable σ w ->
  let r := HandleRequest plugin (facade_after σ w) parameters result in
  exists σ',
    exec t (RunQuery (Some l) plugin parameters result) σ = (σ', Some r) /\
    history σ' = history σ ++ map (pair t) (shared_events σ w r.1) /\
    query_data_facade σ' = facade_after σ w /\
    number_of_queries σ' =
      wrap int_bits (wrap int_bits (number_of_queries σ + 1) - 1) /\
    (forall m, owner σ' m = owner σ m) /\
    aborted σ' = false /\
    watchdog σ' = Some (watchdog_after w) /\
    use_count σ' = use_count_after σ w.
Proof.
  intros [Hfree Hab Hw Halloc Hswap Hcount] r.
  pose proof (Hfree pending_update_mutex) as Hp.
  pose proof (Hfree query_mutex) as Hq.
  pose proof (Hfree facade_update_mutex) as Hf.
  cbn [owner] in Hp, Hq, Hf.
  unfold RunQuery.
  cbn [non_null].
  rewrite exec_BOOST_ASSERT_true by assumption.
  rewrite exec_bind, exec_IncreaseQueryCount by (through; auto).
  cbv beta iota. through.
  set (σ1 := set_number_of_queries _ _).
  assert (H1 : owner σ1 facade_update_mutex = None)
    by (subst σ1; through; assumption).
  assert (H2 : aborted σ1 = false) by (subst σ1; through; assumption).
  assert (H3 : watchdog σ1 = Some w) by (subst σ1; through; assumption).
  assert (H4 : facade_allocated σ1)
    by (subst σ1; unfold facade_allocated in *; through; assumption).
  assert (H5 : swap_assertion σ1 w)
    by (subst σ1; unfold swap_assertion, facade_use_count in *; through; assumption).
  destruct (exec_update_facade t H1 H2 H3 H4 H5)
    as (σ2 & Hexec & Hhist & Hown & Hnum & Hab2 & Hw2 & Hfac & Huc & Hnh).
  rewrite exec_bind, Hexec. cbv beta iota. expose.
  rewrite exec_HandleRequest by assumption.
  set (σ3 := record t _ σ2).
  assert (H6 : owner σ3 query_mutex = None)
    by (subst σ3; rewrite owner_record, Hown; subst σ1; through; assumption).
  assert (H7 : aborted σ3 = false) by (subst σ3; through; assumption).
  assert (H8 : NDEBUG = true \/ 0 <= wrap int_bits (number_of_queries σ3 - 1))
    by (subst σ3; through; rewrite Hnum; subst σ1; through; assumption).
  rewrite exec_bind, (exec_DecreaseQueryCount t σ3 H6 H7 H8).
  cbv beta iota. rewrite exec_Ret. subst σ3.
  assert (Hfac' : query_data_facade σ2 = facade_after σ w)
    by (rewrite Hfac; subst σ1; unfold facade_after; through; reflexivity).
  eexists. split; [rewrite Hfac'; reflexivity |].
  repeat split; intros; through; rewrite ?Hfac', ?Hnum, ?Hown, ?Hhist, ?Hw2, ?Huc;
    try assumption; subst σ1; through; try reflexivity.
  - unfold shared_events, check_events, facade_after, facade_use_count. through.
    rewrite !map_app, <- !app_assoc. reflexivity.
  - unfold use_count_after. through. reflexivity.
Qed.

(** *** Calling the block again and again *)

(** [n] runs of a program, one after the other. *)
Fixpoint repeated (n : nat) (p : prog unit) : prog unit :=
  match n with
  | O => Ret tt
  | S n' => p ;; repeated n' p
  end.

(** None of the next [n] runs of the block finds a newer generation: each
    time the check says no, or the load comes back empty. *)
Fixpoint quiet (n : nat) (w : DataWatchdog) : Prop :=
  match n with
  | O => True
  | S n' => swaps w = false /\ quiet n' (watchdog_after w)
  end.

Lemma exec_update_facade_quiet (t : tid) (σ : state) (w : DataWatchdog) :
  owner σ facade_update_mutex = None ->
  aborted σ = false ->
  watchdog σ = Some w ->
  swaps w = false ->
  exists σ',
    exec t update_facade σ = (σ', Some tt) /\
    (forall m, owner σ' m = owner σ m) /\
    aborted σ' = false /\
    watchdog σ' = Some (watchdog_after w) /\
    query_data_facade σ' = query_data_facade σ /\
    use_count σ' = use_count σ /\
    next_handle σ' = next_handle σ /\
    number_of_queries σ' = number_of_queries σ.
Proof.
  intros Hfree Hab Hw Hquiet. unfold swaps, watchdog_after in *.
  destruct (HasNewRegion w) eqn:Hnew; cbn [andb] in *.
  - destruct (MaybeLoadNewRegion w) as [[|] w'] eqn:Hload;
      cbn [fst snd] in *; [discriminate |].
    eexists. split.
    + apply (exec_update_facade_not_loaded t σ Hfree Hab Hw Hnew Hload).
    + repeat split; intros; through; try reflexivity; assumption.
  - eexists. split.
    + apply (exec_update_facade_no_new t σ Hfree Hab Hw Hnew).
    + repeat split; intros; through; try reflexivity; assumption.
Qed.

(** *** The rest of a request once it has been admitted *)

Definition serve (plugin : Plugin) (parameters : ParameterT plugin)
    (result : ResultT plugin) : prog (Status * ResultT plugin) :=
  update_facade ;;
  status <- call (CallHandleRequest plugin parameters result) ;;
  DecreaseQueryCount ;;
  Ret status.

Lemma RunQuery_shared_eq (l : EngineLock) (plugin : Plugin)
    (parameters : ParameterT plugin) (result : ResultT plugin) :
  RunQuery (Some l) plugin parameters result =
  (BOOST_ASSERT (Ret true) ;; IncreaseQueryCount ;; serve plugin parameters result).
Proof. reflexivity. Qed.


(** *** Several threads at the gate *)

(** Whether thread [t] holds [query_mutex]. *)
Definition holds (σ : state) (t : tid) : bool :=
  match owner σ query_mutex with
  | Some t' => Nat.eqb t' t
  | None => false
  end.

Definition delta (s : site) : Z :=
  match s with
  | pre_increment => 1
  | pre_decrement => -1
  end.

(** Admissions not yet released, as the log has them. *)
Definition admitted (l : list (tid * event)) : nat :=
  count_events (is_store pre_increment) l.

Definition released (l : list (tid * event)) : nat :=
  count_events (is_store pre_decrement) l.

Definition in_flight (l : list (tid * event)) : Z :=
  Z.of_nat (admitted l) - Z.of_nat (released l).

(** The locking discipline of one operation.  A thread that holds
    [query_mutex] ([h]) knows the counter ([c]); it takes the mutex only
    when it does not hold it, and reads or writes the counter only under
    the mutex, writing what it has read plus or minus one.  [next] is the
    discipline of what follows, given the answer, whether the mutex is held
    then, and the counter. *)
Definition op_rule (o : op) (h : bool) (c : Z)
  : (answer o -> bool -> Z -> Prop) -> Prop :=
  match o as o0 return (answer o0 -> bool -> Z -> Prop) -> Prop with
  | Lock m => fun next =>
      match m with
      | query_mutex => h = false /\ forall c', next tt true c'
      | _ => next tt h c
      end
  | Unlock m => fun next =>
      match m with
      | query_mutex => h = true /\ forall c', next tt false c'
      | _ => next tt h c
      end
  | Load => fun next => h = true /\ next c true c
  | Store s n => fun next =>
      h = true /\ n = wrap int_bits (c + delta s) /\ next tt true n
  | UseCount => fun next => forall a, next a h c
  | Assert _ => fun next => next tt h c
  | NotifyAll => fun next => next tt h c
  | CallHasNewRegion => fun next => forall a, next a h c
  | CallMaybeLoadNewRegion => fun next => forall a, next a h c
  | MoveFacade _ => fun next => next tt h c
  | CallHandleRequest _ _ _ => fun next => forall a, next a h c
  end.

Fixpoint disciplined {R : Type} (h : bool) (c : Z) (p : prog R) : Prop :=
  match p with
  | Ret _ => True
  | Vis o k => op_rule o h c (fun a h' c' => disciplined h' c' (k a))
  end.

(** The calls of the gate a client thread makes, one after the other. *)
Inductive gate_call : Type := Admit | Release.

Definition gate (c : gate_call) : prog unit :=
  match c with
  | Admit => IncreaseQueryCount
  | Release => DecreaseQueryCount
  end.

Fixpoint calls (cs : list gate_call) : prog unit :=
  match cs with
  | [] => Ret tt
  | c :: cs' => gate c ;; calls cs'
  end.

(** What holds of every configuration the threads can reach. *)
Definition gate_invariant {R : Type} (c : state * list (prog R)) : Prop :=
  (forall t p, c.2 !! t = Some p ->
     disciplined (holds c.1 t) (number_of_queries c.1) p) /\
  number_of_queries c.1 = wrap int_bits (in_flight (log c.1)).

(** Without the mutex a thread knows nothing about the counter. *)
Lemma disciplined_unheld {R : Type} (p : prog R) (c c' : Z) :
  disciplined false c p -> disciplined false c' p.
Proof.
  induction p as [r | o k IH]; [trivial |].
  cbn [disciplined]. destruct o as [m | m | | s n | | b | | | | new | pl ps r];
    cbn [op_rule]; try destruct m; intros H; try (intros a); eauto;
    try (destruct H as [Hh _]; discriminate).
Qed.

Lemma in_flight_cons (t : tid) (e : event) (l : list (tid * event)) :
  in_flight ((t, e) :: l) =
  in_flight l + match e with EvStore s _ => delta s | _ => 0 end.
Proof.
  unfold in_flight, admitted, released. cbn [count_events snd].
  destruct e as [| | | [] n | | | | | | |]; cbn [is_store delta]; lia.
Qed.

(** Thread [t] moves to [p'] and the state to [σ']; the other threads keep
    what they hold, and the counter if they hold the mutex. *)
Lemma gate_invariant_update {R : Type} (σ σ' : state) (pool : list (prog R))
    (t : tid) (p' : prog R) :
  gate_invariant (σ, pool) ->
  number_of_queries σ' = wrap int_bits (in_flight (log σ')) ->
  disciplined (holds σ' t) (number_of_queries σ') p' ->
  (forall t', t' <> t ->
     holds σ' t' = holds σ t' /\
     (holds σ t' = true -> number_of_queries σ' = number_of_queries σ)) ->
  gate_invariant (σ', <[t := p']> pool).
Proof.
  intros [Hd Hn] Hn' Hp' Hframe. split; [| exact Hn'].
  cbn [fst snd] in *. intros t' p Hl.
  destruct (Nat.eq_dec t t') as [<- | Hne].
  - apply list_lookup_insert_Some in Hl as [(_ & <- & _) | (Hne & _)];
      [exact Hp' | contradiction].
  - rewrite list_lookup_insert_ne in Hl by assumption.
    destruct (Hframe t' (not_eq_sym Hne)) as [Hh Hc]. rewrite Hh.
    specialize (Hd t' p Hl).
    destruct (holds σ t') eqn:Hheld.
    + rewrite Hc by reflexivity. exact Hd.
    + apply disciplined_unheld with (c := number_of_queries σ). exact Hd.
Qed.

Lemma holds_free (σ : state) (t : tid) :
  owner σ query_mutex = None -> holds σ t = false.
Proof. unfold holds. intros ->. reflexivity. Qed.

Lemma holds_other (σ : state) (t t' : tid) :
  owner σ query_mutex = Some t -> t' <> t -> holds σ t' = false.
Proof.
  unfold holds. intros -> Hne. apply Nat.eqb_neq. congruence.
Qed.

Lemma holds_owner (σ : state) (t : tid) :
  owner σ query_mutex = Some t -> holds σ t = true.
Proof. unfold holds. intros ->. apply Nat.eqb_refl. Qed.

Lemma holds_true (σ : state) (t : tid) :
  holds σ t = true -> owner σ query_mutex = Some t.
Proof.
  unfold holds. destruct (owner σ query_mutex) as [t' |]; [| discriminate].
  intros Heq. apply Nat.eqb_eq in Heq. congruence.
Qed.

(** Every step of every thread keeps the invariant. *)
Lemma step_gate_invariant {R : Type} (t : tid) (c : state * list (prog R)) :
  gate_invariant c -> gate_invariant (step t c).
Proof.
  destruct c as [σ pool]. intros Hinv. unfold step. cbn [fst snd].
  destruct (pool !! t) as [[r | o k] |] eqn:Hl; try exact Hinv.
  destruct (do_op t o σ) as [[a σ'] |] eqn:Hop; [| exact Hinv].
  pose proof (proj1 Hinv t _ Hl) as Ht. pose proof (proj2 Hinv) as Hn.
  cbn [fst snd disciplined] in Ht, Hn. clear Hl.
  unfold do_op in Hop. destruct (aborted σ) eqn:Hab; [discriminate |].
  destruct o as [m | m | | s n | | b | | | | new | pl ps r];
    cbn [op_rule answer] in *.
  - (* Lock *)
    destruct (owner σ m) eqn:Hm; [discriminate |].
    injection Hop as <- <-.
    apply gate_invariant_update with (σ := σ); try exact Hinv.
    + cbn [log record]. rewrite in_flight_cons. cbn [number_of_queries record set_owner].
      rewrite Z.add_0_r. exact Hn.
    + destruct m; cbn [owner] in Hm.
      * exact Ht.
      * destruct Ht as [_ Ht]. unfold holds. cbn. rewrite Nat.eqb_refl. apply Ht.
      * exact Ht.
    + intros t' Hne. split; [| reflexivity].
      destruct m; try reflexivity. cbn [owner] in Hm.
      unfold holds. cbn. rewrite Hm.
      apply Nat.eqb_neq. congruence.
  - (* Unlock *)
    destruct (owner σ m) as [t0 |] eqn:Hm; [| discriminate].
    destruct (Nat.eqb_spec t0 t) as [-> | Hne0]; [| discriminate].
    injection Hop as <- <-.
    apply gate_invariant_update with (σ := σ); try exact Hinv.
    + cbn [log record]. rewrite in_flight_cons. cbn [number_of_queries record set_owner].
      rewrite Z.add_0_r. exact Hn.
    + destruct m; cbn [owner] in Hm.
      * exact Ht.
      * destruct Ht as [_ Ht]. unfold holds. cbn. apply Ht.
      * exact Ht.
    + intros t' Hne. split; [| reflexivity].
      destruct m; try reflexivity. cbn [owner] in Hm.
      unfold holds. cbn. rewrite Hm.
      symmetry. apply Nat.eqb_neq. congruence.
  - (* Load *)
    injection Hop as <- <-. destruct Ht as [Hh Ht].
    apply gate_invariant_update with (σ := σ); try exact Hinv.
    + cbn [log record]. rewrite in_flight_cons. cbn [number_of_queries record].
      rewrite Z.add_0_r. exact Hn.
    + change (holds (record t (EvLoad (number_of_queries σ)) σ) t) with (holds σ t).
      rewrite Hh. exact Ht.
    + intros t' Hne. split; reflexivity.
  - (* Store *)
    injection Hop as <- <-. destruct Ht as (Hh & -> & Ht).
    apply gate_invariant_update with (σ := σ); try exact Hinv.
    + cbn [log record set_number_of_queries number_of_queries].
      rewrite in_flight_cons, Hn. apply wrap_wrap_add.
    + change (holds (record t (EvStore s (wrap int_bits (number_of_queries σ + delta s)))
                (set_number_of_queries (wrap int_bits (number_of_queries σ + delta s)) σ)) t)
        with (holds σ t).
      rewrite Hh. exact Ht.
    + intros t' Hne. split; [reflexivity |].
      intros Hheld. apply holds_true in Hheld. apply holds_true in Hh. congruence.
  - (* UseCount *)
    injection Hop as <- <-.
    apply gate_invariant_update with (σ := σ); try exact Hinv.
    + cbn [log record]. rewrite in_flight_cons. cbn [number_of_queries record].
      rewrite Z.add_0_r. exact Hn.
    + apply Ht.
    + intros t' Hne. split; reflexivity.
  - (* Assert *)
    injection Hop as <- <-.
    apply gate_invariant_update with (σ := σ); try exact Hinv.
    + cbn [log record]. rewrite in_flight_cons. rewrite Z.add_0_r.
      destruct b; exact Hn.
    + destruct b; exact Ht.
    + intros t' Hne. destruct b; split; reflexivity.
  - (* NotifyAll *)
    injection Hop as <- <-.
    apply gate_invariant_update with (σ := σ); try exact Hinv.
    + cbn [log record]. rewrite in_flight_cons. cbn [number_of_queries record].
      rewrite Z.add_0_r. exact Hn.
    + exact Ht.
    + intros t' Hne. split; reflexivity.
  - (* HasNewRegion *)
    destruct (watchdog σ) as [w |]; [| discriminate].
    injection Hop as <- <-.
    apply gate_invariant_update with (σ := σ); try exact Hinv.
    + cbn [log record]. rewrite in_flight_cons. cbn [number_of_queries record].
      rewrite Z.add_0_r. exact Hn.
    + apply Ht.
    + intros t' Hne. split; reflexivity.
  - (* MaybeLoadNewRegion *)
    destruct (watchdog σ) as [w |]; [| discriminate].
    destruct (MaybeLoadNewRegion w) as [[|] w']; injection Hop as <- <-.
    + apply gate_invariant_update with (σ := σ); try exact Hinv.
      * cbn [log record]. rewrite in_flight_cons. rewrite Z.add_0_r. exact Hn.
      * apply Ht.
      * intros t' Hne. split; reflexivity.
    + apply gate_invariant_update with (σ := σ); try exact Hinv.
      * cbn [log record]. rewrite in_flight_cons. rewrite Z.add_0_r. exact Hn.
      * apply Ht.
      * intros t' Hne. split; reflexivity.
  - (* MoveFacade *)
    injection Hop as <- <-.
    apply gate_invariant_update with (σ := σ); try exact Hinv.
    + cbn [log record]. rewrite in_flight_cons. rewrite Z.add_0_r. exact Hn.
    + exact Ht.
    + intros t' Hne. split; reflexivity.
  - (* HandleRequest *)
    injection Hop as <- <-.
    apply gate_invariant_update with (σ := σ); try exact Hinv.
    + cbn [log record]. rewrite in_flight_cons. cbn [number_of_queries record].
      rewrite Z.add_0_r. exact Hn.
    + apply Ht.
    + intros t' Hne. split; reflexivity.
Qed.

Lemma run_gate_invariant {R : Type} (sched : list tid) (c : state * list (prog R)) :
  gate_invariant c -> gate_invariant (run sched c).
Proof.
  unfold run. revert c. induction sched as [| t sched IH]; intros c Hinv.
  - exact Hinv.
  - cbn [fold_left]. apply IH, step_gate_invariant, Hinv.
Qed.

(** The two calls of the gate follow the discipline, whatever comes next. *)
Lemma disciplined_IncreaseQueryCount {R : Type} (k : unit -> prog R) (c : Z) :
  (forall c', disciplined false c' (k tt)) ->
  disciplined false c (bind IncreaseQueryCount k).
Proof.
  intros Hk. unfold IncreaseQueryCount, lock, unlock, load, store, call.
  cbn [bind disciplined op_rule delta].
  split; [reflexivity |]. intros c'.
  split; [reflexivity |]. split; [reflexivity |]. split; [reflexivity |].
  split; [reflexivity |]. exact Hk.
Qed.

Lemma disciplined_DecreaseQueryCount {R : Type} (k : unit -> prog R) (c : Z) :
  (forall c', disciplined false c' (k tt)) ->
  disciplined false c (bind DecreaseQueryCount k).
Proof.
  intros Hk.
  unfold DecreaseQueryCount, BOOST_ASSERT, lock, unlock, load, store, notify_all, call.
  cbn [bind disciplined op_rule delta].
  split; [reflexivity |]. intros c'.
  split; [reflexivity |]. split; [reflexivity |]. split; [reflexivity |].
  destruct NDEBUG; cbn [bind disciplined op_rule];
    repeat (split; [reflexivity |]);
    destruct (0 =? _); cbn [bind disciplined op_rule];
    repeat (split; [reflexivity |]); exact Hk.
Qed.

Lemma disciplined_calls (cs : list gate_call) (c : Z) :
  disciplined false c (calls cs).
Proof.
  revert c. induction cs as [| [|] cs IH]; intros c; cbn [calls gate].
  - exact I.
  - apply disciplined_IncreaseQueryCount. exact IH.
  - apply disciplined_DecreaseQueryCount. exact IH.
Qed.

(** *** A mutex held by somebody else *)

(** The operations of thread [t] in a log, newest first. *)
Fixpoint operations_of (t : tid) (l : list (tid * event)) : list event :=
  match l with
  | [] => []
  | e :: l' => if Nat.eqb e.1 t then e.2 :: operations_of t l' else operations_of t l'
  end.




(** ** The properties of the gate *)

(** The counter and the stores of the log.  Threads that call
    [IncreaseQueryCount] and [DecreaseQueryCount] in any number and order,
    scheduled in any interleaving of their primitive operations from a gate
    with no queries: in every state they reach, [number_of_queries] is the
    number of incrementing stores minus the number of decrementing stores
    in the log, as long as that difference is in range. *)
Lemma count_matches_stores (css : list (list gate_call))
    (sched : list tid) (σ0 : state) :
  0 < int_bits ->
  owner σ0 query_mutex = None ->
  number_of_queries σ0 = 0 ->
  log σ0 = [] ->
  let σ := (run sched (σ0, map calls css)).1 in
  (released (log σ) <= admitted (log σ))%nat ->
  Z.of_nat (admitted (log σ)) - Z.of_nat (released (log σ)) <= int_max int_bits ->
  number_of_queries σ = Z.of_nat (admitted (log σ)) - Z.of_nat (released (log σ)) /\
  0 <= number_of_queries σ /\
  (released (log σ) = admitted (log σ) -> number_of_queries σ = 0).
Proof.
  intros Hbits Hfree Hzero Hlog σ Hmatched Hfits.
  assert (Hinit : gate_invariant (σ0, map calls css)).
  { split; cbn [fst snd].
    - intros t p Hp. apply list_lookup_fmap_Some in Hp as (cs & -> & _).
      rewrite holds_free by assumption. apply disciplined_calls.
    - rewrite Hzero, Hlog. unfold in_flight, admitted, released. cbn.
      symmetry. apply wrap_small; [assumption |].
      pose proof (Z.pow_pos_nonneg 2 (int_bits - 1)). lia. }
  pose proof (run_gate_invariant sched Hinit) as [_ Hcount].
  fold σ in Hcount. unfold in_flight in Hcount.
  unfold int_max in Hfits.
  rewrite wrap_small in Hcount by (try assumption; lia).
  split; [exact Hcount |]. split; [lia |].
  intros Heq. rewrite Hcount, Heq. lia.
Qed.

(** C3. Standalone mode: when the engine has no lock, each of the six entry
    points runs the plugin of its kind directly on the engine's facade.
    The call of the plugin is the only operation performed: the history
    gains that one entry and no operation of the gate, and the facade, the
    query counter and the mutexes are left as they were. *)
Theorem standalone_calls_handler_directly (t : tid) (e : Engine) (σ : state) :
  lock_ e = None ->
  aborted σ = false ->
  (forall ps r, exec t (Route e ps r) σ = direct_call t (route_plugin e) ps r σ) /\
  (forall ps r, exec t (Table e ps r) σ = direct_call t (table_plugin e) ps r σ) /\
  (forall ps r, exec t (Nearest e ps r) σ = direct_call t (nearest_plugin e) ps r σ) /\
  (forall ps r, exec t (Trip e ps r) σ = direct_call t (trip_plugin e) ps r σ) /\
  (forall ps r, exec t (Match e ps r) σ = direct_call t (match_plugin e) ps r σ) /\
  (forall ps r, exec t (Tile e ps r) σ = direct_call t (tile_plugin e) ps r σ) /\
  (forall plugin ps r,
      let σ' := (direct_call t plugin ps r σ).1 in
      count_events is_gate (log σ') = count_events is_gate (log σ) /\
      query_data_facade σ' = query_data_facade σ /\
      number_of_queries σ' = number_of_queries σ /\
      (forall m, owner σ' m = owner σ m)).
Proof.
  intros Hlock Hab. unfold Route, Table, Nearest, Trip, Match, Tile.
  rewrite Hlock.
  repeat split; intros; try (apply exec_RunQuery_standalone; assumption).
Qed.

(** One request alone, on a gate that lets it run to its end: it performs,
    in this order, the admission ([IncreaseQueryCount]), the acquisition of
    [facade_update_mutex], the check for a new region with the exchange of
    the facade if one was loaded, the release of [facade_update_mutex], the
    call of the plugin on the facade that is current at that point, and the
    release ([DecreaseQueryCount]); it returns what the plugin returned.
    With no other request in between, the facade the plugin ran on is the
    engine's facade afterwards, and when the request exchanged the facade
    it is the newly loaded object. *)
Lemma request_alone_follows_protocol (t : tid) (l : EngineLock) (plugin : Plugin)
    (parameters : ParameterT plugin) (result : ResultT plugin)
    (σ : state) (w : DataWatchdog) :
  runnable σ w ->
  let current := facade_after σ w in
  let r := HandleRequest plugin current parameters result in
  exists σ',
    exec t (RunQuery (Some l) plugin parameters result) σ = (σ', Some r) /\
    history σ' = history σ ++ map (pair t)
      (assert_events [] true
       ++ admit_events (number_of_queries σ)
       ++ [EvLock facade_update_mutex]
       ++ check_events σ w
       ++ [EvUnlock facade_update_mutex]
       ++ [EvHandleRequest current r.1]
       ++ release_events (wrap int_bits (number_of_queries σ + 1))) /\
    query_data_facade σ' = current /\
    (swaps w = true ->
     current = Some (next_handle σ) /\
     current <> query_data_facade σ /\
     In (EvMaybeLoadNewRegion (Some (next_handle σ))) (check_events σ w)).
Proof.
  intros Hrun current r.
  destruct (exec_RunQuery_shared t l plugin parameters result Hrun)
    as (σ' & Hexec & Hhist & Hfac & _).
  exists σ'. split; [exact Hexec |]. split; [exact Hhist |].
  split; [exact Hfac |]. intros Hswaps.
  split; [| split].
  - unfold current, facade_after. rewrite Hswaps. reflexivity.
  - unfold current, facade_after. rewrite Hswaps.
    pose proof (run_allocated Hrun) as Halloc. unfold facade_allocated in Halloc.
    destruct (query_data_facade σ) as [h |]; [| discriminate].
    intros Heq. injection Heq as Heq. lia.
  - unfold check_events, swaps in *.
    apply andb_true_iff in Hswaps as [-> ->]. simpl. auto.
Qed.

(** C4. Shared mode: whatever status the plugin reports, the request that
    was admitted once is released once, after the plugin has returned, and
    the status and the result of the plugin are returned as they are. *)
Theorem release_once_per_admit (t : tid) (l : EngineLock) (plugin : Plugin)
    (parameters : ParameterT plugin) (result : ResultT plugin)
    (σ : state) (w : DataWatchdog) (status : Status) :
  runnable σ w ->
  (HandleRequest plugin (facade_after σ w) parameters result).1 = status ->
  exists σ' filled before,
    exec t (RunQuery (Some l) plugin parameters result) σ
      = (σ', Some (status, filled)) /\
    filled = (HandleRequest plugin (facade_after σ w) parameters result).2 /\
    history σ' = history σ ++ map (pair t)
      (before ++ [EvHandleRequest (facade_after σ w) status]
       ++ release_events (wrap int_bits (number_of_queries σ + 1))) /\
    count_events (is_store pre_increment) (map (pair t) before) = 1%nat /\
    count_events (is_store pre_decrement) (map (pair t) before) = 0%nat /\
    count_events (is_store pre_increment) (log σ') =
      S (count_events (is_store pre_increment) (log σ)) /\
    count_events (is_store pre_decrement) (log σ') =
      S (count_events (is_store pre_decrement) (log σ)).
Proof.
  intros Hrun Hstatus.
  destruct (exec_RunQuery_shared t l plugin parameters result Hrun)
    as (σ' & Hexec & Hhist & _).
  rewrite Hstatus in Hhist.
  exists σ', (HandleRequest plugin (facade_after σ w) parameters result).2,
    (assert_events [] true ++ admit_events (number_of_queries σ)
     ++ [EvLock facade_update_mutex] ++ check_events σ w
     ++ [EvUnlock facade_update_mutex]).
  assert (Hbefore : forall s,
    count_events (is_store s)
      (map (pair t) (assert_events [] true ++ admit_events (number_of_queries σ)
         ++ [EvLock facade_update_mutex] ++ check_events σ w
         ++ [EvUnlock facade_update_mutex]))
    = match s with pre_increment => 1%nat | pre_decrement => 0%nat end).
  { intros s. unfold check_events, admit_events, assert_events.
    destruct NDEBUG, (HasNewRegion w), (MaybeLoadNewRegion w).1, s; reflexivity. }
  assert (Hafter : forall s,
    count_events (is_store s)
      (map (pair t) ([EvHandleRequest (facade_after σ w) status]
         ++ release_events (wrap int_bits (number_of_queries σ + 1))))
    = match s with pre_increment => 0%nat | pre_decrement => 1%nat end).
  { intros s. unfold release_events, assert_events.
    destruct NDEBUG, s,
      (0 =? wrap int_bits (wrap int_bits (number_of_queries σ + 1) - 1));
      reflexivity. }
  assert (Hsplit : shared_events σ w status =
    (assert_events [] true ++ admit_events (number_of_queries σ)
     ++ [EvLock facade_update_mutex] ++ check_events σ w
     ++ [EvUnlock facade_update_mutex])
    ++ ([EvHandleRequest (facade_after σ w) status]
        ++ release_events (wrap int_bits (number_of_queries σ + 1))))
    by (unfold shared_events; rewrite <- !app_assoc; reflexivity).
  split; [| split; [reflexivity | split; [| split; [| split; [| split]]]]].
  - rewrite Hexec. f_equal. f_equal. rewrite <- Hstatus.
    destruct (HandleRequest plugin (facade_after σ w) parameters result); reflexivity.
  - rewrite Hhist, Hsplit. reflexivity.
  - apply (Hbefore pre_increment).
  - apply (Hbefore pre_decrement).
  - rewrite <- !count_events_history, Hhist, Hsplit.
    rewrite map_app, !count_events_app.
    rewrite (Hbefore pre_increment), (Hafter pre_increment). lia.
  - rewrite <- !count_events_history, Hhist, Hsplit.
    rewrite map_app, !count_events_app.
    rewrite (Hbefore pre_decrement), (Hafter pre_decrement). lia.
Qed.

(** C5. The block under [facade_update_mutex] changes nothing about the
    facade when there is no newer generation: if at each of [n] successive
    runs [HasNewRegion] says no or [MaybeLoadNewRegion] returns no facade,
    all [n] runs return and the engine's facade is the very object it was
    before, with the owners it had; no object has been allocated and the
    mutexes are free again. *)
Theorem update_without_new_region_keeps_facade (n : nat) (t : tid) (σ : state)
    (w : DataWatchdog) :
  owner σ facade_update_mutex = None ->
  aborted σ = false ->
  watchdog σ = Some w ->
  quiet n w ->
  let σ' := (exec t (repeated n update_facade) σ).1 in
  (exec t (repeated n update_facade) σ).2 = Some tt /\
  query_data_facade σ' = query_data_facade σ /\
  use_count σ' = use_count σ /\
  next_handle σ' = next_handle σ /\
  (forall m, owner σ' m = owner σ m).
Proof.
  revert σ w. induction n as [| n IH]; intros σ w Hfree Hab Hw Hquiet.
  - cbn. repeat split.
  - destruct Hquiet as [Hno Hquiet].
    destruct (exec_update_facade_quiet t σ Hfree Hab Hw Hno)
      as (σ1 & Hexec & Hown & Hab1 & Hw1 & Hfac & Huc & Hnh & _).
    assert (Hfree1 : owner σ1 facade_update_mutex = None)
      by (rewrite Hown; assumption).
    specialize (IH σ1 (watchdog_after w) Hfree1 Hab1 Hw1 Hquiet).
    cbn [repeated]. rewrite exec_bind, Hexec. cbv beta iota.
    cbv zeta in IH. destruct IH as (Hret & Hfac' & Huc' & Hnh' & Hown').
    cbv zeta. repeat split.
    + exact Hret.
    + rewrite Hfac'. exact Hfac.
    + rewrite Huc'. exact Huc.
    + rewrite Hnh'. exact Hnh.
    + intros m. rewrite Hown'. apply Hown.
Qed.

(** C7. Under [facade_update_mutex] the first thing the block does is call
    [HasNewRegion].  [MaybeLoadNewRegion] is called once if the check says
    yes and not at all if it says no; in that case the block does nothing
    but release the mutex, and the watchdog is left as it was. *)
Theorem cheap_check_guards_load (t : tid) (σ : state) (w : DataWatchdog) :
  owner σ facade_update_mutex = None ->
  aborted σ = false ->
  watchdog σ = Some w ->
  let σ' := (exec t update_facade σ).1 in
  exists rest,
    history σ' = history σ ++ map (pair t)
      ([EvLock facade_update_mutex; EvHasNewRegion (HasNewRegion w)] ++ rest) /\
    count_events is_check_region (map (pair t) rest) = 0%nat /\
    count_events is_load_region (map (pair t) rest) =
      (if HasNewRegion w then 1%nat else 0%nat) /\
    (HasNewRegion w = false ->
     rest = [EvUnlock facade_update_mutex] /\ watchdog σ' = Some w).
Proof.
  intros Hfree Hab Hw σ'. subst σ'.
  destruct (HasNewRegion w) eqn:Hnew.
  - destruct (MaybeLoadNewRegion w) as [[|] w'] eqn:Hload.
    + destruct NDEBUG eqn:Hndebug.
      * rewrite (exec_update_facade_swap t σ Hfree Hab Hw Hnew Hload)
          by (left; assumption).
        unfold swap_events, assert_events. rewrite Hndebug.
        eexists. split; [cbn [fst]; through; cbn [app]; reflexivity |].
        repeat split; discriminate.
      * destruct (Nat.eq_dec (facade_use_count (allocate_facade w' σ)) 1%nat)
          as [Hone | Hmany].
        -- rewrite (exec_update_facade_swap t σ Hfree Hab Hw Hnew Hload)
             by (right; assumption).
           unfold swap_events, assert_events. rewrite Hndebug.
           eexists. split; [cbn [fst]; through; cbn [app]; reflexivity |].
           repeat split; discriminate.
        -- rewrite (exec_update_facade_abort t σ Hfree Hab Hw Hnew Hload Hndebug Hmany).
           eexists. split; [cbn [fst]; through; cbn [app]; reflexivity |].
           repeat split; discriminate.
    + rewrite (exec_update_facade_not_loaded t σ Hfree Hab Hw Hnew Hload).
      eexists. split; [cbn [fst]; through; cbn [app]; reflexivity |].
      repeat split; discriminate.
  - rewrite (exec_update_facade_no_new t σ Hfree Hab Hw Hnew).
    eexists. split; [cbn [fst]; through; cbn [app]; reflexivity |].
    repeat split. cbn [fst]. through. assumption.
Qed.


(** C9. When the block has loaded a new facade, an enabled assertion reads
    the number of owners of the outgoing pointer and checks that it is one,
    immediately before the exchange; if it is, the exchange leaves the old
    object without owner, so it dies there, and if it is not, the process is
    aborted with the old facade still in place.  Nothing else stands
    between the load and the exchange: the block does not wait, and with
    the assertion compiled out the exchange happens whatever the number of
    owners, which drops by one. *)
Theorem swap_asserts_sole_owner (t : tid) (σ : state) (w w' : DataWatchdog)
    (old : handle) :
  owner σ facade_update_mutex = None ->
  aborted σ = false ->
  watchdog σ = Some w ->
  HasNewRegion w = true ->
  MaybeLoadNewRegion w = (true, w') ->
  query_data_facade σ = Some old ->
  (old < next_handle σ)%nat ->
  let c := use_count σ old in
  let new := next_handle σ in
  let σ' := (exec t update_facade σ).1 in
  (NDEBUG = false ->
   exists rest,
     history σ' = history σ ++ map (pair t)
       ([ EvLock facade_update_mutex; EvHasNewRegion true;
          EvMaybeLoadNewRegion (Some new);
          EvUseCount c; EvAssert (Nat.eqb c 1) ] ++ rest) /\
     (c = 1%nat ->
      rest = [ EvMoveFacade (Some old) new; EvUnlock facade_update_mutex ] /\
      aborted σ' = false /\
      query_data_facade σ' = Some new /\
      use_count σ' old = 0%nat /\ use_count σ' new = 1%nat) /\
     (c <> 1%nat ->
      rest = [] /\
      aborted σ' = true /\
      query_data_facade σ' = Some old /\
      use_count σ' old = c)) /\
  (NDEBUG = true ->
   history σ' = history σ ++ map (pair t)
     [ EvLock facade_update_mutex; EvHasNewRegion true;
       EvMaybeLoadNewRegion (Some new);
       EvMoveFacade (Some old) new; EvUnlock facade_update_mutex ] /\
   aborted σ' = false /\
   query_data_facade σ' = Some new /\
   use_count σ' old = Nat.pred c /\ use_count σ' new = 1%nat).
Proof.
  intros Hfree Hab Hw Hnew Hload Hold Hlt c new σ'.
  assert (Hc : facade_use_count (allocate_facade w' σ) = c).
  { rewrite facade_use_count_allocate.
    - unfold facade_use_count. rewrite Hold. reflexivity.
    - unfold facade_allocated. rewrite Hold. exact Hlt. }
  assert (Hne : Nat.eqb old (next_handle σ) = false) by (apply Nat.eqb_neq; lia).
  assert (Hne' : Nat.eqb (next_handle σ) old = false) by (apply Nat.eqb_neq; lia).
  assert (Hswapped : NDEBUG = true \/ c = 1%nat ->
    exec t update_facade σ =
    (move_facade (next_handle σ)
       (allocate_facade w'
          (emit t (swap_events (Some old) (next_handle σ) c) σ)), Some tt)).
  { intros Hok.
    rewrite (exec_update_facade_swap t σ Hfree Hab Hw Hnew Hload)
      by (rewrite Hc; exact Hok).
    rewrite Hc, Hold. reflexivity. }
  split.
  - intros Hdebug. destruct (Nat.eq_dec c 1%nat) as [Hone | Hmany].
    + subst σ'. rewrite Hswapped by (right; assumption).
      unfold swap_events, assert_events. rewrite Hdebug. cbn [fst].
      eexists. split; [through; cbn [app]; reflexivity |].
      split; [| intros; contradiction].
      intros _.
      repeat split; through; rewrite ?Hold;
        rewrite ?release_share_old, ?release_share_new by lia;
        try reflexivity; try assumption.
      fold c. rewrite Hone. reflexivity.
    + subst σ'.
      rewrite (exec_update_facade_abort t σ Hfree Hab Hw Hnew Hload Hdebug)
        by (rewrite Hc; assumption).
      rewrite Hc. cbn [fst].
      eexists. split.
      * through. cbn [app]. apply Nat.eqb_neq in Hmany. rewrite Hmany. reflexivity.
      * split; [intros; contradiction |].
        intros _.
        repeat split; through; rewrite ?Hold; try reflexivity; try assumption.
        unfold set_count. rewrite Hne. reflexivity.
  - intros Hndebug. subst σ'. rewrite Hswapped by (left; assumption).
    unfold swap_events, assert_events. rewrite Hndebug. cbn [fst].
    repeat split; through; rewrite ?Hold;
      rewrite ?release_share_old, ?release_share_new by lia;
      try reflexivity; assumption.
Qed.

(** C6. [DecreaseQueryCount] stores the decremented counter and calls
    [notify_all] once if that value is zero and not at all otherwise; when
    its assertion holds or is compiled out it runs to its end, and the
    notification, if any, comes after the store and before the mutex is
    released. *)
Theorem release_notifies_exactly_at_zero (t : tid) (σ : state) :
  owner σ query_mutex = None ->
  aborted σ = false ->
  let n' := wrap int_bits (number_of_queries σ - 1) in
  let σ' := (exec t DecreaseQueryCount σ).1 in
  number_of_queries σ' = n' /\
  count_events is_notify (log σ') =
    (count_events is_notify (log σ) + (if (0 =? n')%Z then 1 else 0))%nat /\
  (NDEBUG = true \/ 0 <= n' ->
   (exec t DecreaseQueryCount σ).2 = Some tt /\
   history σ' = history σ ++ map (pair t) (release_events (number_of_queries σ))).
Proof.
  intros Hq Hab n' σ'.
  assert (Hcases : (NDEBUG = true \/ 0 <= n') \/ (NDEBUG = false /\ n' < 0))
    by (destruct NDEBUG; [ auto | destruct (Z_le_gt_dec 0 n'); [ auto | right; split; [reflexivity | lia] ] ]).
  destruct Hcases as [Hok | [Hdebug Hneg]].
  - pose proof (exec_DecreaseQueryCount t σ Hq Hab Hok) as Hexec.
    subst σ'. rewrite Hexec. cbn [fst snd].
    split; [reflexivity |]. split.
    + rewrite log_set_number_of_queries, count_events_emit.
      unfold release_events, assert_events. fold n'.
      destruct NDEBUG, (0 =? n'), (0 <=? n'); simpl; lia.
    + intros _. split; [reflexivity |].
      unfold history. rewrite log_set_number_of_queries. apply history_emit.
  - pose proof (exec_DecreaseQueryCount_abort t σ Hq Hab Hdebug Hneg) as Hexec.
    subst σ'. rewrite Hexec. cbn [fst snd].
    split; [reflexivity |]. split.
    + simpl. destruct (Z.eqb_spec 0 n'); [lia | lia].
    + intros [Hn | Hle]; [congruence | lia].
Qed.

(** ** Further properties of the engine *)

(** *** One request after the other *)

(** An increment followed by a decrement gives the value back. *)
Lemma wrap_succ_pred (b n : Z) :
  0 < b -> - 2 ^ (b - 1) <= n < 2 ^ (b - 1) -> wrap b (wrap b (n + 1) - 1) = n.
Proof.
  intros Hb Hn. replace (wrap b (n + 1) - 1) with (wrap b (n + 1) + -1) by lia.
  rewrite wrap_wrap_add. replace (n + 1 + -1) with n by lia.
  apply wrap_small; assumption.
Qed.

(** The allocator after one request. *)
Lemma exec_RunQuery_shared_next_handle (t : tid) (l : EngineLock) (plugin : Plugin)
    (parameters : ParameterT plugin) (result : ResultT plugin)
    (σ : state) (w : DataWatchdog) :
  runnable σ w ->
  next_handle (exec t (RunQuery (Some l) plugin parameters result) σ).1 =
  (if swaps w then S (next_handle σ) else next_handle σ).
Proof.
  intros [Hfree Hab Hw Halloc Hswap Hcount].
  pose proof (Hfree pending_update_mutex) as Hp.
  pose proof (Hfree query_mutex) as Hq.
  pose proof (Hfree facade_update_mutex) as Hf.
  cbn [owner] in Hp, Hq, Hf.
  rewrite RunQuery_shared_eq.
  rewrite exec_BOOST_ASSERT_true by assumption.
  rewrite exec_bind, exec_IncreaseQueryCount by (through; auto).
  cbv beta iota. through.
  set (σ1 := set_number_of_queries _ _).
  assert (H1 : owner σ1 query_mutex = None) by (subst σ1; through; assumption).
  assert (H2 : owner σ1 facade_update_mutex = None)
    by (subst σ1; through; assumption).
  assert (H3 : aborted σ1 = false) by (subst σ1; through; assumption).
  assert (H4 : watchdog σ1 = Some w) by (subst σ1; through; assumption).
  assert (H5 : facade_allocated σ1)
    by (subst σ1; unfold facade_allocated in *; through; assumption).
  assert (H6 : swap_assertion σ1 w)
    by (subst σ1; unfold swap_assertion, facade_use_count in *; through; assumption).
  unfold serve.
  destruct (exec_update_facade t H2 H3 H4 H5 H6)
    as (σ2 & Hexec & Hhist & Hown & Hnum & Hab2 & Hw2 & Hfac & Huc & Hnh).
  rewrite exec_bind, Hexec. cbv beta iota. expose.
  rewrite exec_HandleRequest by assumption.
  set (σ3 := record t _ σ2).
  assert (H7 : owner σ3 query_mutex = None)
    by (subst σ3; rewrite owner_record, Hown; assumption).
  assert (H8 : aborted σ3 = false) by (subst σ3; through; assumption).
  assert (H9 : NDEBUG = true \/ 0 <= wrap int_bits (number_of_queries σ3 - 1))
    by (subst σ3; through; rewrite Hnum; subst σ1; through; assumption).
  rewrite exec_bind, (exec_DecreaseQueryCount t σ3 H7 H8 H9).
  cbv beta iota. rewrite exec_Ret. cbn [fst]. subst σ3. through.
  rewrite Hnh. subst σ1. through. reflexivity.
Qed.

(** A gate at rest: nobody holds a mutex, the process is alive, the engine
    alone owns its facade, and the counter has room for one more query. *)
Record ready (σ : state) (w : DataWatchdog) : Prop := {
  ready_free : forall m, owner σ m = None;
  ready_alive : aborted σ = false;
  ready_watchdog : watchdog σ = Some w;
  ready_facade : exists h, query_data_facade σ = Some h /\
                           (h < next_handle σ)%nat /\ use_count σ h = 1%nat;
  ready_count : 0 <= number_of_queries σ < int_max int_bits
}.

Lemma ready_runnable (σ : state) (w : DataWatchdog) :
  0 < int_bits -> ready σ w -> runnable σ w.
Proof.
  intros Hbits [Hfree Hab Hw (h & Hh & Hlt & Hone) Hcount].
  unfold int_max in Hcount.
  split; try assumption.
  - unfold facade_allocated. rewrite Hh. exact Hlt.
  - intros _. right. unfold facade_use_count. rewrite Hh. exact Hone.
  - right. rewrite wrap_succ_pred by (try assumption; lia). lia.
Qed.

(** X1. A request served by a gate at rest returns what the plugin returned
    and leaves the gate at rest: the counter is back at its value, every
    mutex is free, and the engine alone owns its facade, be it the old one
    or the one this request has loaded.  So the next request finds the gate
    as this one did. *)
Theorem request_leaves_gate_ready (t : tid) (l : EngineLock) (plugin : Plugin)
    (parameters : ParameterT plugin) (result : ResultT plugin)
    (σ : state) (w : DataWatchdog) :
  0 < int_bits ->
  ready σ w ->
  exists σ',
    exec t (RunQuery (Some l) plugin parameters result) σ =
      (σ', Some (HandleRequest plugin (facade_after σ w) parameters result)) /\
    ready σ' (watchdog_after w) /\
    number_of_queries σ' = number_of_queries σ /\
    query_data_facade σ' = facade_after σ w.
Proof.
  intros Hbits Hready.
  pose proof (ready_runnable Hbits Hready) as Hrun.
  pose proof (exec_RunQuery_shared_next_handle t l plugin parameters result Hrun) as Hnh.
  destruct (exec_RunQuery_shared t l plugin parameters result Hrun)
    as (σ' & Hexec & _ & Hfac & Hnum & Hown & Hab & Hw & Huc).
  rewrite Hexec in Hnh. cbn [fst] in Hnh.
  destruct Hready as [Hfree _ _ (h & Hh & Hlt & Hone) Hcount].
  unfold int_max in Hcount.
  rewrite wrap_succ_pred in Hnum by (try assumption; lia).
  exists σ'. split; [exact Hexec |]. split; [| split; [exact Hnum | exact Hfac]].
  split.
  - intros m. rewrite Hown. apply Hfree.
  - exact Hab.
  - exact Hw.
  - rewrite Hfac, Huc, Hnh. unfold facade_after, use_count_after.
    destruct (swaps w).
    + exists (next_handle σ). split; [reflexivity |]. split; [lia |].
      rewrite Hh. apply release_share_new. lia.
    + exists h. split; [exact Hh |]. split; [exact Hlt | exact Hone].
  - rewrite Hnum. unfold int_max. exact Hcount.
Qed.

(** *** A release without an admission *)

(** X2. [DecreaseQueryCount] on a counter that has no admission left stores
    the negative value all the same and notifies nobody.  With the
    assertion enabled the process is then aborted while the thread still
    holds [query_mutex]; with the assertion compiled out the call returns
    and the counter stays negative. *)
Theorem release_without_admission (t : tid) (σ : state) :
  owner σ query_mutex = None ->
  aborted σ = false ->
  wrap int_bits (number_of_queries σ - 1) < 0 ->
  let σ' := (exec t DecreaseQueryCount σ).1 in
  number_of_queries σ' = wrap int_bits (number_of_queries σ - 1) /\
  count_events is_notify (log σ') = count_events is_notify (log σ) /\
  (NDEBUG = false ->
   (exec t DecreaseQueryCount σ).2 = None /\
   aborted σ' = true /\ owner σ' query_mutex = Some t) /\
  (NDEBUG = true ->
   (exec t DecreaseQueryCount σ).2 = Some tt /\
   aborted σ' = false /\ owner σ' query_mutex = None).
Proof.
  intros Hq Hab Hneg σ'. subst σ'.
  destruct NDEBUG eqn:Hndebug.
  - rewrite (exec_DecreaseQueryCount t σ Hq Hab) by (left; assumption).
    cbn [fst snd]. split; [reflexivity |]. split.
    + rewrite log_set_number_of_queries, count_events_emit.
      unfold release_events, assert_events. rewrite Hndebug.
      destruct (Z.eqb_spec 0 (wrap int_bits (number_of_queries σ - 1))); [lia |].
      reflexivity.
    + split; [discriminate |]. intros _.
      split; [reflexivity |]. through. split; assumption.
  - rewrite (exec_DecreaseQueryCount_abort t σ Hq Hab Hndebug Hneg).
    cbn [fst snd]. split; [reflexivity |]. split; [reflexivity |].
    split; [| discriminate]. intros _. repeat split.
Qed.

(** *** The engine the constructor builds *)

(** The members after a standalone construction: one facade object, owned
    by the engine alone, and the barrier as it was found. *)
Definition standalone_state (b : Barrier) : state :=
  {| st_pending_update_mutex := found_pending_update_mutex b;
     st_query_mutex := found_query_mutex b;
     number_of_queries := found_number_of_queries b;
     st_facade_update_mutex := None;
     watchdog := None;
     query_data_facade := Some 0%nat;
     use_count := set_count 0%nat 1%nat (fun _ => 0%nat);
     next_handle := 1%nat;
     aborted := false;
     log := [] |}.

(** The members after a construction in shared mode by thread [t] whose
    first load left the watchdog in state [w'] and produced a facade, or
    did not. *)
Definition shared_state (t : tid) (shm : SharedMemory) (b : Barrier)
    (w' : DataWatchdog) (produced : bool) : state :=
  if produced
  then emit t (assert_events [] true)
         (set_facade (Some 0%nat)
            (record t (EvMaybeLoadNewRegion (Some 0%nat))
               (allocate_facade w'
                  (set_watchdog (DataWatchdog_new shm) (fresh_state b)))))
  else set_facade None
         (record t (EvMaybeLoadNewRegion None)
            (set_watchdog w'
               (set_watchdog (DataWatchdog_new shm) (fresh_state b)))).

(** The constructor, case by case. *)
Lemma Engine_new_eq (t : tid) (config : EngineConfig) (shm : SharedMemory)
    (b : Barrier) :
  Engine_new t config shm b =
  if use_shared_memory config then
    if TryConnect shm then
      let (produced, w') := MaybeLoadNewRegion (DataWatchdog_new shm) in
      if produced || NDEBUG
      then Constructed (register_plugins config (Some engine_lock))
             (shared_state t shm b w' produced)
      else Aborts
    else Throws "No shared memory blocks found, have you forgotten to run osrm-datastore?"
  else
    if IsValid (storage_config config)
    then Constructed (register_plugins config None) (standalone_state b)
    else Throws "Invalid file paths given!".
Proof.
  unfold Engine_new.
  destruct (use_shared_memory config).
  - destruct (TryConnect shm); cbn [negb]; [| reflexivity].
    destruct (MaybeLoadNewRegion (DataWatchdog_new shm)) as [produced w'] eqn:Hload.
    unfold call. destruct produced; cbn [orb].
    + rewrite exec_MaybeLoadNewRegion_some
        with (w := DataWatchdog_new shm) (w' := w')
        by (reflexivity || assumption).
      rewrite exec_Ret. cbn [non_null]. unfold BOOST_ASSERT, shared_state, assert_events.
      destruct NDEBUG.
      * rewrite exec_Ret.
        cbn [aborted set_facade record allocate_facade set_watchdog fresh_state].
        reflexivity.
      * cbn [bind]. unfold call. rewrite exec_Assert by reflexivity. rewrite exec_Ret.
        cbn [aborted set_facade record allocate_facade set_watchdog fresh_state].
        reflexivity.
    + rewrite exec_MaybeLoadNewRegion_none
        with (w := DataWatchdog_new shm) (w' := w')
        by (reflexivity || assumption).
      rewrite exec_Ret. cbn [non_null]. unfold BOOST_ASSERT, shared_state.
      destruct NDEBUG.
      * rewrite exec_Ret. cbn [aborted set_facade record set_watchdog fresh_state].
        reflexivity.
      * cbn [bind]. unfold call. rewrite exec_Assert by reflexivity. rewrite exec_Ret.
        cbn [aborted set_facade record set_aborted set_watchdog fresh_state].
        reflexivity.
  - destruct (IsValid (storage_config config)); reflexivity.
Qed.

(** Every way the constructor has of building an engine. *)
Lemma Engine_new_constructed (t : tid) (config : EngineConfig) (shm : SharedMemory)
    (b : Barrier) (e : Engine) (σ : state) :
  Engine_new t config shm b = Constructed e σ ->
  (use_shared_memory config = false /\
   IsValid (storage_config config) = true /\
   e = register_plugins config None /\ σ = standalone_state b) \/
  (use_shared_memory config = true /\
   TryConnect shm = true /\
   e = register_plugins config (Some engine_lock) /\
   exists produced w',
     MaybeLoadNewRegion (DataWatchdog_new shm) = (produced, w') /\
     (produced = true \/ NDEBUG = true) /\
     σ = shared_state t shm b w' produced).
Proof.
  rewrite Engine_new_eq.
  destruct (use_shared_memory config).
  - destruct (TryConnect shm); [| discriminate].
    destruct (MaybeLoadNewRegion (DataWatchdog_new shm)) as [produced w'].
    destruct produced; cbn [orb].
    + intros H; injection H as <- <-. right.
      repeat split. exists true, w'. repeat split. left. reflexivity.
    + destruct NDEBUG; [| discriminate].
      intros H; injection H as <- <-. right.
      repeat split. exists false, w'. repeat split. right. reflexivity.
  - destruct (IsValid (storage_config config)); [| discriminate].
    intros H; injection H as <- <-. left. repeat split.
Qed.

(** The fields of the two states. *)
Lemma shared_state_fields (t : tid) (shm : SharedMemory) (b : Barrier)
    (w' : DataWatchdog) (produced : bool) :
  let σ := shared_state t shm b w' produced in
  number_of_queries σ = found_number_of_queries b /\
  owner σ pending_update_mutex = found_pending_update_mutex b /\
  owner σ query_mutex = found_query_mutex b /\
  owner σ facade_update_mutex = None /\
  aborted σ = false /\
  watchdog σ = Some w' /\
  query_data_facade σ = (if produced then Some 0%nat else None) /\
  next_handle σ = (if produced then 1%nat else 0%nat) /\
  use_count σ 0%nat = (if produced then 1%nat else 0%nat).
Proof.
  unfold shared_state. destruct produced; through; repeat split.
Qed.




(** X4. The constructor ends in a failed assertion exactly when shared
    memory is selected and found, the first load of the watchdog returns no
    facade, and assertions are enabled.  With assertions compiled out the
    same load gives an engine whose facade is null. *)
Theorem construction_with_empty_first_load (t : tid) (config : EngineConfig)
    (shm : SharedMemory) (b : Barrier) :
  (Engine_new t config shm b = Aborts <->
   use_shared_memory config = true /\ TryConnect shm = true /\
   (MaybeLoadNewRegion (DataWatchdog_new shm)).1 = false /\ NDEBUG = false) /\
  (use_shared_memory config = true ->
   TryConnect shm = true ->
   (MaybeLoadNewRegion (DataWatchdog_new shm)).1 = false ->
   NDEBUG = true ->
   exists e σ,
     Engine_new t config shm b = Constructed e σ /\
     lock_ e = Some engine_lock /\ query_data_facade σ = None).
Proof.
  unfold Engine_new.
  destruct (use_shared_memory config) eqn:Hshared.
  - destruct (TryConnect shm) eqn:Hconnect; cbn [negb].
    + destruct (MaybeLoadNewRegion (DataWatchdog_new shm)) as [produced w'] eqn:Hload.
      cbn [fst]. unfold call. destruct produced.
      * rewrite exec_MaybeLoadNewRegion_some
          with (w := DataWatchdog_new shm) (w' := w')
          by (reflexivity || assumption).
        rewrite exec_Ret. cbn [non_null]. unfold BOOST_ASSERT.
        destruct NDEBUG.
        -- rewrite exec_Ret.
           cbn [aborted set_facade record allocate_facade set_watchdog fresh_state].
           split; [split; [discriminate | intros (_ & _ & H & _); discriminate] |].
           discriminate.
        -- cbn [bind]. unfold call. rewrite exec_Assert by reflexivity. rewrite exec_Ret.
           cbn [aborted set_facade record allocate_facade set_watchdog fresh_state].
           split; [split; [discriminate | intros (_ & _ & H & _); discriminate] |].
           discriminate.
      * rewrite exec_MaybeLoadNewRegion_none
          with (w := DataWatchdog_new shm) (w' := w')
          by (reflexivity || assumption).
        rewrite exec_Ret. cbn [non_null]. unfold BOOST_ASSERT.
        destruct NDEBUG.
        -- rewrite exec_Ret. cbn [aborted set_facade record set_watchdog fresh_state].
           split; [split; [discriminate | intros (_ & _ & _ & H); discriminate] |].
           intros _ _ _ _. eexists _, _. repeat split.
        -- cbn [bind]. unfold call. rewrite exec_Assert by reflexivity. rewrite exec_Ret.
           cbn [aborted set_facade record set_aborted set_watchdog fresh_state].
           split; [split; [intros _; repeat split | reflexivity] |].
           discriminate.
    + split; [split; [discriminate | intros (_ & H & _); discriminate] |].
      discriminate.
  - destruct (IsValid (storage_config config)); cbn [negb];
      (split; [split; [discriminate | intros (H & _); discriminate] |]); discriminate.
Qed.

(** X5. An engine the constructor has built with a facade, on a barrier
    it found at rest (both named mutexes free, the counter at least zero
    and below the largest [int]), serves its first request in either mode:
    [RunQuery] with the engine's lock, as each of the six entry points
    calls it, returns what the plugin makes of the facade current at the
    call, which is not null, and leaves the counter as it was and no mutex
    held.  In standalone mode that facade is the one made by the
    constructor. *)
Theorem constructed_engine_serves (t t' : tid) (config : EngineConfig)
    (shm : SharedMemory) (b : Barrier) (e : Engine) (σ : state) (plugin : Plugin)
    (parameters : ParameterT plugin) (result : ResultT plugin) :
  0 < int_bits ->
  found_pending_update_mutex b = None ->
  found_query_mutex b = None ->
  0 <= found_number_of_queries b < int_max int_bits ->
  Engine_new t config shm b = Constructed e σ ->
  query_data_facade σ <> None ->
  exists σ' current,
    exec t' (RunQuery (lock_ e) plugin parameters result) σ =
      (σ', Some (HandleRequest plugin (Some current) parameters result)) /\
    query_data_facade σ' = Some current /\
    number_of_queries σ' = found_number_of_queries b /\
    (forall m, owner σ' m = None) /\
    (use_shared_memory config = false -> current = 0%nat).
Proof.
  intros Hbits Hpending Hquery Hcount Hnew Hfacade.
  assert (Hpow : 0 < 2 ^ (int_bits - 1)) by (apply Z.pow_pos_nonneg; lia).
  assert (Hmax : int_max int_bits = 2 ^ (int_bits - 1) - 1) by reflexivity.
  destruct (Engine_new_constructed _ _ _ _ Hnew)
    as [(Hshared & _ & -> & ->)
       | (Hshared & _ & -> & produced & w' & Hload & Hok & ->)].
  - cbn [lock_ register_plugins].
    rewrite exec_RunQuery_standalone by reflexivity.
    exists (record t' (EvHandleRequest (Some 0%nat)
              (HandleRequest plugin (Some 0%nat) parameters result).1)
              (standalone_state b)), 0%nat.
    split; [reflexivity |]. repeat split.
    intros []; cbn; assumption || reflexivity.
  - cbn [lock_ register_plugins].
    pose proof (shared_state_fields t shm b w' produced) as Hfields.
    cbv zeta in Hfields.
    destruct Hfields as (Hnum0 & Hp & Hq & Hf & Hab & Hw & Hfac & Hnext & Huse).
    destruct produced; [| rewrite Hfac in Hfacade; contradiction].
    assert (Hfree : forall m, owner (shared_state t shm b w' true) m = None)
      by (intros []; congruence).
    assert (Hrun : runnable (shared_state t shm b w' true) w').
    { split.
      - exact Hfree.
      - exact Hab.
      - exact Hw.
      - unfold facade_allocated. rewrite Hfac, Hnext. lia.
      - intros _. right. unfold facade_use_count. rewrite Hfac. exact Huse.
      - right. rewrite Hnum0, wrap_succ_pred; [lia | assumption | lia]. }
    destruct (exec_RunQuery_shared t' engine_lock plugin parameters result Hrun)
      as (σ' & Hexec & _ & Hfacade' & Hnum & Hown & _).
    assert (Hcurrent : exists current,
              facade_after (shared_state t shm b w' true) w' = Some current).
    { unfold facade_after. rewrite Hfac. destruct (swaps w'); eauto. }
    destruct Hcurrent as [current Hcurrent].
    rewrite Hcurrent in Hexec, Hfacade'.
    exists σ', current.
    split; [exact Hexec |]. split; [exact Hfacade' |].
    split; [| split].
    + rewrite Hnum, Hnum0. apply wrap_succ_pred; [assumption | lia].
    + intros m. rewrite Hown. apply Hfree.
    + rewrite Hshared. discriminate.
Qed.

(** *** Requests running side by side *)

(** Taking conjunctions apart, in the hypotheses and in the goal. *)
Ltac conjuncts :=
  repeat match goal with
         | H : _ /\ _ |- _ => destruct H
         | |- _ /\ _ => split
         end;
  try assumption; try discriminate; try congruence.

(** Whether thread [t] holds the mutex [m]. *)
Definition held (σ : state) (t : tid) (m : mutex) : bool :=
  match owner σ m with
  | Some t' => Nat.eqb t' t
  | None => false
  end.

(** The admissions of thread [t] that it has not released yet. *)
Fixpoint balance (t : tid) (l : list (tid * event)) : Z :=
  match l with
  | [] => 0
  | e :: l' =>
      (if Nat.eqb e.1 t
       then match e.2 with EvStore s _ => delta s | _ => 0 end
       else 0) + balance t l'
  end.

(** The discipline of a request.  [hp], [hq] and [hf] say which of
    [pending_update_mutex], [query_mutex] and [facade_update_mutex] the
    thread holds, and [b] is its balance.  [pending_update_mutex] and
    [facade_update_mutex] are taken by a thread that holds nothing, and
    [query_mutex] by one that holds at most [pending_update_mutex], which
    it gives back next; the counter and its condition are used under
    [query_mutex] alone; the watchdog is asked, and the owners of the
    engine's facade are counted and the facade exchanged, under
    [facade_update_mutex] alone; the plugin is called by a thread that
    holds nothing; a thread admits itself once and releases that admission
    once. *)
Definition order_rule (o : op) (hp hq hf : bool) (b : Z)
  : (answer o -> bool -> bool -> bool -> Z -> Prop) -> Prop :=
  match o as o0 return (answer o0 -> bool -> bool -> bool -> Z -> Prop) -> Prop with
  | Lock m => fun next =>
      match m with
      | pending_update_mutex =>
          hp = false /\ hq = false /\ hf = false /\ next tt true hq hf b
      | query_mutex => hq = false /\ hf = false /\ next tt hp true hf b
      | facade_update_mutex =>
          hp = false /\ hq = false /\ hf = false /\ next tt hp hq true b
      end
  | Unlock m => fun next =>
      match m with
      | pending_update_mutex =>
          (hp = true /\ hq = true /\ hf = false) /\ next tt false hq hf b
      | query_mutex =>
          (hq = true /\ hp = false /\ hf = false) /\ next tt hp false hf b
      | facade_update_mutex =>
          (hf = true /\ hp = false /\ hq = false) /\ next tt hp hq false b
      end
  | Load => fun next =>
      (hq = true /\ hp = false /\ hf = false) /\ forall n, next n hp hq hf b
  | Store s _ => fun next =>
      (hq = true /\ hp = false /\ hf = false) /\
      b = match s with pre_increment => 0 | pre_decrement => 1 end /\
      next tt hp hq hf (delta s + b)
  | UseCount => fun next =>
      (hf = true /\ hp = false /\ hq = false) /\ forall n, next n hp hq hf b
  | Assert _ => fun next =>
      (hp = false /\ hq && hf = false) /\ next tt hp hq hf b
  | NotifyAll => fun next =>
      (hq = true /\ hp = false /\ hf = false) /\ next tt hp hq hf b
  | CallHasNewRegion => fun next =>
      (hf = true /\ hp = false /\ hq = false) /\ forall a, next a hp hq hf b
  | CallMaybeLoadNewRegion => fun next =>
      (hf = true /\ hp = false /\ hq = false) /\ forall a, next a hp hq hf b
  | MoveFacade _ => fun next =>
      (hf = true /\ hp = false /\ hq = false) /\ next tt hp hq hf b
  | CallHandleRequest _ _ _ => fun next =>
      hp = false /\ hq = false /\ hf = false /\ forall a, next a hp hq hf b
  end.

Fixpoint orderly {R : Type} (hp hq hf : bool) (b : Z) (p : prog R) : Prop :=
  match p with
  | Ret _ => hp = false /\ hq = false /\ hf = false /\ b = 0
  | Vis o k =>
      order_rule o hp hq hf b
        (fun a hp' hq' hf' b' => orderly hp' hq' hf' b' (k a))
  end.

(** The discipline of the thread [t] in the state [σ]. *)
Definition orderly_in {R : Type} (σ : state) (t : tid) (p : prog R) : Prop :=
  orderly (held σ t pending_update_mutex) (held σ t query_mutex)
    (held σ t facade_update_mutex) (balance t (log σ)) p.

(** What the threads of a pool keep true together. *)
Record request_invariant {R : Type} (c : state * list (prog R)) : Prop := {
  inv_orderly : forall t p, c.2 !! t = Some p -> orderly_in c.1 t p;
  inv_owner : forall m t, owner c.1 m = Some t -> (t < length c.2)%nat;
  inv_log : forall t, (length c.2 <= t)%nat -> balance t (log c.1) = 0;
  inv_balance : forall t, 0 <= balance t (log c.1) <= 1
}.

(** The mutex an operation takes or gives back changes hands; nothing else
    does. *)
Definition owner_after (t : tid) (o : op) (f : mutex -> option tid)
  : mutex -> option tid :=
  match o with
  | Lock m => fun m' => if decide (m' = m) then Some t else f m'
  | Unlock m => fun m' => if decide (m' = m) then None else f m'
  | _ => f
  end.

Definition store_delta (o : op) : Z :=
  match o with
  | Store s _ => delta s
  | _ => 0
  end.

(** What it takes for an operation to go ahead. *)
Definition enabled (t : tid) (o : op) (σ : state) : Prop :=
  aborted σ = false /\
  match o with
  | Lock m => owner σ m = None
  | Unlock m => owner σ m = Some t
  | CallHasNewRegion | CallMaybeLoadNewRegion => watchdog σ <> None
  | _ => True
  end.

Lemma do_op_effect (t : tid) (o : op) (σ σ' : state) (a : answer o) :
  do_op t o σ = Some (a, σ') ->
  enabled t o σ /\
  (forall m, owner σ' m = owner_after t o (owner σ) m) /\
  (exists e, log σ' = (t, e) :: log σ /\
             match e with EvStore s _ => delta s | _ => 0 end = store_delta o) /\
  (watchdog σ <> None -> watchdog σ' <> None).
Proof.
  unfold do_op, enabled. destruct (aborted σ); [discriminate |].
  destruct o as [m | m | | s n | | b | | | | new | pl ps r];
    cbn [answer owner_after store_delta] in *.
  - destruct (owner σ m) eqn:Hm; [discriminate |].
    intros H; injection H as <- <-.
    split; [auto |]. split; [| split; [eexists; split; reflexivity | auto]].
    intros m'. destruct m, m'; reflexivity.
  - destruct (owner σ m) as [t0 |] eqn:Hm; [| discriminate].
    destruct (Nat.eqb_spec t0 t) as [-> | Hne0]; [| discriminate].
    intros H; injection H as <- <-.
    split; [auto |]. split; [| split; [eexists; split; reflexivity | auto]].
    intros m'. destruct m, m'; reflexivity.
  - intros H; injection H as <- <-.
    split; [auto |]. split; [reflexivity |]. split; [eexists; split; reflexivity | auto].
  - intros H; injection H as <- <-.
    split; [auto |]. split; [reflexivity |]. split; [eexists; split; reflexivity | auto].
  - intros H; injection H as <- <-.
    split; [auto |]. split; [reflexivity |]. split; [eexists; split; reflexivity | auto].
  - intros H; injection H as <- <-.
    split; [auto |]. destruct b;
      (split; [reflexivity |]; split; [eexists; split; reflexivity | auto]).
  - intros H; injection H as <- <-.
    split; [auto |]. split; [reflexivity |]. split; [eexists; split; reflexivity | auto].
  - destruct (watchdog σ) as [w |] eqn:Hw; [| discriminate].
    intros H; injection H as <- <-.
    split; [split; [reflexivity | discriminate] |].
    split; [reflexivity |]. split; [eexists; split; reflexivity |].
    cbn. rewrite Hw. auto.
  - destruct (watchdog σ) as [w |] eqn:Hw; [| discriminate].
    destruct (MaybeLoadNewRegion w) as [[|] w']; intros H; injection H as <- <-;
      (split; [split; [reflexivity | discriminate] |];
       split; [reflexivity |]; split; [eexists; split; reflexivity |];
       cbn; discriminate).
  - intros H; injection H as <- <-.
    split; [auto |]. split; [reflexivity |]. split; [eexists; split; reflexivity | auto].
  - intros H; injection H as <- <-.
    split; [auto |]. split; [reflexivity |]. split; [eexists; split; reflexivity | auto].
Qed.

(** An operation that may go ahead does. *)
Lemma enabled_do_op (t : tid) (o : op) (σ : state) :
  enabled t o σ -> exists a σ', do_op t o σ = Some (a, σ').
Proof.
  unfold enabled, do_op. intros [-> Ho].
  destruct o as [m | m | | s n | | b | | | | new | pl ps r]; try (eexists _, _; reflexivity).
  - rewrite Ho. eexists _, _; reflexivity.
  - rewrite Ho, Nat.eqb_refl. eexists _, _; reflexivity.
  - destruct (watchdog σ) as [w |]; [| contradiction]. eexists _, _; reflexivity.
  - destruct (watchdog σ) as [w |]; [| contradiction].
    destruct (MaybeLoadNewRegion w) as [[|] w']; eexists _, _; reflexivity.
Qed.

Definition held_after (o : op) (h : mutex -> bool) : mutex -> bool :=
  match o with
  | Lock m => fun m' => if decide (m' = m) then true else h m'
  | Unlock m => fun m' => if decide (m' = m) then false else h m'
  | _ => h
  end.

Lemma held_self (t : tid) (o : op) (σ σ' : state) (a : answer o) (m : mutex) :
  do_op t o σ = Some (a, σ') ->
  held σ' t m = held_after o (held σ t) m.
Proof.
  intros Hop. destruct (do_op_effect _ _ _ Hop) as (_ & Hown & _).
  unfold held. rewrite Hown.
  destruct o; cbn [owner_after held_after]; try reflexivity;
    destruct (decide _); try reflexivity. apply Nat.eqb_refl.
Qed.

Lemma held_other (t t' : tid) (o : op) (σ σ' : state) (a : answer o) (m : mutex) :
  do_op t o σ = Some (a, σ') ->
  t' <> t ->
  held σ' t' m = held σ t' m.
Proof.
  intros Hop Hne. destruct (do_op_effect _ _ _ Hop) as ([_ Hen] & Hown & _).
  unfold held. rewrite Hown.
  assert (Hneq : Nat.eqb t t' = false) by (apply Nat.eqb_neq; congruence).
  destruct o; cbn [owner_after]; try reflexivity;
    destruct (decide _) as [-> |]; try reflexivity; rewrite Hen.
  - exact Hneq.
  - symmetry. exact Hneq.
Qed.

Lemma balance_after (t t' : tid) (o : op) (σ σ' : state) (a : answer o) :
  do_op t o σ = Some (a, σ') ->
  balance t' (log σ') =
  (if Nat.eqb t t' then store_delta o else 0) + balance t' (log σ).
Proof.
  intros Hop. destruct (do_op_effect _ _ _ Hop) as (_ & _ & (e & -> & He) & _).
  cbn [balance fst snd]. rewrite He. reflexivity.
Qed.

(** Every step of every thread keeps the discipline. *)
Lemma step_request_invariant {R : Type} (t : tid) (c : state * list (prog R)) :
  request_invariant c -> request_invariant (step t c).
Proof.
  destruct c as [σ pool]. intros Hinv. unfold step. cbn [fst snd].
  destruct (pool !! t) as [[r | o k] |] eqn:Hl; try exact Hinv.
  destruct (do_op t o σ) as [[a σ'] |] eqn:Hop; [| exact Hinv].
  destruct Hinv as [Hord Hown Hlog Hbal]. cbn [fst snd] in *.
  pose proof (Hord t _ Hl) as Ht. unfold orderly_in in Ht. cbn [orderly] in Ht.
  pose proof (lookup_lt_Some _ _ _ Hl) as Hlt.
  destruct (do_op_effect _ _ _ Hop) as ([_ Hen] & Hown' & (e & Hlog' & He) & _).
  assert (Hself : balance t (log σ') = store_delta o + balance t (log σ))
    by (rewrite (@balance_after t t o σ σ' a Hop), Nat.eqb_refl; reflexivity).
  assert (Hothers : forall t', t' <> t -> balance t' (log σ') = balance t' (log σ)).
  { intros t' Hne. rewrite (@balance_after t t' o σ σ' a Hop).
    assert (Hneq : Nat.eqb t t' = false) by (apply Nat.eqb_neq; congruence).
    rewrite Hneq. lia. }
  split; cbn [fst snd].
  - intros t' p' Hp'.
    destruct (Nat.eq_dec t t') as [<- | Hne].
    + apply list_lookup_insert_Some in Hp' as [(_ & <- & _) | (Hne & _)];
        [| contradiction].
      unfold orderly_in. rewrite !(@held_self t o σ σ' a _ Hop), Hself.
      clear Hl Hown' Hlog' He Hen Hop Hothers Hself.
      destruct o as [m | m | | s n | | b | | | | new | pl ps r];
        cbn [order_rule held_after store_delta answer] in *.
      * destruct m, a; repeat (destruct (decide _); try congruence);
          replace (0 + balance t (log σ)) with (balance t (log σ)) by lia;
          conjuncts.
      * destruct m, a; repeat (destruct (decide _); try congruence);
          replace (0 + balance t (log σ)) with (balance t (log σ)) by lia;
          conjuncts.
      * destruct Ht as [_ Ht]. replace (0 + balance t (log σ)) with (balance t (log σ)) by lia.
        apply Ht.
      * destruct Ht as (_ & _ & Ht). destruct a. exact Ht.
      * destruct Ht as [_ Ht]. replace (0 + balance t (log σ)) with (balance t (log σ)) by lia.
        apply Ht.
      * destruct Ht as [_ Ht]. replace (0 + balance t (log σ)) with (balance t (log σ)) by lia.
        destruct a. exact Ht.
      * destruct Ht as [_ Ht]. replace (0 + balance t (log σ)) with (balance t (log σ)) by lia.
        destruct a. exact Ht.
      * destruct Ht as [_ Ht]. replace (0 + balance t (log σ)) with (balance t (log σ)) by lia.
        apply Ht.
      * destruct Ht as [_ Ht]. replace (0 + balance t (log σ)) with (balance t (log σ)) by lia.
        apply Ht.
      * destruct Ht as [_ Ht]. replace (0 + balance t (log σ)) with (balance t (log σ)) by lia.
        destruct a. exact Ht.
      * destruct Ht as (_ & _ & _ & Ht).
        replace (0 + balance t (log σ)) with (balance t (log σ)) by lia. apply Ht.
    + rewrite list_lookup_insert_ne in Hp' by assumption.
      unfold orderly_in.
      rewrite !(fun m => @held_other t t' o σ σ' a m Hop) by congruence.
      rewrite Hothers by congruence. apply (Hord t' p' Hp').
  - intros m t' Hm. rewrite length_insert. rewrite Hown' in Hm.
    destruct o; cbn [owner_after] in Hm; try (apply (Hown m t' Hm));
      destruct (decide _); try (apply (Hown m t' Hm)); congruence.
  - intros t'. rewrite length_insert. intros Hge.
    rewrite Hothers by lia. apply Hlog, Hge.
  - intros t'. destruct (Nat.eq_dec t' t) as [-> | Hne].
    + rewrite Hself. specialize (Hbal t).
      destruct o as [m | m | | s n | | b | | | | new | pl ps r];
        cbn [order_rule store_delta] in *; try lia.
      destruct Ht as (_ & Hb & _). rewrite Hb. destruct s; cbn [delta]; lia.
    + rewrite Hothers by assumption. apply Hbal.
Qed.

Lemma run_request_invariant {R : Type} (sched : list tid) (c : state * list (prog R)) :
  request_invariant c -> request_invariant (run sched c).
Proof.
  unfold run. revert c. induction sched as [| t sched IH]; intros c Hinv.
  - exact Hinv.
  - cbn [fold_left]. apply IH, step_request_invariant, Hinv.
Qed.

(** Walking through a program under a discipline. *)
Ltac walk :=
  repeat first
    [ split; [repeat split; reflexivity |]
    | intros ?
    | progress cbn [bind orderly order_rule disciplined op_rule delta non_null]
    | match goal with
      | |- context [if ?b then _ else _] => destruct b
      | |- context [match ?x with Some _ => _ | None => _ end] => destruct x
      end ].

(** A call of one of the six entry points of an engine, with its
    arguments. *)
Inductive query (e : Engine) : Type :=
| route_query (ps : ParameterT (route_plugin e)) (r : ResultT (route_plugin e))
| table_query (ps : ParameterT (table_plugin e)) (r : ResultT (table_plugin e))
| nearest_query (ps : ParameterT (nearest_plugin e)) (r : ResultT (nearest_plugin e))
| trip_query (ps : ParameterT (trip_plugin e)) (r : ResultT (trip_plugin e))
| match_query (ps : ParameterT (match_plugin e)) (r : ResultT (match_plugin e))
| tile_query (ps : ParameterT (tile_plugin e)) (r : ResultT (tile_plugin e)).

Arguments route_query {e} ps r.
Arguments table_query {e} ps r.
Arguments nearest_query {e} ps r.
Arguments trip_query {e} ps r.
Arguments match_query {e} ps r.
Arguments tile_query {e} ps r.

(** What the thread that serves a query runs: the entry point, of which
    it keeps the status. *)
Definition entry_point (e : Engine) (q : query e) : prog Status :=
  match q with
  | route_query ps r => x <- Route e ps r ;; Ret x.1
  | table_query ps r => x <- Table e ps r ;; Ret x.1
  | nearest_query ps r => x <- Nearest e ps r ;; Ret x.1
  | trip_query ps r => x <- Trip e ps r ;; Ret x.1
  | match_query ps r => x <- Match e ps r ;; Ret x.1
  | tile_query ps r => x <- Tile e ps r ;; Ret x.1
  end.

Arguments entry_point e q : clear implicits.

(** The threads of a server: thread [t] serves the query [t] of the
    list. *)
Definition serving (e : Engine) (qs : list (query e)) : list (prog Status) :=
  map (entry_point e) qs.

Arguments serving e qs : clear implicits.

(** Every entry point follows the discipline of a request, with a lock or
    without. *)
Lemma orderly_entry_point (e : Engine) (q : query e) :
  orderly false false false 0 (entry_point e q).
Proof.
  unfold entry_point, Route, Table, Nearest, Trip, Match, Tile, RunQuery,
    IncreaseQueryCount, update_facade, DecreaseQueryCount,
    BOOST_ASSERT, lock, unlock, load, store, notify_all, call.
  destruct q; destruct (lock_ e) as [l |]; walk; repeat split; reflexivity.
Qed.

Lemma disciplined_entry_point (e : Engine) (q : query e) (c : Z) :
  disciplined false c (entry_point e q).
Proof.
  unfold entry_point, Route, Table, Nearest, Trip, Match, Tile, RunQuery,
    IncreaseQueryCount, update_facade, DecreaseQueryCount,
    BOOST_ASSERT, lock, unlock, load, store, notify_all, call.
  destruct q; destruct (lock_ e) as [l |]; walk; repeat split; reflexivity.
Qed.

(** The admissions not yet released are those of the threads, one by
    one. *)
Fixpoint sum_balance (n : nat) (l : list (tid * event)) : Z :=
  match n with
  | O => 0
  | S n' => balance n' l + sum_balance n' l
  end.

Lemma sum_balance_cons (n : nat) (e : tid * event) (l : list (tid * event)) :
  sum_balance n (e :: l) =
  (if (e.1 <? n)%nat
   then match e.2 with EvStore s _ => delta s | _ => 0 end
   else 0) + sum_balance n l.
Proof.
  induction n as [| n IH]; [reflexivity |].
  cbn [sum_balance balance]. rewrite IH.
  destruct (Nat.eqb_spec e.1 n), (Nat.ltb_spec e.1 n), (Nat.ltb_spec e.1 (S n));
    lia.
Qed.

Lemma in_flight_sum_balance (n : nat) (l : list (tid * event)) :
  (forall e, In e l -> (e.1 < n)%nat) -> in_flight l = sum_balance n l.
Proof.
  induction l as [| [t e] l IH]; intros Hbound.
  - induction n as [| n IHn]; [reflexivity |].
    cbn [sum_balance balance]. rewrite <- IHn by (intros e []). reflexivity.
  - rewrite sum_balance_cons, in_flight_cons. cbn [fst snd].
    rewrite <- IH by (intros e' He'; apply Hbound; right; exact He').
    assert (Hlt : (t < n)%nat) by (apply (Hbound (t, e)); left; reflexivity).
    apply Nat.ltb_lt in Hlt. rewrite Hlt.
    destruct e as [ | | | s x | | | | | | | ]; try destruct s; cbn; lia.
Qed.

Lemma sum_balance_bounds (n : nat) (l : list (tid * event)) :
  (forall t, 0 <= balance t l <= 1) -> 0 <= sum_balance n l <= Z.of_nat n.
Proof.
  intros Hbal. induction n as [| n IH]; cbn [sum_balance]; [lia |].
  specialize (Hbal n). lia.
Qed.

Lemma sum_balance_zero (n : nat) (l : list (tid * event)) :
  (forall t, (t < n)%nat -> balance t l = 0) -> sum_balance n l = 0.
Proof.
  induction n as [| n IH]; intros Hzero; cbn [sum_balance]; [reflexivity |].
  rewrite IH by (intros t Ht; apply Hzero; lia).
  rewrite Hzero by lia. reflexivity.
Qed.

Lemma tids_bounded (l : list (tid * event)) :
  exists n, forall e, In e l -> (e.1 < n)%nat.
Proof.
  induction l as [| e l [n Hn]].
  - exists 0%nat. intros e [].
  - exists (Nat.max (S e.1) n). intros e' [<- | He']; [lia |].
    specialize (Hn _ He'). lia.
Qed.

Lemma sum_balance_extend (n k : nat) (l : list (tid * event)) :
  (forall t, (n <= t)%nat -> balance t l = 0) ->
  sum_balance (k + n) l = sum_balance n l.
Proof.
  intros Hzero. induction k as [| k IH]; [reflexivity |].
  cbn [Nat.add sum_balance]. rewrite IH, Hzero by lia. reflexivity.
Qed.

(** Threads that have admitted nothing, or released all they have, do not
    count. *)
Lemma in_flight_pool (n : nat) (l : list (tid * event)) :
  (forall t, (n <= t)%nat -> balance t l = 0) -> in_flight l = sum_balance n l.
Proof.
  intros Hzero. destruct (tids_bounded l) as [k Hk].
  rewrite <- (@sum_balance_extend n k l Hzero).
  apply in_flight_sum_balance. intros e He. specialize (Hk _ He). lia.
Qed.

(** An engine with no request under way: free mutexes, no query counted,
    and every admission there has been released. *)
Record at_rest (σ : state) : Prop := {
  rest_free : forall m, owner σ m = None;
  rest_count : number_of_queries σ = 0;
  rest_balance : forall t, balance t (log σ) = 0
}.

Lemma held_at_rest (σ : state) (t : tid) (m : mutex) :
  at_rest σ -> held σ t m = false.
Proof. intros Hrest. unfold held. rewrite (rest_free Hrest). reflexivity. Qed.

Lemma serving_invariant (e : Engine) (qs : list (query e)) (σ : state) :
  at_rest σ -> request_invariant (σ, serving e qs).
Proof.
  intros Hrest. split; cbn [fst snd].
  - intros t p Hp. apply list_lookup_fmap_Some in Hp as (q & -> & _).
    unfold orderly_in. rewrite !(held_at_rest _ _ Hrest), (rest_balance Hrest).
    apply orderly_entry_point.
  - intros m t Hm. rewrite (rest_free Hrest) in Hm. discriminate.
  - intros t _. apply (rest_balance Hrest).
  - intros t. rewrite (rest_balance Hrest). lia.
Qed.

Lemma serving_gate_invariant (e : Engine) (qs : list (query e)) (σ : state) :
  0 < int_bits -> at_rest σ -> gate_invariant (σ, serving e qs).
Proof.
  intros Hbits Hrest. split; cbn [fst snd].
  - intros t p Hp. apply list_lookup_fmap_Some in Hp as (q & -> & _).
    rewrite holds_free by apply (rest_free Hrest). apply disciplined_entry_point.
  - rewrite (rest_count Hrest).
    rewrite (@in_flight_pool 0 (log σ)) by (intros t _; apply (rest_balance Hrest)).
    cbn [sum_balance].
    symmetry. apply wrap_small; [assumption |].
    pose proof (Z.pow_pos_nonneg 2 (int_bits - 1)). lia.
Qed.

Lemma held_true_owner (σ : state) (t : tid) (m : mutex) :
  held σ t m = true -> owner σ m = Some t.
Proof.
  unfold held. destruct (owner σ m) as [t' |]; [| discriminate].
  intros Heq. apply Nat.eqb_eq in Heq. congruence.
Qed.

Lemma owner_held (σ : state) (t : tid) (m : mutex) :
  owner σ m = Some t -> held σ t m = true.
Proof. unfold held. intros ->. apply Nat.eqb_refl. Qed.

Lemma length_step {R : Type} (t : tid) (c : state * list (prog R)) :
  length (step t c).2 = length c.2.
Proof.
  unfold step. destruct (c.2 !! t) as [[r | o k] |]; try reflexivity.
  destruct (do_op t o c.1) as [[a σ'] |]; [| reflexivity].
  cbn [snd]. apply length_insert.
Qed.

Lemma length_run {R : Type} (sched : list tid) (c : state * list (prog R)) :
  length (run sched c).2 = length c.2.
Proof.
  unfold run. revert c. induction sched as [| t sched IH]; intros c.
  - reflexivity.
  - cbn [fold_left]. rewrite IH. apply length_step.
Qed.

Lemma watchdog_step {R : Type} (t : tid) (c : state * list (prog R)) :
  watchdog c.1 <> None -> watchdog (step t c).1 <> None.
Proof.
  intros Hw. unfold step. destruct (c.2 !! t) as [[r | o k] |]; try exact Hw.
  destruct (do_op t o c.1) as [[a σ'] |] eqn:Hop; [| exact Hw].
  cbn [fst]. destruct (do_op_effect _ _ _ Hop) as (_ & _ & _ & Hkeep). auto.
Qed.

Lemma watchdog_run {R : Type} (sched : list tid) (c : state * list (prog R)) :
  watchdog c.1 <> None -> watchdog (run sched c).1 <> None.
Proof.
  unfold run. revert c. induction sched as [| t sched IH]; intros c Hw.
  - exact Hw.
  - cbn [fold_left]. apply IH, watchdog_step, Hw.
Qed.

(** The operations on the counter and its condition, and those on the
    watchdog and on the ownership of the engine's facade. *)
Definition uses_counter (o : op) : bool :=
  match o with
  | Load | Store _ _ | NotifyAll => true
  | _ => false
  end.

Definition updates_facade (o : op) : bool :=
  match o with
  | UseCount | CallHasNewRegion | CallMaybeLoadNewRegion | MoveFacade _ => true
  | _ => false
  end.

(** X6. Threads serving queries on one engine, in any interleaving of
    their operations: a thread that is about to read or write
    [number_of_queries], or to notify its condition, holds [query_mutex],
    and a thread that is about to ask the watchdog, to count the owners of
    the facade or to exchange it holds [facade_update_mutex]. *)
Theorem shared_data_used_under_its_mutex (e : Engine)
    (qs : list (query e)) (sched : list tid)
    (σ0 : state) (t : tid) (o : op)
    (k : answer o -> prog Status) :
  at_rest σ0 ->
  let c := run sched (σ0, serving e qs) in
  c.2 !! t = Some (Vis o k) ->
  (uses_counter o = true -> owner c.1 query_mutex = Some t) /\
  (updates_facade o = true -> owner c.1 facade_update_mutex = Some t).
Proof.
  intros Hrest c Hp.
  pose proof (run_request_invariant sched (serving_invariant qs Hrest))
    as Hinv.
  fold c in Hinv. pose proof (inv_orderly Hinv _ Hp) as Ht.
  unfold orderly_in in Ht. cbn [orderly] in Ht.
  split; intros Huses; apply held_true_owner;
    destruct o; try discriminate; cbn [order_rule] in Ht; conjuncts.
Qed.

(** X7. Threads serving queries on one engine, in any interleaving: a
    thread that is about to call the plugin holds no mutex, and a thread
    that has returned holds no mutex and has released the admission it
    took. *)
Theorem plugin_called_without_mutex (e : Engine)
    (qs : list (query e)) (sched : list tid)
    (σ0 : state) (t : tid) (p : prog Status) :
  at_rest σ0 ->
  let c := run sched (σ0, serving e qs) in
  c.2 !! t = Some p ->
  (forall pl ps r k, p = Vis (CallHandleRequest pl ps r) k ->
     forall m, owner c.1 m <> Some t) /\
  (forall r, p = Ret r ->
     (forall m, owner c.1 m <> Some t) /\ balance t (log c.1) = 0).
Proof.
  intros Hrest c Hp.
  pose proof (run_request_invariant sched (serving_invariant qs Hrest))
    as Hinv.
  fold c in Hinv. pose proof (inv_orderly Hinv _ Hp) as Ht.
  unfold orderly_in in Ht.
  assert (Hnone : held c.1 t pending_update_mutex = false ->
                  held c.1 t query_mutex = false ->
                  held c.1 t facade_update_mutex = false ->
                  forall m, owner c.1 m <> Some t).
  { intros H1 H2 H3 m Hm. apply owner_held in Hm. destruct m; congruence. }
  split.
  - intros pl ps r k ->. cbn [orderly order_rule] in Ht.
    destruct Ht as (H1 & H2 & H3 & _). auto.
  - intros r ->. cbn [orderly] in Ht.
    destruct Ht as (H1 & H2 & H3 & Hb). auto.
Qed.

(** An operation a thread is about to perform under its discipline goes
    ahead unless it is the taking of a mutex that is not free. *)
Lemma orderly_enabled {R : Type} (σ : state) (t : tid) (o : op)
    (k : answer o -> prog R) :
  aborted σ = false -> watchdog σ <> None ->
  orderly_in σ t (Vis o k) ->
  (forall m, o = Lock m -> owner σ m = None) ->
  enabled t o σ.
Proof.
  intros Hab Hw Ht Hfree. unfold orderly_in in Ht. cbn [orderly] in Ht.
  split; [exact Hab |].
  destruct o as [m | m | | s n | | b | | | | new | pl ps r]; try exact I;
    try exact Hw.
  - apply Hfree. reflexivity.
  - apply held_true_owner. destruct m; cbn [order_rule] in Ht; conjuncts.
Qed.

(** Some thread of a pool that has not finished, with what it is about to
    do. *)
Lemma pool_unfinished {R : Type} (pool : list (prog R)) :
  (forall t p, pool !! t = Some p -> exists r, p = Ret r) \/
  (exists t o k, pool !! t = Some (Vis o k)).
Proof.
  induction pool as [| p pool IH].
  - left. intros t p Hp. discriminate.
  - destruct p as [r | o k].
    + destruct IH as [Hall | (t & o & k & Hp)].
      * left. intros [| t] p Hp; cbn in Hp.
        -- injection Hp as <-. eauto.
        -- eauto.
      * right. exists (S t), o, k. exact Hp.
    + right. exists 0%nat, o, k. reflexivity.
Qed.

(** The operation a program is about to perform. *)
Definition next_op {R : Type} (p : prog R) : option op :=
  match p with
  | Ret _ => None
  | Vis o _ => Some o
  end.

Lemma next_op_Some {R : Type} (p : option (prog R)) (o : op) :
  from_option next_op None p = Some o -> exists k, p = Some (Vis o k).
Proof.
  destruct p as [[r | o' k] |]; cbn [from_option next_op]; intros H;
    try discriminate.
  injection H as ->. exists k. reflexivity.
Qed.

(** A pool has finished, or one of its threads can perform its next
    operation. *)
Definition progress {R : Type} (c : state * list (prog R)) : Prop :=
  (forall t p, c.2 !! t = Some p -> exists r, p = Ret r) \/
  (exists t o k, c.2 !! t = Some (Vis o k) /\
     exists a σ', do_op t o c.1 = Some (a, σ')).

(** Under the discipline of requests the mutexes are taken in one order,
    and the thread that holds the last one taken can go on. *)
Lemma orderly_progress {R : Type} (c : state * list (prog R)) :
  request_invariant c -> aborted c.1 = false -> watchdog c.1 <> None ->
  progress c.
Proof.
  intros Hinv Hab Hw.
  assert (Hholder : forall m t, owner c.1 m = Some t ->
            exists p, c.2 !! t = Some p /\ orderly_in c.1 t p /\
                      held c.1 t m = true).
  { intros m t Hm. pose proof (inv_owner Hinv m Hm) as Hlt.
    apply lookup_lt_is_Some_2 in Hlt as [p Hp].
    exists p. split; [exact Hp |]. split; [apply (inv_orderly Hinv), Hp |].
    apply owner_held, Hm. }
  assert (Hgo : forall t o k, c.2 !! t = Some (Vis o k) ->
            (forall m, o = Lock m -> owner c.1 m = None) ->
            exists t o k, c.2 !! t = Some (Vis o k) /\
              exists a σ', do_op t o c.1 = Some (a, σ')).
  { intros t o k Hp Hfree. exists t, o, k. split; [exact Hp |].
    apply enabled_do_op, (@orderly_enabled _ c.1 t o k Hab Hw); [| exact Hfree].
    apply (inv_orderly Hinv), Hp. }
  destruct (owner c.1 query_mutex) as [tq |] eqn:Hq.
  { right. destruct (Hholder _ _ Hq) as (p & Hp & Ht & Hheld).
    unfold orderly_in in Ht. rewrite Hheld in Ht.
    destruct p as [r | o k]; cbn [orderly] in Ht.
    - destruct Ht as (_ & Hno & _). discriminate.
    - apply (Hgo _ _ _ Hp). intros m ->.
      destruct m; cbn [order_rule] in Ht; conjuncts. }
  destruct (owner c.1 facade_update_mutex) as [tf |] eqn:Hf.
  { right. destruct (Hholder _ _ Hf) as (p & Hp & Ht & Hheld).
    unfold orderly_in in Ht. rewrite Hheld in Ht.
    destruct p as [r | o k]; cbn [orderly] in Ht.
    - destruct Ht as (_ & _ & Hno & _). discriminate.
    - apply (Hgo _ _ _ Hp). intros m ->.
      destruct m; cbn [order_rule] in Ht; conjuncts. }
  destruct (owner c.1 pending_update_mutex) as [tp |] eqn:Hpe.
  { right. destruct (Hholder _ _ Hpe) as (p & Hp & Ht & Hheld).
    unfold orderly_in in Ht. rewrite Hheld in Ht.
    destruct p as [r | o k]; cbn [orderly] in Ht.
    - destruct Ht as (Hno & _). discriminate.
    - apply (Hgo _ _ _ Hp). intros m ->.
      destruct m; cbn [order_rule] in Ht; [conjuncts | exact Hq |
        conjuncts]. }
  destruct (pool_unfinished c.2) as [Hall | (t & o & k & Hp)]; [left; exact Hall |].
  right. apply (Hgo _ _ _ Hp). intros m _. destruct m; assumption.
Qed.

(** Without a lock a thread calls its plugin and returns. *)
Definition direct_rule (o : op) : (answer o -> Prop) -> Prop :=
  match o as o0 return (answer o0 -> Prop) -> Prop with
  | CallHandleRequest _ _ _ => fun next => forall a, next a
  | _ => fun _ => False
  end.

Definition direct {R : Type} (p : prog R) : Prop :=
  match p with
  | Ret _ => True
  | Vis o k => direct_rule o (fun a => exists r, k a = Ret r)
  end.

Lemma direct_entry_point (e : Engine) (q : query e) :
  lock_ e = None -> direct (entry_point e q).
Proof.
  intros Hlock.
  unfold entry_point, Route, Table, Nearest, Trip, Match, Tile, RunQuery, call.
  rewrite Hlock. destruct q; cbn [bind direct direct_rule]; intros a; eauto.
Qed.

Lemma step_direct {R : Type} (t : tid) (c : state * list (prog R)) :
  (forall t' p, c.2 !! t' = Some p -> direct p) ->
  forall t' p, (step t c).2 !! t' = Some p -> direct p.
Proof.
  intros Hdir. unfold step.
  destruct (c.2 !! t) as [[r | o k] |] eqn:Hl; try exact Hdir.
  destruct (do_op t o c.1) as [[a σ'] |]; [| exact Hdir].
  cbn [snd]. intros t' p Hp.
  destruct (Nat.eq_dec t t') as [<- | Hne].
  - apply list_lookup_insert_Some in Hp as [(_ & <- & _) | (Hne & _)];
      [| contradiction].
    pose proof (Hdir _ _ Hl) as Hk. cbn [direct] in Hk.
    destruct o; cbn [direct_rule] in Hk; try contradiction.
    destruct (Hk a) as [r ->]. exact I.
  - rewrite list_lookup_insert_ne in Hp by assumption. apply (Hdir _ _ Hp).
Qed.

Lemma run_direct {R : Type} (sched : list tid) (c : state * list (prog R)) :
  (forall t p, c.2 !! t = Some p -> direct p) ->
  forall t p, (run sched c).2 !! t = Some p -> direct p.
Proof.
  unfold run. revert c. induction sched as [| t sched IH]; intros c Hdir.
  - exact Hdir.
  - cbn [fold_left]. apply IH, step_direct, Hdir.
Qed.

Lemma direct_progress {R : Type} (c : state * list (prog R)) :
  (forall t p, c.2 !! t = Some p -> direct p) -> aborted c.1 = false ->
  progress c.
Proof.
  intros Hdir Hab.
  destruct (pool_unfinished c.2) as [Hall | (t & o & k & Hp)]; [left; exact Hall |].
  right. exists t, o, k. split; [exact Hp |].
  pose proof (Hdir _ _ Hp) as Hk. cbn [direct] in Hk.
  destruct o; cbn [direct_rule] in Hk; try contradiction.
  unfold do_op. rewrite Hab. eexists _, _. reflexivity.
Qed.

(** X8. Threads serving queries on one engine, whose watchdog is there
    when its lock is, do not deadlock: in every configuration they can
    reach, unless an assertion has stopped the process, either every
    thread has returned or some thread can perform its next operation. *)
Theorem requests_never_deadlock (e : Engine)
    (qs : list (query e)) (sched : list tid)
    (σ0 : state) :
  at_rest σ0 -> (lock_ e <> None -> watchdog σ0 <> None) ->
  let c := run sched (σ0, serving e qs) in
  aborted c.1 = false ->
  (forall t p, c.2 !! t = Some p -> exists r, p = Ret r) \/
  (exists t o k, c.2 !! t = Some (Vis o k) /\
     exists a σ', do_op t o c.1 = Some (a, σ')).
Proof.
  intros Hrest Hw0 c Hab.
  destruct (lock_ e) as [l |] eqn:Hlock.
  - apply orderly_progress; [| exact Hab |].
    + apply run_request_invariant, serving_invariant, Hrest.
    + apply (@watchdog_run _ sched (σ0, serving e qs)), Hw0. discriminate.
  - apply direct_progress; [| exact Hab].
    apply run_direct. cbn [snd]. intros t p Hp.
    apply list_lookup_fmap_Some in Hp as (q & -> & _).
    apply direct_entry_point, Hlock.
Qed.

(** The counter of a pool under both disciplines counts some of its
    threads. *)
Lemma count_bounds {R : Type} (c : state * list (prog R)) :
  0 < int_bits ->
  Z.of_nat (length c.2) <= int_max int_bits ->
  request_invariant c -> gate_invariant c ->
  0 <= number_of_queries c.1 <= Z.of_nat (length c.2).
Proof.
  intros Hbits Hfits Hinv [_ Hcount].
  rewrite (@in_flight_pool (length c.2)) in Hcount by apply (inv_log Hinv).
  pose proof (@sum_balance_bounds (length c.2) _ (inv_balance Hinv)) as Hsum.
  assert (Hmax : int_max int_bits = 2 ^ (int_bits - 1) - 1) by reflexivity.
  rewrite wrap_small in Hcount by (try assumption; lia).
  lia.
Qed.

(** X9. Threads serving queries on one engine, no more of them than an
    [int] counts: in every configuration they can reach
    [number_of_queries] is at least zero and at most the number of
    threads, and it is zero once every thread has returned. *)
Theorem query_count_bounded_by_requests (e : Engine)
    (qs : list (query e)) (sched : list tid)
    (σ0 : state) :
  0 < int_bits ->
  Z.of_nat (length qs) <= int_max int_bits ->
  at_rest σ0 ->
  let c := run sched (σ0, serving e qs) in
  0 <= number_of_queries c.1 <= Z.of_nat (length qs) /\
  ((forall t p, c.2 !! t = Some p -> exists r, p = Ret r) ->
   number_of_queries c.1 = 0).
Proof.
  intros Hbits Hfits Hrest c.
  pose proof (run_request_invariant sched (serving_invariant qs Hrest))
    as Hinv.
  pose proof (run_gate_invariant sched (serving_gate_invariant qs Hbits Hrest))
    as Hgate.
  pose proof (@length_run _ sched (σ0, serving e qs)) as Hlen.
  fold c in Hinv, Hgate, Hlen. cbn [snd] in Hlen.
  unfold serving in Hlen. rewrite length_map in Hlen.
  rewrite <- Hlen in Hfits |- *.
  split; [apply count_bounds; assumption |].
  intros Hall. destruct Hgate as [_ Hcount]. rewrite Hcount.
  rewrite (@in_flight_pool (length c.2)) by apply (inv_log Hinv).
  rewrite sum_balance_zero; [apply wrap_small; [assumption |] |].
  - pose proof (Z.pow_pos_nonneg 2 (int_bits - 1)). lia.
  - intros t Ht. apply lookup_lt_is_Some_2 in Ht as [p Hp].
    destruct (Hall _ _ Hp) as [r ->].
    pose proof (inv_orderly Hinv _ Hp) as Hord.
    unfold orderly_in in Hord. cbn [orderly] in Hord. conjuncts.
Qed.

(** On a barrier found at rest, the constructor leaves its engine at
    rest. *)
Lemma constructed_at_rest (t : tid) (config : EngineConfig) (shm : SharedMemory)
    (b : Barrier) (e : Engine) (σ : state) :
  found_pending_update_mutex b = None ->
  found_query_mutex b = None ->
  found_number_of_queries b = 0 ->
  Engine_new t config shm b = Constructed e σ -> at_rest σ.
Proof.
  intros Hpending Hquery Hcount Hnew.
  destruct (Engine_new_constructed _ _ _ _ Hnew)
    as [(_ & _ & _ & ->) | (_ & _ & _ & produced & w' & _ & _ & ->)].
  - split; [intros []; cbn; assumption || reflexivity | assumption | reflexivity].
  - pose proof (shared_state_fields t shm b w' produced) as Hfields.
    cbv zeta in Hfields.
    destruct Hfields as (Hnum & Hp & Hq & Hf & _).
    split; [intros []; congruence | congruence |].
    unfold shared_state, assert_events.
    destruct produced, NDEBUG;
      intros t'; rewrite ?log_emit;
      cbn [log record set_facade allocate_facade set_watchdog fresh_state
           map rev app balance fst snd];
      destruct (Nat.eqb t t'); reflexivity.
Qed.

(** X10. Threads serving queries on one engine, in any interleaving of
    their operations: a thread that holds [pending_update_mutex] is about
    to take [query_mutex] or to give [pending_update_mutex] back, so that
    the counter is raised, the watchdog asked and the plugin called outside
    that mutex; and no thread holds [query_mutex] and
    [facade_update_mutex] together. *)
Theorem mutexes_nest_only_at_admission (e : Engine)
    (qs : list (query e)) (sched : list tid)
    (σ0 : state) (t : tid) (p : prog Status) :
  at_rest σ0 ->
  let c := run sched (σ0, serving e qs) in
  c.2 !! t = Some p ->
  (owner c.1 pending_update_mutex = Some t ->
     (exists k, p = Vis (Lock query_mutex) k) \/
     (exists k, p = Vis (Unlock pending_update_mutex) k)) /\
  ~ (owner c.1 query_mutex = Some t /\ owner c.1 facade_update_mutex = Some t).
Proof.
  intros Hrest c Hp.
  pose proof (run_request_invariant sched (serving_invariant qs Hrest))
    as Hinv.
  fold c in Hinv. pose proof (inv_orderly Hinv _ Hp) as Ht.
  unfold orderly_in in Ht. split.
  - intros Hpe. apply owner_held in Hpe. rewrite Hpe in Ht.
    destruct p as [r | o k]; cbn [orderly] in Ht; [conjuncts |].
    destruct o as [m | m | | s n | | b | | | | new | pl ps r];
      try destruct m; cbn [order_rule] in Ht; try (conjuncts).
    + left. exists k. reflexivity.
    + right. exists k. reflexivity.
  - intros [Hq Hf]. apply owner_held in Hq, Hf. rewrite Hq, Hf in Ht.
    destruct p as [r | o k]; cbn [orderly] in Ht; [conjuncts |].
    destruct o as [m | m | | s n | | b | | | | new | pl ps r];
      try destruct m; cbn [order_rule andb] in Ht; conjuncts.
Qed.

(** X11. Once every thread serving a query has returned the engine is at
    rest again: every mutex is free, [number_of_queries] is zero, and
    every admission has been released; so what holds of a first round of
    queries holds of every later one. *)
Theorem served_engine_is_at_rest (e : Engine)
    (qs : list (query e)) (sched : list tid) (σ0 : state) :
  0 < int_bits ->
  Z.of_nat (length qs) <= int_max int_bits ->
  at_rest σ0 ->
  let c := run sched (σ0, serving e qs) in
  (forall t p, c.2 !! t = Some p -> exists r, p = Ret r) ->
  at_rest c.1.
Proof.
  intros Hbits Hfits Hrest c Hall.
  pose proof (run_request_invariant sched (serving_invariant qs Hrest))
    as Hinv.
  pose proof (run_gate_invariant sched (serving_gate_invariant qs Hbits Hrest))
    as [_ Hcount].
  fold c in Hinv, Hcount.
  assert (Hreturned : forall t, (t < length c.2)%nat ->
            (forall m, held c.1 t m = false) /\ balance t (log c.1) = 0).
  { intros t Ht. apply lookup_lt_is_Some_2 in Ht as [p Hp].
    destruct (Hall _ _ Hp) as [r ->].
    pose proof (inv_orderly Hinv _ Hp) as Hord.
    unfold orderly_in in Hord. cbn [orderly] in Hord.
    split; [intros []; conjuncts | conjuncts]. }
  assert (Hbal : forall t, balance t (log c.1) = 0).
  { intros t. destruct (Nat.lt_ge_cases t (length c.2)) as [Hlt | Hge].
    - apply Hreturned, Hlt.
    - apply (inv_log Hinv), Hge. }
  split.
  - intros m. destruct (owner c.1 m) as [t |] eqn:Hm; [| reflexivity].
    pose proof (inv_owner Hinv m Hm) as Hlt.
    destruct (Hreturned _ Hlt) as [Hnone _].
    apply owner_held in Hm. rewrite Hnone in Hm. discriminate.
  - rewrite Hcount.
    rewrite (@in_flight_pool 0 (log c.1)) by (intros t _; apply Hbal).
    cbn [sum_balance]. apply wrap_small; [assumption |].
    pose proof (Z.pow_pos_nonneg 2 (int_bits - 1)). lia.
  - exact Hbal.
Qed.

(** What a thread knows of the counter.  [h] says that it holds
    [query_mutex], and then [c] is the counter, which is not negative: what
    the thread loads is the counter, its assertion under the mutex is on a
    counter that is not negative, and it notifies the condition when the
    counter is zero. *)
Definition check_rule (o : op) (h : bool) (c : Z)
  : (answer o -> bool -> Z -> Prop) -> Prop :=
  match o as o0 return (answer o0 -> bool -> Z -> Prop) -> Prop with
  | Lock m => fun next =>
      match m with
      | query_mutex => forall c', 0 <= c' -> next tt true c'
      | _ => next tt h c
      end
  | Unlock m => fun next =>
      match m with
      | query_mutex => forall c', next tt false c'
      | _ => next tt h c
      end
  | Load => fun next => h = true /\ next c h c
  | Store _ n => fun next => h = true /\ (0 <= n -> next tt h n)
  | Assert b => fun next => (h = true -> b = true) /\ next tt h c
  | NotifyAll => fun next => h = true /\ c = 0 /\ next tt h c
  | UseCount => fun next => forall a, next a h c
  | CallHasNewRegion => fun next => forall a, next a h c
  | CallMaybeLoadNewRegion => fun next => forall a, next a h c
  | MoveFacade _ => fun next => next tt h c
  | CallHandleRequest _ _ _ => fun next => forall a, next a h c
  end.

Fixpoint checked {R : Type} (h : bool) (c : Z) (p : prog R) : Prop :=
  match p with
  | Ret _ => True
  | Vis o k => check_rule o h c (fun a h' c' => checked h' c' (k a))
  end.

Definition checked_pool {R : Type} (c : state * list (prog R)) : Prop :=
  forall t p, c.2 !! t = Some p ->
    checked (held c.1 t query_mutex) (number_of_queries c.1) p.

Lemma checked_unheld {R : Type} (p : prog R) (c c' : Z) :
  checked false c p -> checked false c' p.
Proof.
  induction p as [r | o k IH]; [trivial |].
  cbn [checked]. destruct o as [m | m | | s n | | b | | | | new | pl ps r];
    cbn [check_rule]; try destruct m; intros H; try (intros a); eauto;
    try (destruct H as [Hh _]; discriminate).
  destruct H as [Hb H]. split; eauto.
Qed.

(** What an operation does to the counter, and what it answers of it. *)
Lemma do_op_counter (t : tid) (o : op) (σ σ' : state) (a : answer o) :
  do_op t o σ = Some (a, σ') ->
  number_of_queries σ' =
    match o with Store _ n => n | _ => number_of_queries σ end /\
  match o as o0 return answer o0 -> Prop with
  | Load => fun a => a = number_of_queries σ
  | _ => fun _ => True
  end a.
Proof.
  unfold do_op. destruct (aborted σ); [discriminate |].
  destruct o as [m | m | | s n | | b | | | | new | pl ps r]; cbn [answer] in *.
  - destruct (owner σ m); [discriminate |]. intros H; injection H as <- <-. auto.
  - destruct (owner σ m) as [t0 |]; [| discriminate].
    destruct (Nat.eqb t0 t); [| discriminate]. intros H; injection H as <- <-. auto.
  - intros H; injection H as <- <-. auto.
  - intros H; injection H as <- <-. auto.
  - intros H; injection H as <- <-. auto.
  - intros H; injection H as <- <-. destruct b; auto.
  - intros H; injection H as <- <-. auto.
  - destruct (watchdog σ) as [w |]; [| discriminate].
    intros H; injection H as <- <-. auto.
  - destruct (watchdog σ) as [w |]; [| discriminate].
    destruct (MaybeLoadNewRegion w) as [[|] w']; intros H; injection H as <- <-; auto.
  - intros H; injection H as <- <-. auto.
  - intros H; injection H as <- <-. auto.
Qed.

(** Every step keeps what the threads know of the counter, as long as the
    counter is not negative. *)
Lemma step_checked_pool {R : Type} (t : tid) (c : state * list (prog R)) :
  0 <= number_of_queries c.1 ->
  0 <= number_of_queries (step t c).1 ->
  checked_pool c -> checked_pool (step t c).
Proof.
  destruct c as [σ pool]. unfold checked_pool, step. cbn [fst snd].
  intros Hpos Hpos' Hinv.
  destruct (pool !! t) as [[r | o k] |] eqn:Hl; try exact Hinv.
  destruct (do_op t o σ) as [[a σ'] |] eqn:Hop; [| exact Hinv].
  cbn [fst snd] in *.
  pose proof (Hinv t _ Hl) as Ht. cbn [checked] in Ht.
  destruct (do_op_counter _ _ _ Hop) as [Hnum Hans].
  intros t' p' Hp'.
  destruct (Nat.eq_dec t t') as [<- | Hne].
  - apply list_lookup_insert_Some in Hp' as [(_ & <- & _) | (Hne & _)];
      [| contradiction].
    rewrite (@held_self t o σ σ' a _ Hop).
    clear Hl Hop.
    destruct o as [m | m | | s n | | b | | | | new | pl ps r];
      cbn [check_rule held_after answer] in *.
    + destruct m, a; repeat (destruct (decide _); try congruence);
        rewrite Hnum; auto.
    + destruct m, a; repeat (destruct (decide _); try congruence);
        rewrite Hnum; auto.
    + destruct Ht as [Hh Ht]. rewrite Hnum, Hans. exact Ht.
    + destruct Ht as [Hh Ht]. destruct a. rewrite Hnum. apply Ht.
      rewrite <- Hnum. exact Hpos'.
    + rewrite Hnum. apply Ht.
    + destruct Ht as [_ Ht]. destruct a. rewrite Hnum. exact Ht.
    + destruct Ht as (_ & _ & Ht). destruct a. rewrite Hnum. exact Ht.
    + rewrite Hnum. apply Ht.
    + rewrite Hnum. apply Ht.
    + destruct a. rewrite Hnum. exact Ht.
    + rewrite Hnum. apply Ht.
  - rewrite list_lookup_insert_ne in Hp' by assumption.
    rewrite (@held_other t t' o σ σ' a _ Hop) by congruence.
    pose proof (Hinv t' p' Hp') as Ht'.
    destruct (held σ t' query_mutex) eqn:Hheld.
    + assert (Hsame : number_of_queries σ' = number_of_queries σ).
      { rewrite Hnum. destruct o; try reflexivity.
        cbn [check_rule] in Ht. destruct Ht as [Hh _].
        apply held_true_owner in Hh, Hheld. congruence. }
      rewrite Hsame. exact Ht'.
    + apply checked_unheld with (c := number_of_queries σ). exact Ht'.
Qed.

Lemma run_checked_pool {R : Type} (sched : list tid) (c : state * list (prog R)) :
  0 < int_bits ->
  Z.of_nat (length c.2) <= int_max int_bits ->
  request_invariant c -> gate_invariant c ->
  checked_pool c -> checked_pool (run sched c).
Proof.
  intros Hbits. unfold run. revert c.
  induction sched as [| t sched IH]; intros c Hfits Hinv Hgate Hchecked.
  - exact Hchecked.
  - cbn [fold_left].
    pose proof (step_request_invariant t Hinv) as Hinv'.
    pose proof (step_gate_invariant t Hgate) as Hgate'.
    assert (Hfits' : Z.of_nat (length (step t c).2) <= int_max int_bits)
      by (rewrite length_step; exact Hfits).
    apply IH; try assumption.
    apply step_checked_pool; [| | exact Hchecked].
    + apply (count_bounds Hbits Hfits Hinv Hgate).
    + apply (count_bounds Hbits Hfits' Hinv' Hgate').
Qed.

(** Walking through a program that checks the counter. *)
Ltac check_walk :=
  repeat first
    [ progress cbn [bind checked check_rule]
    | intros ?
    | split
    | match goal with
      | |- context [if ?b then _ else _] => destruct b eqn:?
      | |- context [match ?x with Some _ => _ | None => _ end] => destruct x
      end ];
  try (apply Z.leb_le; assumption);
  try (symmetry; apply Z.eqb_eq; assumption);
  try discriminate.

Lemma checked_entry_point (e : Engine) (q : query e) (c : Z) :
  checked false c (entry_point e q).
Proof.
  unfold entry_point, Route, Table, Nearest, Trip, Match, Tile, RunQuery,
    IncreaseQueryCount, update_facade, DecreaseQueryCount,
    BOOST_ASSERT, lock, unlock, load, store, notify_all, call.
  destruct q; destruct (lock_ e) as [l |]; check_walk.
Qed.

(** X12. Threads serving queries on one engine, no more of them than an
    [int] counts, in any interleaving: the assertion a thread checks under
    [query_mutex], that [number_of_queries] is not negative, holds, and a
    thread notifies the condition only when [number_of_queries] is
    zero. *)
Theorem counter_assertion_holds (e : Engine)
    (qs : list (query e)) (sched : list tid) (σ0 : state) (t : tid) :
  0 < int_bits ->
  Z.of_nat (length qs) <= int_max int_bits ->
  at_rest σ0 ->
  let c := run sched (σ0, serving e qs) in
  (forall b k, c.2 !! t = Some (Vis (Assert b) k) ->
     owner c.1 query_mutex = Some t -> b = true) /\
  (forall k, c.2 !! t = Some (Vis NotifyAll k) -> number_of_queries c.1 = 0).
Proof.
  intros Hbits Hfits Hrest c.
  assert (Hchecked : checked_pool c).
  { apply run_checked_pool; cbn [fst snd]; try assumption.
    - unfold serving. rewrite length_map. exact Hfits.
    - apply serving_invariant, Hrest.
    - apply serving_gate_invariant; assumption.
    - intros t' p Hp. apply list_lookup_fmap_Some in Hp as (q & -> & _).
      rewrite (held_at_rest _ _ Hrest). apply checked_entry_point. }
  split.
  - intros b k Hp Hown. pose proof (Hchecked _ _ Hp) as Ht.
    cbn [checked check_rule] in Ht. destruct Ht as [Hb _].
    apply Hb, owner_held, Hown.
  - intros k Hp. pose proof (Hchecked _ _ Hp) as Ht.
    cbn [checked check_rule] in Ht. destruct Ht as (_ & Hzero & _). exact Hzero.
Qed.

(** The status the plugin of a query answers on a facade. *)
Definition status_on (e : Engine) (facade : option handle) (q : query e) : Status :=
  match q with
  | route_query ps r => (HandleRequest (route_plugin e) facade ps r).1
  | table_query ps r => (HandleRequest (table_plugin e) facade ps r).1
  | nearest_query ps r => (HandleRequest (nearest_plugin e) facade ps r).1
  | trip_query ps r => (HandleRequest (trip_plugin e) facade ps r).1
  | match_query ps r => (HandleRequest (match_plugin e) facade ps r).1
  | tile_query ps r => (HandleRequest (tile_plugin e) facade ps r).1
  end.

Arguments status_on e facade q : clear implicits.

(** The threads of an engine without a lock have changed nothing but the
    log, and each has still to start or has returned what its plugin
    answers on the engine's facade. *)
Record untouched (e : Engine) (qs : list (query e)) (σ0 : state)
    (c : state * list (prog Status)) : Prop := {
  same_count : number_of_queries c.1 = number_of_queries σ0;
  same_owner : forall m, owner c.1 m = owner σ0 m;
  same_facade : query_data_facade c.1 = query_data_facade σ0;
  same_length : length c.2 = length qs;
  own_answer : forall (t : tid) q, qs !! t = Some q ->
    c.2 !! t = Some (entry_point e q) \/
    c.2 !! t = Some (Ret (status_on e (query_data_facade σ0) q))
}.

Lemma step_untouched (e : Engine) (qs : list (query e)) (σ0 : state)
    (t : tid) (c : state * list (prog Status)) :
  lock_ e = None -> untouched qs σ0 c -> untouched qs σ0 (step t c).
Proof.
  intros Hlock Hinv. destruct c as [σ pool]. unfold step. cbn [fst snd].
  pose proof Hinv as [Hcount Hown Hfacade Hlen Hans]. cbn [fst snd] in *.
  destruct (qs !! t) as [q |] eqn:Hq.
  - destruct (Hans _ _ Hq) as [Hstart | Hdone]; [| rewrite Hdone; exact Hinv].
    assert (Hlt : (t < length pool)%nat)
      by (apply lookup_lt_Some with (x := entry_point e q); exact Hstart).
    assert (Hrest : forall σ' (r : Status),
              number_of_queries σ' = number_of_queries σ ->
              (forall m, owner σ' m = owner σ m) ->
              query_data_facade σ' = query_data_facade σ ->
              r = status_on e (query_data_facade σ) q ->
              untouched qs σ0 (σ', <[t := Ret r]> pool)).
    { intros σ' r Hc Ho Hf ->. split; cbn [fst snd].
      - congruence.
      - intros m. rewrite Ho. apply Hown.
      - congruence.
      - rewrite length_insert. exact Hlen.
      - intros t' q' Hq'. destruct (Nat.eq_dec t t') as [<- | Hne].
        + right. rewrite list_lookup_insert_eq by exact Hlt.
          assert (q' = q) by congruence. subst q'.
          rewrite Hfacade. reflexivity.
        + rewrite list_lookup_insert_ne by assumption. apply Hans, Hq'. }
    rewrite Hstart.
    unfold entry_point, Route, Table, Nearest, Trip, Match, Tile, RunQuery, call.
    rewrite Hlock. unfold do_op.
    destruct (aborted σ); [destruct q; exact Hinv |].
    destruct q; cbn [bind]; apply Hrest; reflexivity.
  - assert (Hnone : pool !! t = None).
    { apply lookup_ge_None. rewrite Hlen. apply lookup_ge_None, Hq. }
    rewrite Hnone. exact Hinv.
Qed.

(** X13. On an engine without a lock, threads serving queries in any
    interleaving do not interfere: they take no mutex and leave
    [number_of_queries] and the facade alone, and every thread has still
    to start or has returned the status its own plugin answers on the
    engine's facade. *)
Theorem standalone_queries_do_not_interfere (e : Engine)
    (qs : list (query e)) (sched : list tid) (σ0 : state) :
  lock_ e = None ->
  let c := run sched (σ0, serving e qs) in
  number_of_queries c.1 = number_of_queries σ0 /\
  (forall m, owner c.1 m = owner σ0 m) /\
  query_data_facade c.1 = query_data_facade σ0 /\
  (forall t q, qs !! t = Some q ->
     c.2 !! t = Some (entry_point e q) \/
     c.2 !! t = Some (Ret (status_on e (query_data_facade σ0) q))).
Proof.
  intros Hlock c.
  assert (Hinv : untouched qs σ0 c).
  { subst c. unfold run.
    assert (H0 : untouched qs σ0 (σ0, serving e qs)).
    { split; cbn [fst snd]; try reflexivity.
      - unfold serving. apply length_map.
      - intros t q Hq. left. unfold serving.
        apply list_lookup_fmap_Some. exists q. split; [reflexivity | exact Hq]. }
    revert H0. generalize (σ0, serving e qs).
    induction sched as [| t sched IH]; intros c0 H0; [exact H0 |].
    cbn [fold_left]. apply IH, step_untouched; assumption. }
  destruct Hinv as [Hcount Hown Hfacade _ Hans]. auto.
Qed.



(** *** A plugin that throws *)

(** [HandleRequest] is a function: it stands for a call of the plugin that
    returns, with whatever status.  A C++ exception out of that call leaves
    [RunQuery] at line 133, for lines 89-137 have no handler; no lock
    object is alive there, so that unwinding touches nothing of the gate.
    [exec_raising raises] is the run of one thread where the plugin throws
    on the calls [raises] names. *)
Inductive completion (R : Type) : Type :=
| Returned (r : R)      (* the program ran to its end *)
| Raised                (* an exception left it at the call of the plugin *)
| Halted.               (* the thread waits, or the process was aborted *)

Arguments Returned {R} r.
Arguments Raised {R}.
Arguments Halted {R}.

Definition throws (raises : forall plugin : Plugin, ParameterT plugin -> bool)
    (o : op) : bool :=
  match o with
  | CallHandleRequest plugin parameters _ => raises plugin parameters
  | _ => false
  end.

Fixpoint exec_raising {R : Type}
    (raises : forall plugin : Plugin, ParameterT plugin -> bool)
    (t : tid) (p : prog R) (σ : state) : state * completion R :=
  match p with
  | Ret r => (σ, Returned r)
  | Vis o k =>
      if throws raises o && negb (aborted σ) then (σ, Raised)
      else match do_op t o σ with
           | Some (a, σ') => exec_raising raises t (k a) σ'
           | None => (σ, Halted)
           end
  end.

(** Where the plugin never throws, this is [exec]. *)
Lemma exec_raising_never {R : Type} (t : tid) (p : prog R) (σ : state) :
  exec_raising (fun _ _ => false) t p σ =
  ((exec t p σ).1,
   match (exec t p σ).2 with Some r => Returned r | None => Halted end).
Proof.
  revert σ. induction p as [r | o k IH]; intros σ; cbn [exec_raising exec].
  - reflexivity.
  - assert (Hnever : throws (fun _ _ => false) o = false) by (destruct o; reflexivity).
    rewrite Hnever. cbn [andb].
    destruct (do_op t o σ) as [[a σ'] |]; [apply IH | reflexivity].
Qed.

(** *** Calls of the gate, one after the other *)

Lemma lookup_In {A : Type} (l : list A) (i : nat) (x : A) :
  l !! i = Some x -> In x l.
Proof. intros H. apply list_elem_of_In. eapply list_elem_of_lookup_2. exact H. Qed.

Lemma In_lookup {A : Type} (l : list A) (x : A) :
  In x l -> exists i, l !! i = Some x.
Proof. intros H. apply list_elem_of_lookup, list_elem_of_In. exact H. Qed.

(** A thread that calls the gate: the calls it has completed, the call it
    is in, if any, with what is left of it, and the calls still to come. *)
Record caller : Type := {
  completed : list gate_call;
  current : option (gate_call * prog unit);
  upcoming : list gate_call
}.

(** A thread that has called nothing yet. *)
Definition arriving (cs : list gate_call) : caller :=
  {| completed := []; current := None; upcoming := cs |}.

(** What the thread has still to run. *)
Definition caller_prog (c : caller) : prog unit :=
  match current c with
  | Some (_, p) => p ;; calls (upcoming c)
  | None => calls (upcoming c)
  end.

(** All the calls of the thread, in order. *)
Definition calls_of (c : caller) : list gate_call :=
  completed c
  ++ match current c with Some (g, _) => [g] | None => [] end
  ++ upcoming c.

(** The call the thread is in or comes to next, what is left of it, and
    the calls after it. *)
Definition next_call (c : caller)
  : option (gate_call * prog unit * list gate_call) :=
  match current c with
  | Some (g, p) => Some (g, p, upcoming c)
  | None =>
      match upcoming c with
      | g :: rest => Some (g, gate g, rest)
      | [] => None
      end
  end.

(** The thread after an operation of its call [g], of which [p] is left:
    the call goes on, or it has returned. *)
Definition advance (c : caller) (g : gate_call) (p : prog unit)
    (rest : list gate_call) : caller :=
  match p with
  | Ret _ => {| completed := completed c ++ [g]; current := None; upcoming := rest |}
  | Vis _ _ => {| completed := completed c; current := Some (g, p); upcoming := rest |}
  end.

(** [call_step t]: thread [t] performs the next primitive of the call it
    is in, or the first one of its next call. *)
Definition call_step (t : tid) (cfg : state * list caller) : state * list caller :=
  match cfg.2 !! t with
  | Some c =>
      match next_call c with
      | Some (g, Vis o k, rest) =>
          match do_op t o cfg.1 with
          | Some (a, σ') => (σ', <[t := advance c g (k a) rest]> cfg.2)
          | None => cfg
          end
      | _ => cfg
      end
  | None => cfg
  end.

Definition call_run (sched : list tid) (cfg : state * list caller)
  : state * list caller :=
  fold_left (fun cfg t => call_step t cfg) sched cfg.

(** How often a call occurs in a list of calls. *)
Fixpoint count_calls (g : gate_call) (cs : list gate_call) : Z :=
  match cs with
  | [] => 0
  | g' :: cs' =>
      match g, g' with
      | Admit, Admit | Release, Release => 1
      | _, _ => 0
      end + count_calls g cs'
  end.

(** What a pool adds up to. *)
Definition tally (f : caller -> Z) (pool : list caller) : Z :=
  fold_right (fun c n => f c + n) 0 pool.

(** The calls of [IncreaseQueryCount] that have returned, the calls of
    [DecreaseQueryCount] that have, and those that have begun. *)
Definition admits_completed (c : caller) : Z := count_calls Admit (completed c).

Definition releases_completed (c : caller) : Z := count_calls Release (completed c).

Definition releases_begun (c : caller) : Z :=
  count_calls Release (completed c)
  + match current c with Some (Release, _) => 1 | _ => 0 end.

(** Every [DecreaseQueryCount] is matched by an [IncreaseQueryCount] that
    came before: no more calls of the one have begun than calls of the
    other have returned. *)
Definition matched (pool : list caller) : Prop :=
  tally releases_begun pool <= tally admits_completed pool.

(** A caller is never left in a call that has returned. *)
Definition in_a_call (c : caller) : Prop :=
  match current c with
  | Some (_, Ret _) => False
  | _ => True
  end.

(** The steps of the callers are the steps of their programs. *)
Lemma call_step_project (t : tid) (cfg : state * list caller) :
  (forall c, In c cfg.2 -> in_a_call c) ->
  ((call_step t cfg).1, map caller_prog (call_step t cfg).2)
  = step t (cfg.1, map caller_prog cfg.2).
Proof.
  destruct cfg as [σ pool]. cbn [fst snd]. intros Hwf.
  unfold call_step, step. cbn [fst snd].
  rewrite list_lookup_fmap. unfold tid in *.
  destruct (pool !! t) as [c |] eqn:Hl; cbn [fmap option_fmap option_map];
    [| reflexivity].
  assert (Hc : in_a_call c) by (apply Hwf; eapply lookup_In; eassumption).
  unfold next_call, caller_prog, in_a_call in *.
  destruct (current c) as [[g [r | o k]] |] eqn:Hcur; [contradiction | |].
  - cbn [bind].
    destruct (do_op t o σ) as [[a σ'] |]; [| reflexivity].
    cbn [fst snd]. rewrite list_fmap_insert. f_equal. f_equal.
    unfold advance. destruct (k a); cbn [current upcoming bind]; reflexivity.
  - destruct (upcoming c) as [| g rest] eqn:Hup; [reflexivity |].
    cbn [calls].
    assert (Hgate : exists o k, gate g = Vis o k)
      by (destruct g; cbn [gate]; unfold IncreaseQueryCount, DecreaseQueryCount,
            lock, call; cbn [bind]; eauto).
    destruct Hgate as (o & k & Hgate). rewrite Hgate. cbn [bind].
    destruct (do_op t o σ) as [[a σ'] |]; [| reflexivity].
    cbn [fst snd]. rewrite list_fmap_insert. f_equal. f_equal.
    unfold advance. destruct (k a); cbn [current upcoming bind]; reflexivity.
Qed.

Lemma in_a_call_advance (c : caller) (g : gate_call) (p : prog unit)
    (rest : list gate_call) :
  in_a_call (advance c g p rest).
Proof. destruct p; exact I. Qed.

(** What a call has done to the counter so far: nothing before its store,
    and after it what the call is there for. *)
Definition call_delta (g : gate_call) : Z :=
  match g with
  | Admit => 1
  | Release => -1
  end.

Definition part_rule (g : gate_call) (o : op) (δ : Z)
  : (answer o -> Z -> Prop) -> Prop :=
  match o as o0 return (answer o0 -> Z -> Prop) -> Prop with
  | Store s _ => fun next =>
      δ = 0 /\ delta s = call_delta g /\ next tt (call_delta g)
  | Lock _ => fun next => next tt δ
  | Unlock _ => fun next => next tt δ
  | Assert _ => fun next => next tt δ
  | NotifyAll => fun next => next tt δ
  | MoveFacade _ => fun next => next tt δ
  | Load => fun next => forall a, next a δ
  | UseCount => fun next => forall a, next a δ
  | CallHasNewRegion => fun next => forall a, next a δ
  | CallMaybeLoadNewRegion => fun next => forall a, next a δ
  | CallHandleRequest _ _ _ => fun next => forall a, next a δ
  end.

Fixpoint part (g : gate_call) (δ : Z) (p : prog unit) : Prop :=
  match p with
  | Ret _ => δ = call_delta g
  | Vis o k =>
      (δ = 0 \/ δ = call_delta g) /\
      part_rule g o δ (fun a δ' => part g δ' (k a))
  end.

(** Each call of the gate stores once, and what it is there for. *)
Lemma part_gate (g : gate_call) : part g 0 (gate g).
Proof.
  destruct g; cbn [gate];
    unfold IncreaseQueryCount, DecreaseQueryCount, BOOST_ASSERT,
      lock, unlock, load, store, notify_all, call;
    repeat first
      [ progress cbn [bind part part_rule delta call_delta]
      | intros ?
      | split; [auto; fail |]
      | match goal with
        | |- context [if ?b then _ else _] => destruct b
        end ];
    auto.
Qed.

Definition part_of (cur : option (gate_call * prog unit)) (δ : Z) : Prop :=
  match cur with
  | Some (g, p) => part g δ p
  | None => δ = 0
  end.

(** The calls completed add up to a difference. *)
Definition net (cs : list gate_call) : Z :=
  count_calls Admit cs - count_calls Release cs.

Lemma count_calls_app (g : gate_call) (cs cs' : list gate_call) :
  count_calls g (cs ++ cs') = count_calls g cs + count_calls g cs'.
Proof.
  induction cs as [| g' cs IH]; cbn [app count_calls]; [lia |].
  rewrite IH. lia.
Qed.

Lemma count_calls_nonneg (g : gate_call) (cs : list gate_call) :
  0 <= count_calls g cs.
Proof.
  induction cs as [| g' cs IH]; cbn [count_calls]; [lia |].
  destruct g, g'; lia.
Qed.

Lemma net_snoc (cs : list gate_call) (g : gate_call) :
  net (cs ++ [g]) = net cs + call_delta g.
Proof.
  unfold net. rewrite !count_calls_app. destruct g; cbn; lia.
Qed.

(** What the callers keep true together. *)
Record call_invariant (css : list (list gate_call))
    (cfg : state * list caller) : Prop := {
  ci_in_a_call : forall c, In c cfg.2 -> in_a_call c;
  ci_gate : gate_invariant (cfg.1, map caller_prog cfg.2);
  ci_part : forall t c, cfg.2 !! t = Some c ->
    exists δ, part_of (current c) δ /\
              balance t (log cfg.1) = net (completed c) + δ;
  ci_outside : forall t, (length cfg.2 <= t)%nat -> balance t (log cfg.1) = 0;
  ci_calls : map calls_of cfg.2 = css
}.

Lemma next_call_part (c : caller) (g : gate_call) (p : prog unit)
    (rest : list gate_call) (δ : Z) :
  next_call c = Some (g, p, rest) ->
  part_of (current c) δ ->
  part g δ p /\ calls_of c = completed c ++ g :: rest.
Proof.
  unfold next_call, part_of, calls_of.
  destruct (current c) as [[g' p'] |].
  - intros H; injection H as -> -> ->. auto.
  - destruct (upcoming c) as [| g' rest']; [discriminate |].
    intros H; injection H as -> <- ->. intros ->. split; [apply part_gate |].
    reflexivity.
Qed.

Lemma calls_of_advance (c : caller) (g : gate_call) (p : prog unit)
    (rest : list gate_call) :
  calls_of (advance c g p rest) = completed c ++ g :: rest.
Proof.
  unfold calls_of, advance. destruct p; cbn [completed current upcoming].
  - rewrite <- app_assoc. reflexivity.
  - reflexivity.
Qed.

Lemma step_call_invariant (css : list (list gate_call)) (t : tid)
    (cfg : state * list caller) :
  call_invariant css cfg -> call_invariant css (call_step t cfg).
Proof.
  intros Hinv.
  pose proof (call_step_project t cfg (ci_in_a_call Hinv)) as Hproj.
  pose proof (step_gate_invariant t (ci_gate Hinv)) as Hgate.
  rewrite <- Hproj in Hgate.
  destruct cfg as [σ pool]. unfold call_step in *. cbn [fst snd] in *.
  destruct (pool !! t) as [c |] eqn:Hl; [| exact Hinv].
  destruct (next_call c) as [[[g [r | o k]] rest] |] eqn:Hnext; try exact Hinv.
  destruct (do_op t o σ) as [[a σ'] |] eqn:Hop; [| exact Hinv].
  cbn [fst snd] in *.
  destruct Hinv as [Hwf _ Hpart Hout Hcalls]. cbn [fst snd] in *.
  pose proof (lookup_lt_Some _ _ _ Hl) as Hlt.
  destruct (Hpart _ _ Hl) as (δ & Hδ & Hbal).
  destruct (@next_call_part c g (Vis o k) rest δ Hnext Hδ) as [Hp Hof].
  cbn [part] in Hp. destruct Hp as [_ Hrule].
  assert (Hself : balance t (log σ') = store_delta o + balance t (log σ))
    by (rewrite (@balance_after t t o σ σ' a Hop), Nat.eqb_refl; reflexivity).
  assert (Hothers : forall t', t' <> t -> balance t' (log σ') = balance t' (log σ)).
  { intros t' Hne. rewrite (@balance_after t t' o σ σ' a Hop).
    assert (Hneq : Nat.eqb t t' = false) by (apply Nat.eqb_neq; congruence).
    rewrite Hneq. lia. }
  assert (Hnew : exists δ', part g δ' (k a) /\ δ' = store_delta o + δ).
  { destruct o; cbn [part_rule store_delta answer] in *;
      try (exists δ; split; [first [exact Hrule | apply Hrule] | lia]; fail);
      try (destruct a; exists δ; split; [exact Hrule | lia]; fail).
    destruct Hrule as (-> & Hs & Hk). destruct a.
    exists (call_delta g). split; [exact Hk | lia]. }
  destruct Hnew as (δ' & Hk & Hδ').
  split; cbn [fst snd].
  - intros c' Hin. apply In_lookup in Hin as [i Hi].
    destruct (Nat.eq_dec t i) as [<- | Hne].
    + rewrite list_lookup_insert_eq in Hi by exact Hlt.
      injection Hi as <-. apply in_a_call_advance.
    + rewrite list_lookup_insert_ne in Hi by assumption.
      apply Hwf. eapply lookup_In. exact Hi.
  - exact Hgate.
  - intros t' c' Hc'. destruct (Nat.eq_dec t t') as [<- | Hne].
    + rewrite list_lookup_insert_eq in Hc' by exact Hlt. injection Hc' as <-.
      rewrite Hself, Hbal. unfold advance.
      destruct (k a) as [r | o' k'] eqn:Hka; cbn [completed current part_of].
      * cbn [part] in Hk. exists 0. split; [reflexivity |].
        rewrite net_snoc. lia.
      * exists δ'. split; [exact Hk | lia].
    + rewrite list_lookup_insert_ne in Hc' by assumption.
      rewrite Hothers by congruence. apply Hpart, Hc'.
  - intros t'. rewrite length_insert. intros Hge.
    rewrite Hothers by lia. apply Hout, Hge.
  - rewrite list_fmap_insert, calls_of_advance, <- Hof.
    rewrite list_insert_id; [exact Hcalls |].
    apply list_lookup_fmap_Some. exists c. split; [reflexivity | exact Hl].
Qed.

Lemma run_call_invariant (css : list (list gate_call)) (sched : list tid)
    (cfg : state * list caller) :
  call_invariant css cfg -> call_invariant css (call_run sched cfg).
Proof.
  unfold call_run. revert cfg. induction sched as [| t sched IH]; intros cfg Hinv.
  - exact Hinv.
  - cbn [fold_left]. apply IH, step_call_invariant, Hinv.
Qed.

(** The callers run their programs. *)
Lemma call_run_project (css : list (list gate_call)) (sched : list tid)
    (cfg : state * list caller) :
  call_invariant css cfg ->
  ((call_run sched cfg).1, map caller_prog (call_run sched cfg).2)
  = run sched (cfg.1, map caller_prog cfg.2).
Proof.
  unfold call_run, run. revert cfg.
  induction sched as [| t sched IH]; intros cfg Hinv; [reflexivity |].
  cbn [fold_left]. rewrite (IH _ (step_call_invariant t Hinv)).
  rewrite (call_step_project t cfg (ci_in_a_call Hinv)). reflexivity.
Qed.

Lemma arriving_invariant (css : list (list gate_call)) (σ0 : state) :
  0 < int_bits ->
  owner σ0 query_mutex = None ->
  number_of_queries σ0 = 0 ->
  (forall t, balance t (log σ0) = 0) ->
  call_invariant css (σ0, map arriving css).
Proof.
  intros Hbits Hfree Hzero Hbal. split; cbn [fst snd].
  - intros c Hin. apply in_map_iff in Hin as (cs & <- & _). exact I.
  - split; cbn [fst snd].
    + intros t p Hp. apply list_lookup_fmap_Some in Hp as (c & -> & Hc).
      apply list_lookup_fmap_Some in Hc as (cs & -> & _).
      rewrite holds_free by assumption. apply disciplined_calls.
    + rewrite Hzero.
      rewrite (@in_flight_pool 0 (log σ0)) by (intros t _; apply Hbal).
      cbn [sum_balance]. symmetry. apply wrap_small; [assumption |].
      pose proof (Z.pow_pos_nonneg 2 (int_bits - 1)). lia.
  - intros t c Hc. apply list_lookup_fmap_Some in Hc as (cs & -> & _).
    exists 0. split; [reflexivity |]. rewrite Hbal. reflexivity.
  - intros t _. apply Hbal.
  - rewrite <- list_fmap_compose. apply list_fmap_id.
Qed.

(** The threads' shares of the counter add up between what the calls
    completed and begun allow. *)
Lemma sum_balance_tally (lo hi : caller -> Z) (pool : list caller)
    (l : list (tid * event)) :
  (forall t c, pool !! t = Some c -> lo c <= balance t l <= hi c) ->
  tally lo pool <= sum_balance (length pool) l <= tally hi pool.
Proof.
  induction pool as [| c pool IH] using rev_ind; intros Hb.
  - cbn. lia.
  - rewrite length_app. cbn [length]. rewrite Nat.add_1_r. cbn [sum_balance].
    assert (Hc : lo c <= balance (length pool) l <= hi c).
    { apply Hb. rewrite lookup_app_r by lia. rewrite Nat.sub_diag. reflexivity. }
    assert (Hrest : tally lo pool <= sum_balance (length pool) l <= tally hi pool).
    { apply IH. intros t c' Hc'. apply Hb.
      rewrite lookup_app_l by (eapply lookup_lt_Some; eassumption). exact Hc'. }
    assert (Htally : forall f, tally f (pool ++ [c]) = tally f pool + f c).
    { intros f. unfold tally. rewrite fold_right_app. cbn [fold_right].
      generalize (f c). clear. induction pool as [| c' pool IH]; intros n;
        cbn [fold_right]; [lia |]. rewrite IH. lia. }
    rewrite !Htally. lia.
Qed.

Lemma tally_calls_of (g : gate_call) (pool : list caller) :
  tally (fun c => count_calls g (calls_of c)) pool
  = count_calls g (concat (map calls_of pool)).
Proof.
  induction pool as [| c pool IH]; cbn [tally fold_right map concat]; [reflexivity |].
  rewrite count_calls_app. unfold tally in IH. rewrite IH. reflexivity.
Qed.

(** The counter of the callers: it counts the calls of
    [IncreaseQueryCount] that have stored less those of
    [DecreaseQueryCount] that have. *)
Lemma callers_count (css : list (list gate_call)) (cfg : state * list caller) :
  0 < int_bits ->
  count_calls Admit (concat css) <= int_max int_bits ->
  call_invariant css cfg ->
  (matched cfg.2 -> 0 <= number_of_queries cfg.1) /\
  (matched cfg.2 -> (forall c, In c cfg.2 -> current c = None) ->
   number_of_queries cfg.1
   = tally admits_completed cfg.2 - tally releases_completed cfg.2).
Proof.
  intros Hbits Hfits Hinv.
  pose proof (ci_gate Hinv) as [_ Hcount]. cbn [fst] in Hcount.
  rewrite (@in_flight_pool (length cfg.2)) in Hcount by apply (ci_outside Hinv).
  assert (Hmax : int_max int_bits = 2 ^ (int_bits - 1) - 1) by reflexivity.
  assert (Hbounds : forall t c, cfg.2 !! t = Some c ->
            admits_completed c - releases_begun c <= balance t (log cfg.1)
            <= count_calls Admit (calls_of c)).
  { intros t c Hc. destruct (ci_part Hinv t Hc) as (δ & Hδ & ->).
    unfold admits_completed, releases_begun, calls_of, net, part_of in *.
    rewrite !count_calls_app.
    pose proof (count_calls_nonneg Admit (upcoming c)).
    pose proof (count_calls_nonneg Release (completed c)).
    destruct (current c) as [[g p] |].
    - assert (Hd : δ = 0 \/ δ = call_delta g)
        by (destruct p; cbn [part] in Hδ; [right; exact Hδ | apply Hδ]).
      destruct g; cbn [call_delta count_calls] in *; lia.
    - subst δ. cbn [count_calls]. lia. }
  pose proof (sum_balance_tally _ _ _ _ Hbounds) as Hsum.
  rewrite tally_calls_of, (ci_calls Hinv) in Hsum.
  assert (Hdiff : tally (fun c => admits_completed c - releases_begun c) cfg.2
                  = tally admits_completed cfg.2 - tally releases_begun cfg.2).
  { clear. induction cfg.2 as [| c pool IH]; cbn [tally fold_right]; [lia |].
    unfold tally in IH. lia. }
  rewrite Hdiff in Hsum.
  split.
  - unfold matched. intros Hmatched.
    rewrite wrap_small in Hcount by (try assumption; lia). lia.
  - unfold matched. intros Hmatched Hquiet.
    rewrite wrap_small in Hcount by (try assumption; lia).
    rewrite Hcount.
    assert (Hexact : forall t c, cfg.2 !! t = Some c ->
              admits_completed c - releases_completed c <= balance t (log cfg.1)
              <= admits_completed c - releases_completed c).
    { intros t c Hc. destruct (ci_part Hinv t Hc) as (δ & Hδ & ->).
      rewrite (Hquiet c) in Hδ
        by (eapply lookup_In; eassumption).
      cbn [part_of] in Hδ. subst δ.
      unfold admits_completed, releases_completed, net. lia. }
    pose proof (sum_balance_tally _ _ _ _ Hexact) as Hsum'.
    assert (Hdiff' : tally (fun c => admits_completed c - releases_completed c) cfg.2
                     = tally admits_completed cfg.2 - tally releases_completed cfg.2).
    { clear. induction cfg.2 as [| c pool IH]; cbn [tally fold_right]; [lia |].
      unfold tally in IH. lia. }
    lia.
Qed.

(** C2. Threads that call [IncreaseQueryCount] and [DecreaseQueryCount] in
    any number and order, from a gate that counts no query, in an
    interleaving of the primitive operations of their calls in which every
    [DecreaseQueryCount] is matched by an [IncreaseQueryCount] that came
    before, that is, at no time have more calls of the one begun than
    calls of the other have returned: [number_of_queries] is never
    negative, and whenever no call is under way it is the number of calls
    of [IncreaseQueryCount] that have returned less the number of calls of
    [DecreaseQueryCount] that have, so zero once every admission has been
    released.  The callers' steps are the steps of their programs. *)
Theorem matched_calls_keep_count (css : list (list gate_call))
    (sched : list tid) (σ0 : state) :
  0 < int_bits ->
  count_calls Admit (concat css) <= int_max int_bits ->
  owner σ0 query_mutex = None ->
  number_of_queries σ0 = 0 ->
  (forall t, balance t (log σ0) = 0) ->
  (forall n, matched (call_run (take n sched) (σ0, map arriving css)).2) ->
  (forall n,
     0 <= number_of_queries (call_run (take n sched) (σ0, map arriving css)).1) /\
  (let cfg := call_run sched (σ0, map arriving css) in
   ((forall c, In c cfg.2 -> current c = None) ->
    number_of_queries cfg.1
    = tally admits_completed cfg.2 - tally releases_completed cfg.2) /\
   ((forall c, In c cfg.2 -> current c = None) ->
    tally admits_completed cfg.2 = tally releases_completed cfg.2 ->
    number_of_queries cfg.1 = 0) /\
   (cfg.1, map caller_prog cfg.2) = run sched (σ0, map calls css)).
Proof.
  intros Hbits Hfits Hfree Hzero Hbal Hmatched.
  pose proof (@arriving_invariant css σ0 Hbits Hfree Hzero Hbal) as Hinit.
  split.
  - intros n.
    pose proof (@run_call_invariant css (take n sched) _ Hinit) as Hinv.
    apply (@callers_count css _ Hbits Hfits Hinv). apply Hmatched.
  - intros cfg.
    pose proof (@run_call_invariant css sched _ Hinit) as Hinv.
    fold cfg in Hinv.
    destruct (@callers_count css cfg Hbits Hfits Hinv) as [_ Hquiet].
    assert (Hall : matched cfg.2).
    { specialize (Hmatched (length sched)). rewrite take_ge in Hmatched by lia.
      exact Hmatched. }
    split; [exact (Hquiet Hall) |]. split.
    + intros Hq Heq. rewrite (Hquiet Hall Hq), Heq. lia.
    + unfold cfg. rewrite (@call_run_project css sched _ Hinit). cbn [fst snd].
      rewrite <- list_fmap_compose. reflexivity.
Qed.

(** *** The order of the operations of a request *)






(** The log since the state [σ0], newest first, and what thread [t] has
    done since, oldest first. *)
Definition news (σ0 σ : state) : list (tid * event) :=
  take (length (log σ) - length (log σ0)) (log σ).

Definition own (t : tid) (σ0 σ : state) : list event :=
  rev (operations_of t (news σ0 σ)).























(** *** The facade a plugin is given *)
























End Engine.

(** ** A small engine on which the statements are run *)

Module Demo.

Inductive Status : Type := Ok | Error.

(** The watchdog remembers how many published generations it has not
    loaded yet. *)
Definition HasNewRegion (w : nat) : bool := negb (Nat.eqb w 0).
Definition MaybeLoadNewRegion (w : nat) : bool * nat :=
  (negb (Nat.eqb w 0), Nat.pred w).

(** The shared memory holds the number of generations published, if
    osrm-datastore has run at all. *)
Definition TryConnect (shm : option nat) : bool := non_null shm.
Definition DataWatchdog_new (shm : option nat) : nat :=
  match shm with
  | Some published => published
  | None => 0%nat
  end.

(** A plugin that rejects the request [0] and otherwise answers with the
    facade it was given. *)
Definition plugin : @Plugin Status :=
  {| ParameterT := nat;
     ResultT := option handle;
     HandleRequest := fun facade parameters result =>
       if Nat.eqb parameters 0 then (Error, result) else (Ok, facade) |}.

(** A running engine with [n] queries in flight, free mutexes, the facade
    [0] owned by [c] pointers and [w] generations waiting to be loaded. *)
Definition engine_state (n : Z) (c : nat) (w : nat) : @state Status nat :=
  {| st_pending_update_mutex := None;
     st_query_mutex := None;
     number_of_queries := n;
     st_facade_update_mutex := None;
     watchdog := Some w;
     query_data_facade := Some 0%nat;
     use_count := fun h => if Nat.eqb h 0 then c else 0%nat;
     next_handle := 1%nat;
     aborted := false;
     log := [] |}.


Definition standalone_engine : @Engine Status :=
  {| lock_ := None;
     route_plugin := plugin; table_plugin := plugin; nearest_plugin := plugin;
     trip_plugin := plugin; match_plugin := plugin; tile_plugin := plugin |}.

Definition config (shared : bool) (valid : bool) : @EngineConfig bool :=
  {| storage_config := valid;
     max_locations_trip := 100;
     max_locations_viaroute := 500;
     max_locations_distance_table := 100;
     max_locations_map_matching := 100;
     max_results_nearest := 100;
     use_shared_memory := shared |}.

(** A barrier that nobody holds and that counts no query. *)
Definition idle_barrier : Barrier :=
  {| found_pending_update_mutex := None;
     found_query_mutex := None;
     found_number_of_queries := 0 |}.

Definition new_engine (shared valid : bool) (shm : option nat)
  : @construction Status nat :=
  Engine_new false HasNewRegion MaybeLoadNewRegion (fun valid : bool => valid)
    TryConnect DataWatchdog_new
    (fun _ => plugin) (fun _ => plugin) (fun _ => plugin) (fun _ => plugin)
    (fun _ => plugin) plugin 0%nat (config shared valid) shm idle_barrier.

(** Two threads, each admitting and releasing one query, and one way of
    scheduling them. *)
Definition clients : list (list gate_call) :=
  [ [Admit; Release]; [Admit; Release] ].

Definition schedule : list tid :=
  [ 0; 1; 0; 0; 1; 0; 1; 0; 0; 1; 1; 1; 0; 1; 1; 0; 0; 1; 0; 1; 0; 0; 0; 1;
    1; 1; 1; 1; 1; 1; 1; 1; 0; 0; 0; 1; 1; 1; 1; 1; 1; 1; 1 ]%nat.

(** An engine on shared memory, two queries for it and two for the
    standalone engine, and the schedule that lets two threads take
    turns. *)
Definition shared_engine : @Engine Status :=
  {| lock_ := Some engine_lock;
     route_plugin := plugin; table_plugin := plugin; nearest_plugin := plugin;
     trip_plugin := plugin; match_plugin := plugin; tile_plugin := plugin |}.

Definition queries : list (query shared_engine) :=
  [ route_query shared_engine 1%nat None; tile_query shared_engine 0%nat None ].

Definition standalone_queries : list (query standalone_engine) :=
  [ nearest_query standalone_engine 1%nat None;
    match_query standalone_engine 0%nat None ].

Definition taking_turns : list tid := concat (replicate 40 [0; 1]%nat).

(** Thread [0] alone, for its first [n] operations. *)
Definition alone (n : nat) : list tid := replicate n 0%nat.

(** The interleaving in which thread [0] runs up to the call of its
    plugin, thread [1] does the same, and thread [0] calls its plugin. *)
Definition overtaking : list tid :=
  (replicate 14 0 ++ replicate 14 1 ++ [0])%nat.

(** One request whose plugin throws. *)
Definition raising_run
  : @state Status nat * completion (Status * option handle) :=
  exec_raising HasNewRegion MaybeLoadNewRegion (fun _ _ => true) 0%nat
    (RunQuery 32 false (Some engine_lock) plugin 1%nat None)
    (engine_state 0 1 0).


End Demo.

Lemma standalone_calls_handler_directly_witness :
  exec Demo.HasNewRegion Demo.MaybeLoadNewRegion 0%nat
    (Route 32 false Demo.standalone_engine 0%nat None) (Demo.engine_state 0 1 1)
  = direct_call 0%nat Demo.plugin 0%nat None (Demo.engine_state 0 1 1).
Proof.
  apply (standalone_calls_handler_directly 32 false
           Demo.HasNewRegion Demo.MaybeLoadNewRegion 0%nat
           Demo.standalone_engine (Demo.engine_state 0 1 1));
    reflexivity.
Defined.

Lemma release_once_per_admit_witness :
  exists σ' filled,
    exec Demo.HasNewRegion Demo.MaybeLoadNewRegion 0%nat
      (RunQuery 32 false (Some engine_lock) Demo.plugin 0%nat None)
      (Demo.engine_state 0 1 0)
    = (σ', Some (Demo.Error, filled)).
Proof.
  destruct (release_once_per_admit (int_bits := 32) (NDEBUG := false)
              (HasNewRegion := Demo.HasNewRegion)
              (MaybeLoadNewRegion := Demo.MaybeLoadNewRegion)
              0%nat engine_lock Demo.plugin 0%nat None
              (σ := Demo.engine_state 0 1 0) (w := 0%nat) (status := Demo.Error))
    as (σ' & filled & before & Hexec & _).
  - constructor.
    + intros []; reflexivity.
    + reflexivity.
    + reflexivity.
    + vm_compute. lia.
    + intros Hswaps. vm_compute in Hswaps. discriminate.
    + right. vm_compute. discriminate.
  - reflexivity.
  - exists σ', filled. exact Hexec.
Defined.

Lemma update_without_new_region_keeps_facade_witness :
  query_data_facade
    (exec Demo.HasNewRegion Demo.MaybeLoadNewRegion 0%nat
       (repeated 3 (update_facade false)) (Demo.engine_state 0 1 0)).1
  = Some 0%nat.
Proof.
  apply (update_without_new_region_keeps_facade false
           Demo.HasNewRegion Demo.MaybeLoadNewRegion 3 0%nat
           (Demo.engine_state 0 1 0) (w := 0%nat)).
  - reflexivity.
  - reflexivity.
  - reflexivity.
  - simpl. auto.
Defined.

Lemma release_notifies_exactly_at_zero_witness :
  count_events is_notify
    (log (exec Demo.HasNewRegion Demo.MaybeLoadNewRegion 0%nat
            (DecreaseQueryCount 32 false) (Demo.engine_state 1 1 0)).1) = 1%nat.
Proof.
  apply (release_notifies_exactly_at_zero 32 false
           Demo.HasNewRegion Demo.MaybeLoadNewRegion 0%nat
           (Demo.engine_state 1 1 0)); reflexivity.
Defined.

Lemma cheap_check_guards_load_witness :
  exists rest,
    history (exec Demo.HasNewRegion Demo.MaybeLoadNewRegion 0%nat
               (update_facade false) (Demo.engine_state 0 1 0)).1
    = map (pair 0%nat)
        ([EvLock facade_update_mutex; EvHasNewRegion false] ++ rest).
Proof.
  destruct (cheap_check_guards_load false
              Demo.HasNewRegion Demo.MaybeLoadNewRegion 0%nat
              (Demo.engine_state 0 1 0) (w := 0%nat))
    as (rest & Hhist & _).
  - reflexivity.
  - reflexivity.
  - reflexivity.
  - exists rest. exact Hhist.
Defined.

Lemma swap_asserts_sole_owner_witness :
  aborted (exec Demo.HasNewRegion Demo.MaybeLoadNewRegion 0%nat
             (update_facade false) (Demo.engine_state 1 2 1)).1 = true.
Proof.
  destruct (swap_asserts_sole_owner false
              Demo.HasNewRegion Demo.MaybeLoadNewRegion 0%nat
              (Demo.engine_state 1 2 1) (w := 1%nat) (w' := 0%nat) (old := 0%nat))
    as [Hdebug _].
  - reflexivity.
  - reflexivity.
  - reflexivity.
  - reflexivity.
  - reflexivity.
  - reflexivity.
  - vm_compute. lia.
  - destruct (Hdebug eq_refl) as (rest & _ & _ & Hmany).
    apply Hmany. simpl. lia.
Defined.


Lemma request_leaves_gate_ready_witness :
  exists σ',
    exec Demo.HasNewRegion Demo.MaybeLoadNewRegion 0%nat
      (RunQuery 32 false (Some engine_lock) Demo.plugin 1%nat None)
      (Demo.engine_state 0 1 1)
    = (σ', Some (Demo.Ok, Some 1%nat)) /\
    number_of_queries σ' = 0.
Proof.
  destruct (request_leaves_gate_ready (int_bits := 32) false
              Demo.HasNewRegion Demo.MaybeLoadNewRegion
              0%nat engine_lock Demo.plugin 1%nat None
              (σ := Demo.engine_state 0 1 1) (w := 1%nat))
    as (σ' & Hexec & _ & Hnum & _).
  - lia.
  - constructor.
    + intros []; reflexivity.
    + reflexivity.
    + reflexivity.
    + exists 0%nat. repeat split. simpl. lia.
    + vm_compute. split; [discriminate | reflexivity].
  - exists σ'. split; [exact Hexec | exact Hnum].
Defined.

Lemma release_without_admission_witness :
  aborted (exec Demo.HasNewRegion Demo.MaybeLoadNewRegion 0%nat
             (DecreaseQueryCount 32 false) (Demo.engine_state 0 1 0)).1 = true.
Proof.
  destruct (release_without_admission 32 false
              Demo.HasNewRegion Demo.MaybeLoadNewRegion 0%nat
              (Demo.engine_state 0 1 0))
    as (_ & _ & Hdebug & _).
  - reflexivity.
  - reflexivity.
  - vm_compute. reflexivity.
  - destruct (Hdebug eq_refl) as (_ & Hab & _). exact Hab.
Defined.


Lemma constructed_engine_serves_witness :
  match Demo.new_engine true true (Some 1%nat) with
  | Constructed e σ =>
      exists σ' current,
        exec Demo.HasNewRegion Demo.MaybeLoadNewRegion 1%nat
          (RunQuery 32 false (lock_ e) Demo.plugin 1%nat None) σ
        = (σ', Some (HandleRequest Demo.plugin (Some current) 1%nat None)) /\
        number_of_queries σ' = 0
  | _ => False
  end.
Proof.
  destruct (Demo.new_engine true true (Some 1%nat)) as [what | | e σ] eqn:Hnew;
    [vm_compute in Hnew; discriminate Hnew | vm_compute in Hnew; discriminate Hnew |].
  assert (Hfacade : query_data_facade σ <> None)
    by (vm_compute in Hnew; injection Hnew as _ <-; discriminate).
  assert (Hcount : 0 <= found_number_of_queries Demo.idle_barrier < int_max 32)
    by (vm_compute; split; [discriminate | reflexivity]).
  destruct (constructed_engine_serves (int_bits := 32) false
              Demo.HasNewRegion Demo.MaybeLoadNewRegion (fun valid : bool => valid)
              Demo.TryConnect Demo.DataWatchdog_new
              (fun _ => Demo.plugin) (fun _ => Demo.plugin) (fun _ => Demo.plugin)
              (fun _ => Demo.plugin) (fun _ => Demo.plugin) Demo.plugin
              0%nat 1%nat (Demo.config true true) (Some 1%nat) Demo.idle_barrier
              Demo.plugin 1%nat None ltac:(lia) eq_refl eq_refl Hcount Hnew Hfacade)
    as (σ' & current & Hexec & _ & Hnum & _).
  exists σ', current. split; [exact Hexec | exact Hnum].
Defined.

Lemma shared_data_used_under_its_mutex_witness :
  owner (run Demo.HasNewRegion Demo.MaybeLoadNewRegion (Demo.alone 4)
           (Demo.engine_state 0 1 1, serving 32 false Demo.queries)).1
    query_mutex = Some 0%nat.
Proof.
  assert (Hrest : at_rest (Demo.engine_state 0 1 1))
    by (constructor; [intros []; reflexivity | reflexivity | intros t; reflexivity]).
  assert (Hnext : from_option next_op None
            ((run Demo.HasNewRegion Demo.MaybeLoadNewRegion (Demo.alone 4)
                (Demo.engine_state 0 1 1, serving 32 false Demo.queries)).2 !! 0%nat)
          = Some Load) by (vm_compute; reflexivity).
  destruct (next_op_Some _ Hnext) as [k Hp].
  exact (proj1 (shared_data_used_under_its_mutex 32 false
                  Demo.HasNewRegion Demo.MaybeLoadNewRegion
                  Demo.queries (Demo.alone 4) 0%nat Hrest Hp) eq_refl).
Defined.

Lemma plugin_called_without_mutex_witness :
  owner (run Demo.HasNewRegion Demo.MaybeLoadNewRegion (Demo.alone 14)
           (Demo.engine_state 0 1 1, serving 32 false Demo.queries)).1
    facade_update_mutex <> Some 0%nat.
Proof.
  assert (Hrest : at_rest (Demo.engine_state 0 1 1))
    by (constructor; [intros []; reflexivity | reflexivity | intros t; reflexivity]).
  assert (Hnext : from_option next_op None
            ((run Demo.HasNewRegion Demo.MaybeLoadNewRegion (Demo.alone 14)
                (Demo.engine_state 0 1 1, serving 32 false Demo.queries)).2 !! 0%nat)
          = Some (CallHandleRequest Demo.plugin 1%nat None))
    by (vm_compute; reflexivity).
  destruct (next_op_Some _ Hnext) as [k Hp].
  exact (proj1 (plugin_called_without_mutex 32 false
                  Demo.HasNewRegion Demo.MaybeLoadNewRegion
                  Demo.queries (Demo.alone 14) 0%nat Hrest Hp)
           _ _ _ _ eq_refl facade_update_mutex).
Defined.

Lemma requests_never_deadlock_witness :
  let c := run Demo.HasNewRegion Demo.MaybeLoadNewRegion [0; 1; 0; 1; 1]%nat
             (Demo.engine_state 0 1 1, serving 32 false Demo.queries) in
  (forall t p, c.2 !! t = Some p -> exists r, p = Ret r) \/
  (exists t o k, c.2 !! t = Some (Vis o k) /\
     exists a σ', do_op Demo.HasNewRegion Demo.MaybeLoadNewRegion t o c.1
                  = Some (a, σ')).
Proof.
  assert (Hrest : at_rest (Demo.engine_state 0 1 1))
    by (constructor; [intros []; reflexivity | reflexivity | intros t; reflexivity]).
  assert (Hwatchdog : lock_ Demo.shared_engine <> None ->
                      watchdog (Demo.engine_state 0 1 1) <> None)
    by (intros _; discriminate).
  assert (Halive : aborted
            (run Demo.HasNewRegion Demo.MaybeLoadNewRegion [0; 1; 0; 1; 1]%nat
               (Demo.engine_state 0 1 1, serving 32 false Demo.queries)).1 = false)
    by (vm_compute; reflexivity).
  exact (requests_never_deadlock 32 false
           Demo.HasNewRegion Demo.MaybeLoadNewRegion
           Demo.queries [0; 1; 0; 1; 1]%nat Hrest Hwatchdog Halive).
Defined.

Lemma query_count_bounded_by_requests_witness :
  0 <= number_of_queries
         (run Demo.HasNewRegion Demo.MaybeLoadNewRegion [0; 1; 0; 1; 1]%nat
            (Demo.engine_state 0 1 1, serving 32 false Demo.queries)).1 <= 2.
Proof.
  assert (Hrest : at_rest (Demo.engine_state 0 1 1))
    by (constructor; [intros []; reflexivity | reflexivity | intros t; reflexivity]).
  assert (Hbits : 0 < 32) by lia.
  assert (Hfits : Z.of_nat (length Demo.queries) <= int_max 32)
    by (vm_compute; discriminate).
  exact (proj1 (query_count_bounded_by_requests false
                  Demo.HasNewRegion Demo.MaybeLoadNewRegion
                  Demo.queries [0; 1; 0; 1; 1]%nat Hbits Hfits Hrest)).
Defined.

Lemma mutexes_nest_only_at_admission_witness :
  (exists k,
     (run Demo.HasNewRegion Demo.MaybeLoadNewRegion (Demo.alone 2)
        (Demo.engine_state 0 1 1, serving 32 false Demo.queries)).2 !! 0%nat
     = Some (Vis (Lock query_mutex) k)) \/
  (exists k,
     (run Demo.HasNewRegion Demo.MaybeLoadNewRegion (Demo.alone 2)
        (Demo.engine_state 0 1 1, serving 32 false Demo.queries)).2 !! 0%nat
     = Some (Vis (Unlock pending_update_mutex) k)).
Proof.
  assert (Hrest : at_rest (Demo.engine_state 0 1 1))
    by (constructor; [intros []; reflexivity | reflexivity | intros t; reflexivity]).
  assert (Hpending : owner
            (run Demo.HasNewRegion Demo.MaybeLoadNewRegion (Demo.alone 2)
               (Demo.engine_state 0 1 1, serving 32 false Demo.queries)).1
            pending_update_mutex = Some 0%nat) by (vm_compute; reflexivity).
  assert (Hnext : from_option next_op None
            ((run Demo.HasNewRegion Demo.MaybeLoadNewRegion (Demo.alone 2)
                (Demo.engine_state 0 1 1, serving 32 false Demo.queries)).2 !! 0%nat)
          = Some (Lock query_mutex)) by (vm_compute; reflexivity).
  destruct (next_op_Some _ Hnext) as [k0 Hp].
  destruct (proj1 (mutexes_nest_only_at_admission 32 false
                     Demo.HasNewRegion Demo.MaybeLoadNewRegion
                     Demo.queries (Demo.alone 2) 0%nat Hrest Hp) Hpending)
    as [[k Hk] | [k Hk]]; [left | right]; exists k; rewrite Hp, Hk; reflexivity.
Defined.

Lemma served_engine_is_at_rest_witness :
  at_rest (run Demo.HasNewRegion Demo.MaybeLoadNewRegion Demo.taking_turns
             (Demo.engine_state 0 1 1, serving 32 false Demo.queries)).1.
Proof.
  assert (Hrest : at_rest (Demo.engine_state 0 1 1))
    by (constructor; [intros []; reflexivity | reflexivity | intros t; reflexivity]).
  assert (Hbits : 0 < 32) by lia.
  assert (Hfits : Z.of_nat (length Demo.queries) <= int_max 32)
    by (vm_compute; discriminate).
  assert (Hpool : (run Demo.HasNewRegion Demo.MaybeLoadNewRegion Demo.taking_turns
                     (Demo.engine_state 0 1 1, serving 32 false Demo.queries)).2
                  = [Ret Demo.Ok; Ret Demo.Error]) by (vm_compute; reflexivity).
  apply (served_engine_is_at_rest false
           Demo.HasNewRegion Demo.MaybeLoadNewRegion
           Demo.queries Demo.taking_turns Hbits Hfits Hrest).
  rewrite Hpool. clear Hpool.
  intros [| [| t]] p Hp;
    [ injection Hp as <-; eexists; reflexivity
    | injection Hp as <-; eexists; reflexivity
    | discriminate Hp ].
Defined.

Lemma counter_assertion_holds_witness :
  number_of_queries
    (run Demo.HasNewRegion Demo.MaybeLoadNewRegion (Demo.alone 21)
       (Demo.engine_state 0 1 1, serving 32 false Demo.queries)).1 = 0.
Proof.
  assert (Hrest : at_rest (Demo.engine_state 0 1 1))
    by (constructor; [intros []; reflexivity | reflexivity | intros t; reflexivity]).
  assert (Hbits : 0 < 32) by lia.
  assert (Hfits : Z.of_nat (length Demo.queries) <= int_max 32)
    by (vm_compute; discriminate).
  assert (Hnext : from_option next_op None
            ((run Demo.HasNewRegion Demo.MaybeLoadNewRegion (Demo.alone 21)
                (Demo.engine_state 0 1 1, serving 32 false Demo.queries)).2 !! 0%nat)
          = Some NotifyAll) by (vm_compute; reflexivity).
  destruct (next_op_Some _ Hnext) as [k Hp].
  exact (proj2 (counter_assertion_holds false
                  Demo.HasNewRegion Demo.MaybeLoadNewRegion
                  Demo.queries (Demo.alone 21) 0%nat Hbits Hfits Hrest) k Hp).
Defined.

Lemma standalone_queries_do_not_interfere_witness :
  let c := run Demo.HasNewRegion Demo.MaybeLoadNewRegion [1; 0; 1]%nat
             (Demo.engine_state 0 1 1, serving 32 false Demo.standalone_queries) in
  c.2 !! 1%nat
  = Some (entry_point 32 false (match_query Demo.standalone_engine 0%nat None)) \/
  c.2 !! 1%nat = Some (Ret Demo.Error).
Proof.
  assert (Hlock : lock_ Demo.standalone_engine = None) by reflexivity.
  destruct (standalone_queries_do_not_interfere 32 false
              Demo.HasNewRegion Demo.MaybeLoadNewRegion
              Demo.standalone_queries [1; 0; 1]%nat (Demo.engine_state 0 1 1) Hlock)
    as (_ & _ & _ & Hanswer).
  exact (Hanswer 1%nat (match_query Demo.standalone_engine 0%nat None) eq_refl).
Defined.


Lemma matched_calls_keep_count_witness :
  number_of_queries
    (call_run 32 false Demo.HasNewRegion Demo.MaybeLoadNewRegion Demo.schedule
       (Demo.engine_state 0 1 0, map arriving Demo.clients)).1 = 0.
Proof.
  assert (Hfits : count_calls Admit (concat Demo.clients) <= int_max 32)
    by (vm_compute; discriminate).
  assert (Hall : forallb
            (fun n =>
               tally releases_begun
                 (call_run 32 false Demo.HasNewRegion Demo.MaybeLoadNewRegion
                    (take n Demo.schedule)
                    (Demo.engine_state 0 1 0, map arriving Demo.clients)).2
               <=? tally admits_completed
                 (call_run 32 false Demo.HasNewRegion Demo.MaybeLoadNewRegion
                    (take n Demo.schedule)
                    (Demo.engine_state 0 1 0, map arriving Demo.clients)).2)
            (seq 0 (S (length Demo.schedule))) = true)
    by (vm_compute; reflexivity).
  assert (Hmatched : forall n,
            matched
              (call_run 32 false Demo.HasNewRegion Demo.MaybeLoadNewRegion
                 (take n Demo.schedule)
                 (Demo.engine_state 0 1 0, map arriving Demo.clients)).2).
  { intros n. unfold matched. apply Z.leb_le.
    destruct (le_lt_dec n (length Demo.schedule)) as [Hle | Hgt].
    - apply (proj1 (forallb_forall _ _) Hall n). apply in_seq. lia.
    - rewrite (take_ge Demo.schedule n) by lia.
      rewrite <- (take_ge Demo.schedule (length Demo.schedule)) by lia.
      apply (proj1 (forallb_forall _ _) Hall (length Demo.schedule)).
      apply in_seq. lia. }
  pose proof (matched_calls_keep_count (int_bits := 32) false
                Demo.HasNewRegion Demo.MaybeLoadNewRegion
                Demo.clients Demo.schedule (Demo.engine_state 0 1 0)
                eq_refl Hfits eq_refl eq_refl (fun t => eq_refl) Hmatched)
    as [_ Hrest].
  cbv zeta in Hrest. destruct Hrest as (_ & Hzero & _).
  assert (Hpool : (call_run 32 false Demo.HasNewRegion Demo.MaybeLoadNewRegion
                     Demo.schedule
                     (Demo.engine_state 0 1 0, map arriving Demo.clients)).2
                  = [ {| completed := [Admit; Release]; current := None; upcoming := [] |};
                      {| completed := [Admit; Release]; current := None; upcoming := [] |} ])
    by (vm_compute; reflexivity).
  apply Hzero.
  - rewrite Hpool. intros c [<- | [<- | []]]; reflexivity.
  - rewrite Hpool. reflexivity.
Defined.


(** Two requests and two generations waiting: thread [0] installs the
    object [1]; thread [1] installs the object [2] before thread [0] has
    called its plugin; the plugin of thread [0] is given the object [2]. *)
Lemma request_served_on_newer_facade :
  In (EvMoveFacade (Some 0%nat) 1%nat)
    (own 0%nat (Demo.engine_state 0 1 2)
       (run Demo.HasNewRegion Demo.MaybeLoadNewRegion Demo.overtaking
          (Demo.engine_state 0 1 2,
           serving 32 false Demo.queries)).1) /\
  In (EvMoveFacade (Some 1%nat) 2%nat)
    (own 1%nat (Demo.engine_state 0 1 2)
       (run Demo.HasNewRegion Demo.MaybeLoadNewRegion Demo.overtaking
          (Demo.engine_state 0 1 2,
           serving 32 false Demo.queries)).1) /\
  In (EvHandleRequest (Some 2%nat) Demo.Ok)
    (own 0%nat (Demo.engine_state 0 1 2)
       (run Demo.HasNewRegion Demo.MaybeLoadNewRegion Demo.overtaking
          (Demo.engine_state 0 1 2,
           serving 32 false Demo.queries)).1).
Proof.
  split; [| split]; vm_compute; repeat (first [left; reflexivity | right]).
Qed.

(** A plugin that throws leaves [RunQuery] at line 133: the request has
    been admitted and is not released, and [number_of_queries] stays at
    one. *)
Lemma throwing_plugin_skips_release :
  Demo.raising_run.2 = Raised _ /\
  admitted (log Demo.raising_run.1) = 1%nat /\
  released (log Demo.raising_run.1) = 0%nat /\
  number_of_queries Demo.raising_run.1 = 1 /\
  owner Demo.raising_run.1 query_mutex = None.
Proof.
  split; [| split; [| split; [| split]]]; vm_compute; reflexivity.
Qed.

